(** * fastface: the LFFD-tiny training step, the dataset base class and the
      cache directories

    A shallow embedding of [src/models/lffd/tiny.py],
    [src/fastface/dataset/base.py] and [src/mypackage/utils/cache.py].
    Tensors are nested lists in the index order of the source, float
    entries are IEEE binary64 values (Rocq's primitive floats), integer
    tensors are [Z] with the int64 wrap-around written out, Python objects
    that are shared and mutated live in a heap, and the directories live
    in a map from paths to nodes. *)

From Stdlib Require Import ZArith Floats.
From stdpp Require Import gmap strings list fin_maps.

(** ** Python results: a value or a raised exception *)

Module Py.

(** The exceptions the modelled statements can raise.  [InvalidMaskError]
    is the name the specification uses; no statement of the sources
    raises it. *)
Inductive exn : Set :=
| AssertionError
| IndexError
| RuntimeError
| TypeError
| AttributeError
| OSError
| RecursionError
| InvalidMaskError.

Inductive result (A : Type) : Type :=
| Ok (a : A)
| Raise (e : exn).
Arguments Ok {A} a.
Arguments Raise {A} e.

Definition bind {A B} (m : result A) (k : A → result B) : result B :=
  match m with
  | Ok a => k a
  | Raise e => Raise e
  end.

Global Instance exn_eq_dec : EqDecision exn.
Proof. solve_decision. Defined.

(** the result is the exception [e] *)
Definition raises {A} (e : exn) (r : result A) : bool :=
  match r with
  | Ok _ => false
  | Raise e' => bool_decide (e' = e)
  end.

(** the value a result carries *)
Definition raised_value {A} (r : result A) : option A :=
  match r with
  | Ok a => Some a
  | Raise _ => None
  end.

(** the exception a result carries *)
Definition raised {A} (r : result A) : option exn :=
  match r with
  | Ok _ => None
  | Raise e => Some e
  end.

(** [l[idx]] on a Python list: a negative index counts from the end *)
Definition py_index {A} (l : list A) (idx : Z) : result A :=
  let n := Z.of_nat (length l) in
  let i := if (idx <? 0)%Z then (idx + n)%Z else idx in
  if (i <? 0)%Z then Raise IndexError
  else match l !! Z.to_nat i with
       | Some x => Ok x
       | None => Raise IndexError
       end.

(** [t !! b !! l] on a two-level tensor *)
Definition at2 {A} (t : list (list A)) (b l : nat) : option A :=
  t !! b ≫= (.!! l).

End Py.

Import Py.

Notation "x ←' m ; k" := (Py.bind m (λ x, k))
  (at level 20, m at level 100, k at level 200, only parsing,
   right associativity).

(** ** models/lffd/tiny.py *)

Module Tiny.

(** *** Integer tensors: int64 *)

Definition wrap64 (z : Z) : Z := ((z + 2 ^ 63) mod 2 ^ 64 - 2 ^ 63)%Z.

(** [ratio = 10] (line 77) *)
Definition ratio : Z := 10.

(** *** Boolean masks over (batch, locations) *)

(** [t == v], elementwise *)
Definition eq_scalar (t : list (list float)) (v : float) : list (list bool) :=
  map (map (λ x, PrimFloat.eqb x v)) t.

(** [~m] *)
Definition mask_not (m : list (list bool)) : list (list bool) :=
  map (map negb) m.

(** [a & b] and [a | b] on tensors of one shape *)
Definition mask_and (a b : list (list bool)) : list (list bool) :=
  zip_with (zip_with andb) a b.
Definition mask_or (a b : list (list bool)) : list (list bool) :=
  zip_with (zip_with orb) a b.

(** line 111: [pos_mask = (target_cls == 1) & (~ignore)] *)
Definition pos_mask (target_cls : list (list float))
    (ignore : list (list bool)) : list (list bool) :=
  mask_and (eq_scalar target_cls 1%float) (mask_not ignore).

(** line 112: [neg_mask = (target_cls == 0) & (~ignore)] *)
Definition neg_mask (target_cls : list (list float))
    (ignore : list (list bool)) : list (list bool) :=
  mask_and (eq_scalar target_cls 0%float) (mask_not ignore).

(** number of [True] entries of a row *)
Fixpoint count_true (l : list bool) : nat :=
  match l with
  | [] => 0
  | b :: l' => (if b then 1 else 0) + count_true l'
  end.

(** number of [True] entries of the whole tensor *)
Definition mask_count (m : list (list bool)) : nat := count_true (concat m).

(** [m.sum()]: one int64 scalar for the whole tensor *)
Definition mask_sum (m : list (list bool)) : Z :=
  wrap64 (Z.of_nat (mask_count m)).

(** [torch.where(v)] on a flat mask: the indices of the [True] entries,
    ascending *)
Fixpoint where_from (i : nat) (l : list bool) : list nat :=
  match l with
  | [] => []
  | b :: l' => (if b then [i] else []) ++ where_from (S i) l'
  end.
Definition where_true (l : list bool) : list nat := where_from 0 l.

(** the entries at the indices [ss] set to [True] *)
Definition put_all (ss : list nat) (l : list bool) : list bool :=
  foldr (λ i acc, <[i:=true]> acc) l ss.

(** [v[ss] = True] on a flat mask; an index past the end raises *)
Definition index_put_true (ss : list nat) (l : list bool) : result (list bool) :=
  if forallb (λ i, i <? length l) ss
  then Ok (put_all ss l)
  else Raise IndexError.

(** [a], [b], [c]: one holds and the other two do not *)
Definition exactly_one (a b c : bool) : Prop :=
  a && negb b && negb c || negb a && b && negb c || negb a && negb b && c = true.

(** a (B, L) tensor: [B] rows of [L] entries *)
Definition has_shape {A} (B L : nat) (t : list (list A)) : Prop :=
  length t = B ∧ Forall (λ row, length row = L) t.

(** some location is [True] in both masks *)
Definition masks_overlap (a b : list (list bool)) : Prop :=
  ∃ i j, at2 a i j = Some true ∧ at2 b i j = Some true.

(** rows of width [n], [rows] of them, cut from a flat list *)
Fixpoint chunks {A} (n rows : nat) (l : list A) : list (list A) :=
  match rows with
  | 0 => []
  | S r => take n l :: chunks n r (drop n l)
  end.

(** [v.view(batch_size, -1)] on a flat tensor: the width is inferred, which
    torch refuses for a tensor without elements and for a length that
    [batch_size] does not divide *)
Definition view2 {A} (batch_size : nat) (flat : list A) : result (list (list A)) :=
  if (length flat =? 0) || (batch_size =? 0) then Raise RuntimeError
  else if negb (length flat mod batch_size =? 0) then Raise RuntimeError
  else Ok (chunks (length flat / batch_size) batch_size flat).

(** Modelled from the spec: [utils.utils.random_sample_selection] is
    imported by tiny.py (line 10) and is not among the sources.  The
    specification (4.4, step 3) has it sample [select_n] entries of the
    population without replacement: the result is a sub-multiset of the
    population with [select_n] entries. *)
Definition is_sample (population : list nat) (select_n : Z)
    (ss : list nat) : Prop :=
  ss ⊆+ population ∧ Z.of_nat (length ss) = select_n.

(** Modelled from the spec: a sampler meets this contract whenever it is
    asked for no more entries than the population has *)
Definition sampler_ok (sampler : list nat → Z → list nat) : Prop :=
  ∀ population select_n,
    (0 ≤ select_n ≤ Z.of_nat (length population))%Z →
    is_sample population select_n (sampler population select_n).

(** a sampler that meets the contract: the first [select_n] entries *)
Definition first_n_sampler (population : list nat) (select_n : Z) : list nat :=
  take (Z.to_nat select_n) population.

Section Mining.

Variable random_sample_selection : list nat → Z → list nat.

(** lines 114-116: the number of negatives to keep *)
Definition negatives_target (pos neg : list (list bool)) : Z :=
  let positives := mask_sum pos in
  let negatives := mask_sum neg in
  Z.min negatives (wrap64 (ratio * positives)).

(** lines 114-124: hard-negative mining; returns the rebuilt [neg_mask] *)
Definition hard_negative_mining (batch_size : nat)
    (pos neg : list (list bool)) : result (list (list bool)) :=
  let negatives := negatives_target pos neg in
  let ss := where_true (concat neg) in
  let ss := random_sample_selection ss negatives in
  let cleared := map (map (λ _ : bool, false)) neg in
  flat ←' index_put_true ss (concat cleared);
  view2 batch_size flat.

End Mining.

(** *** Losses *)

(** [t[mask]] on one row: the entries where the mask is [True], in order *)
Fixpoint select_row {A} (m : list bool) (xs : list A) : list A :=
  match m, xs with
  | b :: m', x :: xs' =>
      if b then x :: select_row m' xs' else select_row m' xs'
  | _, _ => []
  end.

(** [t[mask]] for a (batch, locations) mask: the selected entries of all
    rows, row after row.  With [A := list float] it is [t[mask, :]]. *)
Definition masked_select {A} (mask : list (list bool))
    (t : list (list A)) : list A :=
  concat (zip_with select_row mask t).

Definition fsum (xs : list float) : float := foldl PrimFloat.add 0%float xs.

Definition float_of_nat (n : nat) : float :=
  PrimFloat.of_uint63 (Uint63.of_Z (Z.of_nat n)).

(** the ['mean'] reduction of torch's losses: the sum over the number of
    elements; without elements it is 0/0 *)
Definition fmean (xs : list float) : float :=
  (fsum xs / float_of_nat (length xs))%float.

Definition squared_error (x y : float) : float := ((x - y) * (x - y))%float.

(** [F.mse_loss(input, target)] on (K, 4) tensors *)
Definition mse_loss (input target : list (list float)) : float :=
  fmean (zip_with squared_error (concat input) (concat target)).

Section Losses.

(** The loss of one logit against one target inside
    [F.binary_cross_entropy_with_logits]; torch computes it with [exp]
    and [log], which are left abstract. *)
Variable bce_pointwise : float → float → float.

Definition binary_cross_entropy_with_logits (input target : list float) : float :=
  fmean (zip_with bce_pointwise input target).

(** lines 126-127 *)
Definition cls_loss_of (pos neg : list (list bool))
    (cls_logits target_cls : list (list float)) : float :=
  binary_cross_entropy_with_logits
    (masked_select (mask_or pos neg) cls_logits)
    (masked_select (mask_or pos neg) target_cls).

(** line 129 *)
Definition reg_loss_of (pos : list (list bool))
    (reg_logits target_regs : list (list (list float))) : float :=
  mse_loss (masked_select pos reg_logits) (masked_select pos target_regs).

(** lines 131-133 *)
Definition checked_sum (cls_loss reg_loss : float) : result float :=
  if negb (PrimFloat.is_nan reg_loss) && negb (PrimFloat.is_nan cls_loss)
  then Ok (cls_loss + reg_loss)%float
  else Raise AssertionError.

Variable random_sample_selection : list nat → Z → list nat.

(** lines 111-133 of [training_step]: from the concatenated tensors to
    the loss *)
Definition training_loss (batch_size : nat)
    (cls_logits : list (list float)) (reg_logits : list (list (list float)))
    (target_cls : list (list float)) (target_regs : list (list (list float)))
    (ignore : list (list bool)) : result float :=
  let pos := pos_mask target_cls ignore in
  let neg := neg_mask target_cls ignore in
  neg ←' hard_negative_mining random_sample_selection batch_size pos neg;
  let cls_loss := cls_loss_of pos neg cls_logits target_cls in
  let reg_loss := reg_loss_of pos reg_logits target_regs in
  checked_sum cls_loss reg_loss.

End Losses.

(** *** The detector *)

(** A 4-d tensor is a list over the batch of a list over the second
    axis, and so on; [view] reads it in this (row-major) order. *)
Abbreviation tensor4 := (list (list (list (list float)))).

(** the arguments of [DetectionHead(...)] on lines 42-43 *)
Record head_config : Set := HeadConfig {
  head_idx : nat;
  num_of_filters : Z;
  rf_size : Z;
  rf_stride : Z;
  lower_scale : Z;
  upper_scale : Z;
  head_num_classes : Z
}.

(** lines 18-21 *)
Definition __FILTERS__ : list Z := [64; 64]%Z.
Definition __RF_SIZES__ : list Z := [55; 71]%Z.
Definition __RF_STRIDES__ : list Z := [4; 4]%Z.
Definition __SCALES__ : list (Z * Z) := [(10, 15); (15, 20)]%Z.

Record LFFDTinyPart : Set := {
  num_classes : Z;
  heads : list head_config
}.

(** [__init__] (lines 23-45): [None] selects the class-level default, the
    heads are built from the zipped lists in list order and numbered
    from 1.  ([in_channels] only reaches the first convolution, which is a
    parameter below.) *)
Definition __init__ (filters rf_sizes rf_strides : option (list Z))
    (scales : option (list (Z * Z))) (num_classes : Z) : LFFDTinyPart :=
  let filters := default __FILTERS__ filters in
  let rf_sizes := default __RF_SIZES__ rf_sizes in
  let rf_strides := default __RF_STRIDES__ rf_strides in
  let scales := default __SCALES__ scales in
  {| num_classes := num_classes;
     heads :=
       imap (λ idx '(f, rs, rst, (lo, up)),
               HeadConfig (idx + 1) f rs rst lo up num_classes)
            (zip (zip (zip filters rf_sizes) rf_strides) scales) |}.

(** rows become columns: [m] lists of length [n] to [n] lists of length [m] *)
Fixpoint transpose {A} (n : nat) (rows : list (list A)) : list (list A) :=
  match rows with
  | [] => replicate n []
  | r :: rs => zip_with cons r (transpose n rs)
  end.

(** [t.shape[2:]].  (Nested lists keep no shape for a tensor whose batch
    or channel axis is empty; the facts below are about tensors with at
    least one entry on every axis.) *)
Definition shape_hw (t : tensor4) : nat * nat :=
  match t with
  | (plane :: _) :: _ =>
      (length plane, match plane with row :: _ => length row | [] => 0 end)
  | _ => (0, 0)
  end.

(** one batch entry, (C, H, W), with the channel axis moved to the end:
    (H, W, C) *)
Definition permute_chw {A} (fh fw : nat) (chw : list (list (list A)))
    : list (list (list A)) :=
  map (transpose fw) (transpose fh chw).

(** [t.permute(0,2,3,1)]: (B, C, H, W) to (B, H, W, C) *)
Definition permute_0231 (t : tensor4) : tensor4 :=
  let '(fh, fw) := shape_hw t in
  map (permute_chw fh fw) t.

(** shapes of nested tensors *)
Definition shape3 {A} (B H W : nat) (t : list (list (list A))) : Prop :=
  length t = B ∧ Forall (has_shape H W) t.
Definition shape4 {A} (B C H W : nat) (t : list (list (list (list A)))) : Prop :=
  length t = B ∧ Forall (shape3 C H W) t.

(** [t[b, r, c]] *)
Definition at3 {A} (t : list (list (list A))) (b r c : nat) : option A :=
  at2 t b r ≫= (.!! c).

(** [t[b, :, r, c]]: the entries of all channels at one grid location *)
Definition channels_at {A} (t : list (list (list (list A)))) (b r c : nat)
    : option (list A) :=
  t !! b ≫= mapM (λ plane : list (list A), at2 plane r c).

(** the entries of a nested tensor in memory order *)
Definition flat3 {A} (t : list (list (list A))) : list A := concat (concat t).
Definition flat4 {A} (t : list (list (list (list A)))) : list A :=
  concat (concat (concat t)).

(** [v.view(batch_size, -1, k)] on a flat tensor.  ([view] after [permute]
    is modelled by the result it has when torch accepts the strides, as it
    does for the one-channel and the four-channel logits of the heads.) *)
Definition view3 {A} (batch_size k : nat) (flat : list A)
    : result (list (list (list A))) :=
  rows ←' view2 batch_size flat;
  if forallb (λ row : list A, length row mod k =? 0) rows
  then Ok (map (λ row : list A, chunks k (length row / k) row) rows)
  else Raise RuntimeError.

(** [torch.cat(ts, dim=1)] on (B, L_i) tensors; an empty list raises *)
Definition cat1 {A} (ts : list (list (list A))) : result (list (list A)) :=
  match ts with
  | [] => Raise RuntimeError
  | t :: rest => Ok (foldl (zip_with app) t rest)
  end.

(** what one round of the loop on lines 88-103 leaves in the five lists *)
Record flat_head : Type := FlatHead {
  fh_cls_logits : list (list float);
  fh_reg_logits : list (list (list float));
  fh_target_cls : list (list float);
  fh_target_regs : list (list (list float));
  fh_ignore : list (list bool)
}.

(** the shapes of one head's logits: (B, 1, H, W) and (B, 4, H, W) *)
Definition logits_shaped (B H W : nat) (l : tensor4 * tensor4) : Prop :=
  shape4 B 1 H W l.1 ∧ shape4 B 4 H W l.2.

(** the shapes [build_targets] documents (lines 93-95): (B, H, W),
    (B, H, W, 4) and (B, H, W) *)
Definition targets_shaped (B H W : nat)
    (t : list (list (list float)) * tensor4 * list (list (list bool))) : Prop :=
  shape3 B H W t.1.1 ∧ shape4 B H W 4 t.1.2 ∧ shape3 B H W t.2.

(** position [p] of row [b] of the concatenated tensors holds what one
    head has at grid location ([r], [c]) *)
Definition aligned (f : flat_head) (b p : nat) (l : tensor4 * tensor4)
    (t : list (list (list float)) * tensor4 * list (list (list bool)))
    (r c : nat) : Prop :=
  (λ x, [x]) <$> at2 (fh_cls_logits f) b p = channels_at l.1 b r c
  ∧ at2 (fh_reg_logits f) b p = channels_at l.2 b r c
  ∧ at2 (fh_target_cls f) b p = at3 t.1.1 b r c
  ∧ at2 (fh_target_regs f) b p = at3 t.1.2 b r c
  ∧ at2 (fh_ignore f) b p = at3 t.2 b r c
  ∧ is_Some (at2 (fh_cls_logits f) b p)
  ∧ is_Some (at2 (fh_target_cls f) b p).

(** what [flatten_head] returns for logits [l] and targets [t] of the
    documented shapes *)
Definition flat_head_of (H W : nat) (l : tensor4 * tensor4)
    (t : list (list (list float)) * tensor4 * list (list (list bool)))
    : flat_head :=
  FlatHead
    (map (λ chw, concat (concat (permute_chw H W chw))) l.1)
    (map (λ chw, concat (permute_chw H W chw)) l.2)
    (map (λ x, concat x) t.1.1)
    (map (λ x, concat x) t.1.2)
    (map (λ x, concat x) t.2).

(** two heads' tensors concatenated along the location axis *)
Definition flat_head_app (f0 f1 : flat_head) : flat_head :=
  FlatHead
    (zip_with app (fh_cls_logits f0) (fh_cls_logits f1))
    (zip_with app (fh_reg_logits f0) (fh_reg_logits f1))
    (zip_with app (fh_target_cls f0) (fh_target_cls f1))
    (zip_with app (fh_target_regs f0) (fh_target_regs f1))
    (zip_with app (fh_ignore f0) (fh_ignore f1)).

(** a band lies below another one *)
Definition band_lt (a b : Z * Z) : Prop := (a.1 < b.1 ∧ a.2 < b.2)%Z.

(** the bands of a list come in strictly increasing order *)
Definition increasing_scales (scales : list (Z * Z)) : Prop :=
  ∀ i j a b, i < j → scales !! i = Some a → scales !! j = Some b → band_lt a b.

Section Detector.

(** the type of [gt_boxes] *)
Variable GT : Type.

(** the backbone modules of lines 34-39 ([conv_layer] and [ResBlock]
    are imported, lines 6-7) *)
Variables downsample_conv1 downsample_conv2 : tensor4 → tensor4.
Variables res_block1 res_block2 res_block3 res_block4 : tensor4 → tensor4.

(** [DetectionHead.__call__] and [DetectionHead.build_targets] (imported,
    line 8) of the head built from a configuration *)
Variable head_call : head_config → tensor4 → tensor4 * tensor4.
Variable build_targets :
  head_config → nat * nat → GT →
  list (list (list float)) * tensor4 * list (list (list bool)).

(** lines 63-66: [self.heads[i](logits[i])] for [i = start, ...] *)
Fixpoint apply_heads (hs : list head_config) (i : nat)
    (logits : list tensor4) : result (list tensor4 * list tensor4) :=
  match logits with
  | [] => Ok ([], [])
  | x :: logits' =>
      match hs !! i with
      | None => Raise IndexError
      | Some h =>
          let '(cls_l, reg_l) := head_call h x in
          rest ←' apply_heads hs (S i) logits';
          Ok (cls_l :: rest.1, reg_l :: rest.2)
      end
  end.

(** lines 50-55: [c8] *)
Definition feature_c8 (x : tensor4) : tensor4 :=
  let c1 := downsample_conv1 x in
  let c2 := downsample_conv2 c1 in
  let c4 := res_block1 c2 in
  let c6 := res_block2 c4 in
  res_block3 c6.

(** the two feature maps of lines 50-58: [logits = [c8, c10]] *)
Definition features (x : tensor4) : list tensor4 :=
  let c8 := feature_c8 x in
  let c10 := res_block4 c8 in
  [c8; c10].

(** [forward] (lines 47-68) *)
Definition forward (self : LFFDTinyPart) (x : tensor4)
    : result (list tensor4 * list tensor4) :=
  apply_heads (heads self) 0 (features x).

(** one round of the loop on lines 88-103 *)
Definition flatten_head (batch_size : nat) (gt_boxes : GT)
    (h : head_config) (cls_l reg_l : tensor4) : result flat_head :=
  let '(fh, fw) := shape_hw cls_l in
  let '(t_cls, t_regs, ig) := build_targets h (fh, fw) gt_boxes in
  c ←' view2 batch_size (flat4 (permute_0231 cls_l));
  r ←' view3 batch_size 4 (flat4 (permute_0231 reg_l));
  tc ←' view2 batch_size (flat3 t_cls);
  tr ←' view3 batch_size 4 (flat4 t_regs);
  i ←' view2 batch_size (flat3 ig);
  Ok (FlatHead c r tc tr i).

(** lines 88-103: [for i in range(len(self.heads))] *)
Fixpoint flatten_heads (batch_size : nat) (gt_boxes : GT)
    (hs : list head_config) (i : nat)
    (cls_logits reg_logits : list tensor4) : result (list flat_head) :=
  match hs with
  | [] => Ok []
  | h :: hs' =>
      match cls_logits !! i, reg_logits !! i with
      | Some cls_l, Some reg_l =>
          f ←' flatten_head batch_size gt_boxes h cls_l reg_l;
          fs ←' flatten_heads batch_size gt_boxes hs' (S i)
                  cls_logits reg_logits;
          Ok (f :: fs)
      | _, _ => Raise IndexError
      end
  end.

(** the five concatenated tensors of lines 105-109 *)
Definition concat_heads (fs : list flat_head) : result flat_head :=
  c ←' cat1 (map fh_cls_logits fs);
  r ←' cat1 (map fh_reg_logits fs);
  tc ←' cat1 (map fh_target_cls fs);
  tr ←' cat1 (map fh_target_regs fs);
  i ←' cat1 (map fh_ignore fs);
  Ok (FlatHead c r tc tr i).

(** lines 81-109: the loop over the heads and the concatenations *)
Definition flatten_batch (self : LFFDTinyPart) (batch_size : nat)
    (gt_boxes : GT) (cls_logits reg_logits : list tensor4) : result flat_head :=
  fs ←' flatten_heads batch_size gt_boxes (heads self) 0 cls_logits reg_logits;
  concat_heads fs.

Variable bce_pointwise : float → float → float.
Variable random_sample_selection : list nat → Z → list nat.

(** [training_step] (lines 70-133); [batch_idx] is not used *)
Definition training_step (self : LFFDTinyPart)
    (batch : tensor4 * GT) : result float :=
  let '(imgs, gt_boxes) := batch in
  let batch_size := length imgs in
  logits ←' forward self imgs;
  f ←' flatten_batch self batch_size gt_boxes logits.1 logits.2;
  training_loss bce_pointwise random_sample_selection batch_size
    (fh_cls_logits f) (fh_reg_logits f)
    (fh_target_cls f) (fh_target_regs f) (fh_ignore f).

End Detector.

(** *** Example data *)

(** the logits and the targets of one head for one batch entry on a 1 x 2
    grid *)
Definition example_logits : tensor4 * tensor4 :=
  ([[[[0.5; -0.5]]]]%float,
   [[[[1; 2]]; [[3; 4]]; [[5; 6]]; [[7; 8]]]]%float).
Definition example_targets
    : list (list (list float)) * tensor4 * list (list (list bool)) :=
  ([[[1; 0]]]%float,
   [[[[0.125; 0.25; 0.5; 0.75]; [0; 0; 0; 0]]]]%float,
   [[[false; true]]]).

(** targets without a positive location *)
Definition example_targets_negative
    : list (list (list float)) * tensor4 * list (list (list bool)) :=
  ([[[0; 0]]]%float,
   [[[[0; 0; 0; 0]; [0; 0; 0; 0]]]]%float,
   [[[false; true]]]).

(** the concatenated tensors of two heads with the example logits *)
Definition example_flat
    (t : list (list (list float)) * tensor4 * list (list (list bool)))
    : flat_head :=
  FlatHead [[0.5; -0.5; 0.5; -0.5]]%float
    [[[1; 3; 5; 7]; [2; 4; 6; 8]; [1; 3; 5; 7]; [2; 4; 6; 8]]]%float
    (zip_with app (map (λ x, concat x) t.1.1) (map (λ x, concat x) t.1.1))
    (zip_with app (map (λ x, concat x) t.1.2) (map (λ x, concat x) t.1.2))
    (zip_with app (map (λ x, concat x) t.2) (map (λ x, concat x) t.2)).

(** the class defaults *)
Definition example_detector : LFFDTinyPart :=
  __init__ None None None None 1.

End Tiny.


(** ** fastface/dataset/base.py *)

Module Dataset.

(** *** numpy arrays *)

Inductive dtype : Set := UInt8 | UInt16 | Float32 | Float64.

Inductive scalar : Set :=
| SInt (z : Z)
| SFloat (f : float).

(** an array: its dtype, its shape and its entries in row-major order *)
Record ndarray : Set := NdArray {
  nd_dtype : dtype;
  nd_shape : list nat;
  nd_c_contiguous : bool;
  nd_data : list scalar
}.

(** [np.ascontiguousarray(img, dtype=img.dtype)]: same entries, C layout *)
Definition ascontiguousarray (img : ndarray) : ndarray :=
  NdArray (nd_dtype img) (nd_shape img) true (nd_data img).

(** [img[:, :, :3]] on an array with at least three axes: of every block
    along the third axis the first three sub-blocks are kept *)
Definition slice_axis2_3 (img : ndarray) : ndarray :=
  match nd_shape img with
  | a :: b :: c :: rest =>
      let inner := foldr Nat.mul 1 rest in
      NdArray (nd_dtype img) (a :: b :: Nat.min c 3 :: rest) false
        (concat (map (take (Nat.min c 3 * inner))
                     (Tiny.chunks (c * inner) (a * b) (nd_data img))))
  | _ => img
  end.

(** [np.stack([img, img, img], axis=-1)] *)
Definition stack3_last (img : ndarray) : ndarray :=
  NdArray (nd_dtype img) (nd_shape img ++ [3]) true
    (flat_map (λ x, [x; x; x]) (nd_data img)).

Section LoadImage.

(** the C conversion of a float entry to uint8 inside [np.array] *)
Variable float_to_uint8 : float → Z.

Definition to_uint8 (x : scalar) : scalar :=
  match x with
  | SInt z => SInt (z mod 256)
  | SFloat f => SInt (float_to_uint8 f)
  end.

(** [np.array(img, dtype=np.uint8)] *)
Definition array_uint8 (img : ndarray) : ndarray :=
  NdArray UInt8 (nd_shape img) true (map to_uint8 (nd_data img)).

(** [imageio.imread] on the files at hand *)
Variable imread : string → result ndarray.

(** [_load_image] (lines 47-69) *)
Definition _load_image (img_file_path : string) : result ndarray :=
  img ←' imread img_file_path;
  let img :=
    if negb (nd_c_contiguous img) then ascontiguousarray img else img in
  let img :=
    if length (nd_shape img) =? 4 then slice_axis2_3 img
    else if length (nd_shape img) =? 2 then stack3_last img
    else img in
  Ok (array_uint8 img).

End LoadImage.

(** *** Python objects *)

Definition loc := nat.

Inductive callable : Set :=
| IdentitiyTransforms              (* an instance of [_IdentitiyTransforms] *)
| UserCallable (name : string).

(** a value: an immutable atom or a reference to a mutable object *)
Inductive val : Set :=
| VNone
| VInt (z : Z)
| VStr (s : string)
| VCallable (c : callable)
| VRef (l : loc).

Inductive obj : Set :=
| ODict (items : list (string * val))
| OList (elems : list val)
| OArray (a : ndarray).

Abbreviation heap := (gmap loc obj).

(** the references an object holds *)
Definition val_refs (v : val) : list loc :=
  match v with VRef l => [l] | _ => [] end.
Definition obj_refs (o : obj) : list loc :=
  match o with
  | ODict items => flat_map (λ kv, val_refs kv.2) items
  | OList elems => flat_map val_refs elems
  | OArray _ => []
  end.

(** [l] is the object [v] refers to or one that object reaches *)
Inductive reach (h : heap) : val → loc → Prop :=
| reach_here l : reach h (VRef l) l
| reach_step l o r l' :
    h !! l = Some o → r ∈ obj_refs o → reach h (VRef r) l' →
    reach h (VRef l) l'.

(** a statement that runs on the heap and returns or raises *)
Definition stateful (A : Type) : Type := heap → result A * heap.

(** *** copy.deepcopy *)

(** [deepcopy] of the entries of a list, left to right, with the state
    (memo and heap) threaded through *)
Fixpoint copy_all {S} (copy : val → S → option (val * S))
    (xs : list val) (st : S) : option (list val * S) :=
  match xs with
  | [] => Some ([], st)
  | x :: xs' =>
      match copy x st with
      | None => None
      | Some (y, st1) =>
          match copy_all copy xs' st1 with
          | None => None
          | Some (ys, st2) => Some (y :: ys, st2)
          end
      end
  end.

(** [copy.deepcopy(x, memo)]: atoms are returned as they are; a list, a
    dict or an array is copied to a new object, which is entered in the
    memo before the entries are copied ([_deepcopy_list],
    [_deepcopy_dict]); an object met again is answered from the memo.  A
    reference to no object, which a Python heap does not hold, is returned
    as it is.  [fuel] bounds the nesting of the calls; [None] is too
    little fuel. *)
Fixpoint deepcopy_fuel (fuel : nat) (x : val) (st : gmap loc loc * heap)
    : option (val * (gmap loc loc * heap)) :=
  match fuel with
  | 0 => None
  | S fuel' =>
      match x with
      | VRef l =>
          match st.1 !! l with
          | Some l' => Some (VRef l', st)
          | None =>
              let l' := fresh (dom st.2) in
              match st.2 !! l with
              | None => Some (VRef l, st)
              | Some (OArray a) =>
                  Some (VRef l', (<[l:=l']> st.1, <[l':=OArray a]> st.2))
              | Some (OList elems) =>
                  let st1 := (<[l:=l']> st.1, <[l':=OList []]> st.2) in
                  match copy_all (deepcopy_fuel fuel') elems st1 with
                  | None => None
                  | Some (ys, st2) =>
                      Some (VRef l', (st2.1, <[l':=OList ys]> st2.2))
                  end
              | Some (ODict items) =>
                  let st1 := (<[l:=l']> st.1, <[l':=ODict []]> st.2) in
                  match copy_all (deepcopy_fuel fuel') items.*2 st1 with
                  | None => None
                  | Some (ys, st2) =>
                      Some (VRef l',
                            (st2.1, <[l':=ODict (zip items.*1 ys)]> st2.2))
                  end
              end
          end
      | _ => Some (x, st)
      end
  end.

(** [copy.deepcopy(x)]: an empty memo, and nesting as deep as the heap
    has objects *)
Definition deepcopy (x : val) (h : heap) : option (val * heap) :=
  match deepcopy_fuel (S (size h)) x (∅, h) with
  | Some (y, st) => Some (y, st.2)
  | None => None
  end.

(** *** BaseDataset *)

(** the names bound in the body of [class BaseDataset] *)
Definition BaseDataset_attrs : list string :=
  ["__init__"; "__getitem__"; "__len__"; "_load_image"; "get_dataloader";
   "get_mean_std"].

(** [x] when it refers to a list object *)
Definition as_list (h : heap) (x : val) : option (list val) :=
  match x with
  | VRef l => match h !! l with Some (OList elems) => Some elems | _ => None end
  | _ => None
  end.

Section BaseDataset.

(** the names the instance inherits from torch's [Dataset] and [object] *)
Variable base_attrs : gset string.

(** [hasattr(self, key)]: an entry of the instance's [__dict__] or a name
    of its class *)
Definition hasattr (self : gmap string val) (key : string) : bool :=
  bool_decide (key ∈ dom self) || bool_decide (key ∈ BaseDataset_attrs)
  || bool_decide (key ∈ base_attrs).

Definition setattr (self : gmap string val) (key : string) (value : val)
    : gmap string val :=
  <[key:=value]> self.

(** [self.name] for a name that is read from the instance's [__dict__] *)
Definition getattr (self : gmap string val) (name : string) : result val :=
  match self !! name with
  | Some v => Ok v
  | None => Raise AttributeError
  end.

(** lines 29-33: one round of the loop over [kwargs.items()] *)
Definition set_kwarg (self : gmap string val) (kv : string * val)
    : gmap string val :=
  if hasattr self kv.1 then self else setattr self kv.1 kv.2.

(** lines 24-26: the instance before the loop over the keyword arguments *)
Definition init_fields (ids targets transforms : val) : gmap string val :=
  let self := setattr ∅ "ids" ids in
  let self := setattr self "targets" targets in
  setattr self "transforms"
    (match transforms with
     | VNone => VCallable IdentitiyTransforms
     | _ => transforms
     end).

(** line 18: the parameters of [__init__] after [self] *)
Definition init_params : list string := ["ids"; "targets"; "transforms"].

(** the value of the keyword [name] among the keywords of a call, whose
    names are distinct *)
Fixpoint keyword (kwds : list (string * val)) (name : string) : option val :=
  match kwds with
  | [] => None
  | (key, value) :: kwds' =>
      if decide (key = name) then Some value else keyword kwds' name
  end.

(** a keyword names [self], which the new instance is bound to, or a
    parameter that a positional argument is bound to: Python raises
    [TypeError], the argument has more than one value *)
Definition bound_twice (args : list val) (kwds : list (string * val)) : bool :=
  existsb
    (λ kv, bool_decide (kv.1 ∈ "self" :: take (length args) init_params))
    kwds.

(** the value bound to the parameter [name] at position [i]: the
    positional argument when there is one, else the keyword [name] *)
Definition parameter (args : list val) (kwds : list (string * val))
    (i : nat) (name : string) : option val :=
  match args !! i with
  | Some v => Some v
  | None => keyword kwds name
  end.

(** Python's binding of the arguments of a call to the parameters
    [(self, ids, targets, transforms=None, **kwargs)] of line 18:
    [TypeError] for more positional arguments than parameters, for a
    parameter with two values and for no value for [ids] or [targets];
    [kwargs] holds the keywords that name no parameter, in the order of
    the call *)
Definition bind_arguments (args : list val) (kwds : list (string * val))
    : result (val * val * val * list (string * val)) :=
  if (length init_params <? length args) || bound_twice args kwds
  then Raise TypeError
  else
    match parameter args kwds 0 "ids", parameter args kwds 1 "targets" with
    | Some ids, Some targets =>
        Ok (ids, targets, default VNone (parameter args kwds 2 "transforms"),
            filter (λ kv, kv.1 ∉ init_params) kwds)
    | _, _ => Raise TypeError
    end.

(** lines 19-33: the body of [__init__] on the bound parameters; [kwargs]
    in the order of [kwargs.items()].  The value is the [__dict__] of the
    new instance. *)
Definition init_body (h : heap) (ids targets transforms : val)
    (kwargs : list (string * val)) : result (gmap string val) :=
  match as_list h ids with
  | None => Raise AssertionError
  | Some ids_l =>
      match as_list h targets with
      | None => Raise AssertionError
      | Some targets_l =>
          if negb (length ids_l =? length targets_l) then Raise AssertionError
          else Ok (foldl set_kwarg (init_fields ids targets transforms) kwargs)
      end
  end.

(** a call of [BaseDataset] with the positional arguments [args] and the
    keywords [kwds]: the arguments are bound to the parameters of
    [__init__] (line 18), then its body runs (lines 19-33) *)
Definition BaseDataset_call (h : heap) (args : list val)
    (kwds : list (string * val)) : result (gmap string val) :=
  match bind_arguments args kwds with
  | Raise e => Raise e
  | Ok (ids, targets, transforms, kwargs) =>
      init_body h ids targets transforms kwargs
  end.

(** [__init__] (lines 18-33) in a call [BaseDataset(ids, targets,
    transforms, **kwargs)] with a positional argument for each parameter:
    a keyword named as a parameter is a second value for it *)
Definition __init__ (h : heap) (ids targets transforms : val)
    (kwargs : list (string * val)) : result (gmap string val) :=
  BaseDataset_call h [ids; targets; transforms] kwargs.

Variable float_to_uint8 : float → Z.
Variable imread : string → result ndarray.

(** a transform given by the caller: what it returns and what it does to
    the heap *)
Variable user_call : string → val → val → stateful (val * val).

(** [self.transforms(img, targets)] *)
Definition call_transforms (tr img targets : val) : stateful (val * val) :=
  λ h,
    match tr with
    | VCallable IdentitiyTransforms => (Ok (img, targets), h)
    | VCallable (UserCallable name) => user_call name img targets h
    | _ => (Raise TypeError, h)
    end.

(** [xs[idx]] for an attribute that holds a list *)
Definition attr_item (self : gmap string val) (name : string) (idx : Z)
    (h : heap) : result val :=
  xs ←' getattr self name;
  match as_list h xs with
  | None => Raise TypeError
  | Some elems => py_index elems idx
  end.

(** line 36: [self._load_image(self.ids[idx])] *)
Definition load_item (self : gmap string val) (idx : Z) (h : heap)
    : result ndarray :=
  id ←' attr_item self "ids" idx h;
  match id with
  | VStr path => _load_image float_to_uint8 imread path
  | _ => Raise TypeError
  end.

(** [__getitem__] (lines 35-42).  The image is a new array object; too
    little fuel for [deepcopy] is Python's [RecursionError]. *)
Definition __getitem__ (self : gmap string val) (idx : Z)
    : stateful (val * val) :=
  λ h,
    match load_item self idx h with
    | Raise e => (Raise e, h)
    | Ok arr =>
        let img := fresh (dom h) in
        let h1 := <[img:=OArray arr]> h in
        match attr_item self "targets" idx h1 with
        | Raise e => (Raise e, h1)
        | Ok stored =>
            match deepcopy stored h1 with
            | None => (Raise RecursionError, h1)
            | Some (targets, h2) =>
                match getattr self "transforms" with
                | Raise e => (Raise e, h2)
                | Ok tr => call_transforms tr (VRef img) targets h2
                end
            end
        end
    end.

End BaseDataset.

(** a transform changes only objects that its arguments reach (and objects
    it creates) *)
Definition transform_local
    (user_call : string → val → val → stateful (val * val)) : Prop :=
  ∀ name img targets h r h',
    user_call name img targets h = (r, h') →
    ∀ l o, h !! l = Some o →
      ¬ reach h img l → ¬ reach h targets l → h' !! l = Some o.

(** every reference held by an object of the heap is to an object of the heap *)
Definition heap_closed (h : heap) : Prop :=
  ∀ l o r, h !! l = Some o → r ∈ obj_refs o → is_Some (h !! r).

(** *** Notions for the heap facts *)

(** the value refers to no object of [hb] *)
Definition val_new (hb : gmap loc obj) (y : val) : Prop :=
  ∀ r, r ∈ val_refs y → hb !! r = None.

(** the value refers to objects of [hb] only *)
Definition val_in (hb : gmap loc obj) (x : val) : Prop :=
  ∀ r, r ∈ val_refs x → is_Some (hb !! r).

(** the state of a running [deepcopy] against the heap [hb] it started
    from: the objects of [hb] are as they were, the copies are new
    objects, and new objects refer to new objects only *)
Definition copy_inv (hb : gmap loc obj) (st : gmap loc loc * gmap loc obj) : Prop :=
  (∀ l o, hb !! l = Some o → st.2 !! l = Some o)
  ∧ (∀ l l', st.1 !! l = Some l' → hb !! l' = None)
  ∧ (∀ l' o r, hb !! l' = None → st.2 !! l' = Some o → r ∈ obj_refs o →
       hb !! r = None).

(** the value and the object with every reference replaced by the
    reference the memo gives for it *)
Definition tr_val (memo : gmap loc loc) (v : val) : val :=
  match v with
  | VRef l => match memo !! l with Some l' => VRef l' | None => v end
  | _ => v
  end.

Definition tr_obj (memo : gmap loc loc) (o : obj) : obj :=
  match o with
  | ODict items => ODict (zip items.*1 (tr_val memo <$> items.*2))
  | OList elems => OList (tr_val memo <$> elems)
  | OArray a => OArray a
  end.

(** the memo of a running [deepcopy]: every entry that is not being
    filled is an object of [hb] and its copy, which holds the translated
    references; the copies exist and are pairwise different *)
Definition faithful (hb : gmap loc obj) (pending : gset loc)
    (st : gmap loc loc * gmap loc obj) : Prop :=
  (∀ l l', st.1 !! l = Some l' → l ∉ pending →
     ∃ o, hb !! l = Some o ∧ st.2 !! l' = Some (tr_obj st.1 o)
          ∧ ∀ r, r ∈ obj_refs o → is_Some (st.1 !! r))
  ∧ (∀ l l', st.1 !! l = Some l' → is_Some (st.2 !! l'))
  ∧ (∀ l1 l2 l', st.1 !! l1 = Some l' → st.1 !! l2 = Some l' → l1 = l2).

(** what one call of [deepcopy] establishes *)
Definition copy_ok (hb : gmap loc obj) (pending : gset loc) (x : val)
    (st : gmap loc loc * gmap loc obj) (y : val)
    (st' : gmap loc loc * gmap loc obj) : Prop :=
  faithful hb pending st' ∧ st.1 ⊆ st'.1 ∧ y = tr_val st'.1 x
  ∧ (∀ r, r ∈ val_refs x → is_Some (st'.1 !! r)).

(** [y] in [h'] is a deep copy of [x] in [h]: a one-to-one map from the
    objects [x] reaches to new objects, each the original with its
    references translated *)
Definition is_deep_copy (h : gmap loc obj) (x : val) (h' : gmap loc obj)
    (y : val) : Prop :=
  ∃ memo : gmap loc loc,
    y = tr_val memo x
    ∧ (∀ r, r ∈ val_refs x → is_Some (memo !! r))
    ∧ (∀ l l', memo !! l = Some l' →
         h !! l' = None
         ∧ ∃ o, h !! l = Some o ∧ h' !! l' = Some (tr_obj memo o)
                ∧ ∀ r, r ∈ obj_refs o → is_Some (memo !! r))
    ∧ (∀ l1 l2 l', memo !! l1 = Some l' → memo !! l2 = Some l' → l1 = l2).

(** *** __len__ and array entries *)

(** [__len__] (lines 44-45): [len(self.ids)] for an [ids] that holds a
    list *)
Definition __len__ (self : gmap string val) (h : heap) : result Z :=
  xs ←' getattr self "ids";
  match as_list h xs with
  | None => Raise TypeError
  | Some elems => Ok (Z.of_nat (length elems))
  end.

(** the offset of the entry at [idx] in the row-major data of an array of
    shape [shape] *)
Fixpoint ravel (shape idx : list nat) : nat :=
  match shape, idx with
  | _ :: shape', i :: idx' => i * foldr Nat.mul 1 shape' + ravel shape' idx'
  | _, _ => 0
  end.

(** [a[idx]] for a full index inside the shape *)
Definition nd_item (a : ndarray) (idx : list nat) : option scalar :=
  if decide (Forall2 lt idx (nd_shape a))
  then nd_data a !! ravel (nd_shape a) idx
  else None.

(** the entries are integers that fit uint8 *)
Definition uint8_valued (a : ndarray) : Prop :=
  Forall (λ x, ∃ z, x = SInt z ∧ (0 ≤ z < 256)%Z) (nd_data a).

(** *** get_mean_std *)

(** [a[:, :, c]]: the entries whose index along the third axis is [c], in
    row-major order; an array with fewer than three axes and an axis
    that has no index [c] raise *)
Definition channel (a : ndarray) (c : nat) : result (list scalar) :=
  match nd_shape a with
  | n0 :: n1 :: n2 :: rest =>
      if c <? n2
      then
        let inner := foldr Nat.mul 1 rest in
        Ok (concat (map (λ block, take inner (drop (c * inner) block))
                      (Tiny.chunks (n2 * inner) (n0 * n1) (nd_data a))))
      else Raise IndexError
  | _ => Raise IndexError
  end.

Section MeanStd.

Variable float_to_uint8 : float → Z.
Variable imread : string → result ndarray.
Variable user_call : string → val → val → stateful (val * val).

(** [np.mean(d[:, :, c])] and [np.mean(d[:, :, c] ** 2)] for
    [d = img.astype(np.float32) / 255], as functions of the entries of
    [img[:, :, c]]: numpy computes them in float32 *)
Variables channel_mean channel_sq_mean : list scalar → float.

(** lines 83-91 for one image: the three means and the three means of
    squares *)
Definition image_stats (a : ndarray) : result (list float * list float) :=
  c0 ←' channel a 0;
  c1 ←' channel a 1;
  c2 ←' channel a 2;
  Ok ([channel_mean c0; channel_mean c1; channel_mean c2],
      [channel_sq_mean c0; channel_sq_mean c1; channel_sq_mean c2]).

(** the six [+=] of lines 85-91 on [(mean_sum, mean_sq_sum)] *)
Definition add_stats (acc st : list float * list float)
    : list float * list float :=
  (zip_with PrimFloat.add acc.1 st.1, zip_with PrimFloat.add acc.2 st.2).

(** one round of the loop; an [img] that is no array has no [astype] *)
Definition accumulate (img : val) (acc : list float * list float)
    (h : heap) : result (list float * list float) :=
  match img with
  | VRef l =>
      match h !! l with
      | Some (OArray a) => st ←' image_stats a; Ok (add_stats acc st)
      | _ => Raise AttributeError
      end
  | _ => Raise AttributeError
  end.

(** the loop of lines 82-91.  The class has no [__iter__], so the [for]
    statement calls [__getitem__] with 0, 1, 2, ... until it raises
    [IndexError]; an [IndexError] of the loop body is not caught.  [fuel]
    bounds the number of rounds; [None] is too little fuel. *)
Fixpoint mean_std_loop (fuel : nat) (self : gmap string val) (idx : Z)
    (acc : list float * list float) (h : heap)
    : option (result (list float * list float) * heap) :=
  match fuel with
  | 0 => None
  | S fuel' =>
      match __getitem__ float_to_uint8 imread user_call self idx h with
      | (Raise e, h1) =>
          if decide (e = IndexError) then Some (Ok acc, h1)
          else Some (Raise e, h1)
      | (Ok (img, _), h1) =>
          match accumulate img acc h1 with
          | Raise e => Some (Raise e, h1)
          | Ok acc' => mean_std_loop fuel' self (idx + 1) acc' h1
          end
      end
  end.

(** [x / n] for the integer [n] that [len] returned *)
Definition div_len (x : float) (n : Z) : float :=
  (x / Tiny.float_of_nat (Z.to_nat n))%float.

(** lines 93-94: [mean] and [std] from the two sums and [len(self)];
    [mean**2] and [(...)**0.5] on a float64 array are numpy's square and
    square root *)
Definition mean_std_of (sums : list float * list float) (n : Z)
    : list float * list float :=
  let mean := map (λ s, div_len s n) sums.1 in
  (mean,
   zip_with (λ sq m, PrimFloat.sqrt (div_len sq n - m * m)) sums.2 mean).

(** [get_mean_std] (lines 79-96); the value is the pair of the lists
    under ["mean"] and ["std"] *)
Definition get_mean_std (fuel : nat) (self : gmap string val) (h : heap)
    : option (result (list float * list float) * heap) :=
  match __len__ self h with
  | Raise e => Some (Raise e, h)
  | Ok _ =>
      match mean_std_loop fuel self 0 ([0; 0; 0]%float, [0; 0; 0]%float) h with
      | None => None
      | Some (Raise e, h1) => Some (Raise e, h1)
      | Some (Ok sums, h1) =>
          match __len__ self h1 with
          | Raise e => Some (Raise e, h1)
          | Ok n => Some (Ok (mean_std_of sums n), h1)
          end
      end
  end.

End MeanStd.

(** *** Example data *)

(** one image, whose stored target is a dict of an array and a list *)
Definition example_heap : gmap loc obj :=
  list_to_map
    [(0, OList [VStr "a.jpg"]);
     (1, OList [VRef 2]);
     (2, ODict [("target_boxes", VRef 3); ("labels", VRef 4)]);
     (3, OArray (NdArray Float32 [1; 4] true
                   [SFloat 10; SFloat 20; SFloat 30; SFloat 40]));
     (4, OList [VInt 1])].

Definition example_kwargs : list (string * val) :=
  [("phase", VStr "train"); ("get_mean_std", VNone)].

(** the keywords of a call that gives [targets] by keyword *)
Definition example_keywords : list (string * val) :=
  [("phase", VStr "train"); ("targets", VRef 1); ("__len__", VInt 0)].

Definition example_self : gmap string val :=
  list_to_map
    [("ids", VRef 0); ("targets", VRef 1);
     ("transforms", VCallable (UserCallable "clear"))].

Definition example_imread (path : string) : result ndarray :=
  Ok (NdArray UInt8 [1; 1; 3] true [SInt 1; SInt 2; SInt 3]).

(** a transform that empties the dict it is given: [targets.clear()] *)
Definition clearing_transform (name : string) (img targets : val)
    : stateful (val * val) :=
  λ h,
    match targets with
    | VRef l => (Ok (img, targets), <[l:=ODict []]> h)
    | _ => (Ok (img, targets), h)
    end.

End Dataset.


(** ** mypackage/utils/cache.py *)

Module Cache.

(** *** The file system *)

Inductive node : Set := File | Dir.

(** A path is the list of its names below the root, outermost first; the
    root is the empty list.  A file system says what is at each path: one
    process, no links, no permissions.  A path is looked up name by name
    as it is written, which is what the operating system does for the
    names of entries; it resolves [.] and [..] instead (see [plain]). *)
Abbreviation path := (list string).
Abbreviation fs := (gmap (list string) node).

(** the subclasses of [OSError] that [os.mkdir] raises *)
Inductive os_error : Set :=
| FileExistsError
| FileNotFoundError
| NotADirectoryError.

Global Instance node_eq_dec : EqDecision node.
Proof. solve_decision. Defined.

(** [os.path.isfile], [os.path.isdir], [os.path.exists] *)
Definition isfile (p : path) (s : fs) : bool := bool_decide (s !! p = Some File).
Definition isdir (p : path) (s : fs) : bool := bool_decide (s !! p = Some Dir).
Definition exists_ (p : path) (s : fs) : bool := bool_decide (is_Some (s !! p)).

(** the way from [cur] down the names [names], the last of which is not
    looked at: the first name on the way that is missing or is no
    directory is the error *)
Fixpoint walk (s : fs) (cur : path) (names : list string) : option os_error :=
  match names with
  | [] => None
  | n :: names' =>
      match s !! cur with
      | Some Dir => walk s (cur ++ [n]) names'
      | Some File => Some NotADirectoryError
      | None => Some FileNotFoundError
      end
  end.

(** [os.mkdir(p)] *)
Definition mkdir (p : path) (s : fs) : option os_error * fs :=
  match walk s [] p with
  | Some e => (Some e, s)
  | None =>
      if exists_ p s then (Some FileExistsError, s)
      else (None, <[p:=Dir]> s)
  end.

(** [os.makedirs(name, exist_ok=True)] as in CPython's os.py: the head
    is made first when it does not exist, a [FileExistsError] of that
    call is passed over, a name that ends in [.] is done then; an error
    of [mkdir] is passed over when the directory is there.  [n] is the
    number of names of [name]. *)
Fixpoint makedirs_from (n : nat) (name : path) (s : fs) : option os_error * fs :=
  let head := removelast name in
  let '(err, s1, done) :=
    match n with
    | S n' =>
        if bool_decide (name ≠ []) && negb (exists_ head s)
        then
          let '(err, s1) := makedirs_from n' head s in
          let err :=
            match err with Some FileExistsError => None | _ => err end in
          (err, s1, bool_decide (last name = Some "."))
        else (None, s, false)
    | 0 => (None, s, false)
    end in
  match err with
  | Some e => (Some e, s1)
  | None =>
      if done then (None, s1)
      else
        match mkdir name s1 with
        | (Some e, s2) => if isdir name s2 then (None, s2) else (Some e, s2)
        | (None, s2) => (None, s2)
        end
  end.

Definition makedirs (name : path) (s : fs) : option os_error * fs :=
  makedirs_from (length name) name s.

(** *** cache.py *)

(** a function that returns a path or raises, and may change the file
    system *)
Definition path_function : Type := fs → result path * fs.

(** [ensure_path] (lines 4-12): the decorated function *)
Definition ensure_path (fun_ : path_function) : path_function :=
  λ s,
    match fun_ s with
    | (Raise e, s1) => (Raise e, s1)
    | (Ok p, s1) =>
        if isfile p s1 then (Ok p, s1)
        else if negb (exists_ p s1)
             then match makedirs p s1 with
                  | (Some _, s2) => (Raise OSError, s2)
                  | (None, s2) => (Ok p, s2)
                  end
             else (Ok p, s1)
    end.

(** [os.path.join(p, name)] for a name that is no path of its own *)
Definition join (p : path) (name : string) : path := p ++ [name].

Section Paths.

(** [os.path.expanduser("~")] *)
Variable home : path.

(** lines 14-16 *)
Definition get_cache_path : path_function :=
  ensure_path (λ s, (Ok (join (join home ".cache") "mypackage"), s)).

(** the body of a function that joins a name to the cache path *)
Definition below_cache_path (name : string) : path_function :=
  λ s,
    match get_cache_path s with
    | (Ok p, s1) => (Ok (join p name), s1)
    | (Raise e, s1) => (Raise e, s1)
    end.

(** lines 18-20 *)
Definition get_model_cache_path : path_function :=
  ensure_path (below_cache_path "models").

(** lines 22-24 *)
Definition get_data_cache_path : path_function :=
  ensure_path (below_cache_path "data").

End Paths.

(** every entry is in a directory, and the root is one *)
Definition fs_ok (s : fs) : Prop :=
  s !! [] = Some Dir ∧ ∀ p n, s !! p = Some n → s !! removelast p = Some Dir.

(** the name of an entry: not empty, without a separator, and neither
    [.] nor [..], which the operating system resolves to the directory
    itself and to the one above it instead of looking them up *)
Definition is_name (n : string) : Prop :=
  n ≠ "" ∧ n ≠ "." ∧ n ≠ ".." ∧ String.index 0 "/" n = None.

(** a path of names of entries *)
Definition plain (p : path) : Prop := Forall is_name p.

(** no name on the way to [p], nor [p], is a file *)
Definition no_file_on (p : path) (s : fs) : Prop :=
  ∀ q, q `prefix_of` p → s !! q ≠ Some File.

(** the file system with the directories on the way to [p] *)
Definition with_dirs (p : path) (s : fs) (s' : fs) : Prop :=
  ∀ q, s' !! q = if decide (q `prefix_of` p) then Some Dir else s !! q.

(** a home directory and a file in it *)
Definition example_fs : fs :=
  list_to_map
    [([], Dir); (["home"], Dir); (["home"; "u"], Dir);
     (["home"; "u"; "notes"], File)].

End Cache.




(** * Facts about models/lffd/tiny.py *)

Module TinyFacts.

Import Tiny.

(** ** Masks (lines 111-112) *)

(** a float that compares equal to 1 does not compare equal to 0 *)
Lemma eqb_one_not_zero (x : float) :
  PrimFloat.eqb x 1 = true → PrimFloat.eqb x 0 = false.
Proof.
  rewrite !FloatAxioms.eqb_spec.
  let v := eval vm_compute in (Prim2SF 1) in change (Prim2SF 1) with v.
  let v := eval vm_compute in (Prim2SF 0) in change (Prim2SF 0) with v.
  destruct (Prim2SF x) as [s | s | | s m e]; intros H.
  - destruct s; vm_compute in H; discriminate.
  - destruct s; reflexivity.
  - reflexivity.
  - destruct s; reflexivity.
Qed.

Lemma at2_zip_with {A B C} (f : A → B → C) (a : list (list A))
    (b : list (list B)) (i j : nat) :
  at2 (zip_with (zip_with f) a b) i j
  = x ← at2 a i j; y ← at2 b i j; Some (f x y).
Proof.
  unfold at2. rewrite lookup_zip_with.
  destruct (a !! i) as [ra|]; simpl; [|done].
  destruct (b !! i) as [rb|]; simpl.
  - by rewrite lookup_zip_with.
  - by destruct (ra !! j).
Qed.

Lemma at2_map {A B} (f : A → B) (t : list (list A)) (i j : nat) :
  at2 (map (map f) t) i j = f <$> at2 t i j.
Proof.
  unfold at2. rewrite list_lookup_fmap.
  destruct (t !! i) as [r|]; simpl; [|done].
  by rewrite list_lookup_fmap.
Qed.

Lemma at2_pos_mask (target_cls : list (list float)) (ignore : list (list bool))
    (b l : nat) :
  at2 (pos_mask target_cls ignore) b l
  = t ← at2 target_cls b l; ig ← at2 ignore b l;
    Some (PrimFloat.eqb t 1 && negb ig).
Proof.
  unfold pos_mask, mask_and, eq_scalar, mask_not.
  rewrite at2_zip_with, !at2_map.
  destruct (at2 target_cls b l); simpl; [|done].
  by destruct (at2 ignore b l).
Qed.

Lemma at2_neg_mask (target_cls : list (list float)) (ignore : list (list bool))
    (b l : nat) :
  at2 (neg_mask target_cls ignore) b l
  = t ← at2 target_cls b l; ig ← at2 ignore b l;
    Some (PrimFloat.eqb t 0 && negb ig).
Proof.
  unfold neg_mask, mask_and, eq_scalar, mask_not.
  rewrite at2_zip_with, !at2_map.
  destruct (at2 target_cls b l); simpl; [|done].
  by destruct (at2 ignore b l).
Qed.

(** no location is positive and negative *)
Lemma pos_neg_disjoint (target_cls : list (list float))
    (ignore : list (list bool)) (b l : nat) :
  at2 (pos_mask target_cls ignore) b l = Some true →
  at2 (neg_mask target_cls ignore) b l = Some false.
Proof.
  rewrite at2_pos_mask, at2_neg_mask.
  destruct (at2 target_cls b l) as [t|]; simpl; [|done].
  destruct (at2 ignore b l) as [ig|]; simpl; [|done].
  intros [= H]. apply andb_true_iff in H as [H1 H2].
  by rewrite (eqb_one_not_zero _ H1).
Qed.

(** ** Counting and mining (lines 114-124) *)

Lemma count_true_app (l1 l2 : list bool) :
  count_true (l1 ++ l2) = count_true l1 + count_true l2.
Proof. induction l1 as [|b l1 IH]; simpl; [done|]. rewrite IH. lia. Qed.

(** the count over the whole tensor is the sum of the counts of its rows *)
Lemma mask_count_rows (m : list (list bool)) :
  mask_count m = sum_list (count_true <$> m).
Proof.
  unfold mask_count. induction m as [|r m IH]; simpl; [done|].
  by rewrite count_true_app, IH.
Qed.

Lemma count_true_replicate_false (n : nat) : count_true (replicate n false) = 0.
Proof. induction n; simpl; done. Qed.

Lemma where_from_length (i : nat) (l : list bool) :
  length (where_from i l) = count_true l.
Proof.
  revert i. induction l as [|b l IH]; intros i; simpl; [done|].
  rewrite length_app, IH. by destruct b.
Qed.

Lemma elem_of_where_from (i : nat) (l : list bool) (k : nat) :
  k ∈ where_from i l ↔ ∃ j, k = i + j ∧ l !! j = Some true.
Proof.
  revert i. induction l as [|b l IH]; intros i; simpl.
  - split; [by intros ?%elem_of_nil | by intros (j & _ & ?)].
  - rewrite elem_of_app, IH. split.
    + intros [Hk | (j & -> & Hj)].
      * destruct b; [|by apply elem_of_nil in Hk].
        apply list_elem_of_singleton in Hk as ->. exists 0. split; [lia|done].
      * exists (S j). split; [lia|done].
    + intros ([|j] & -> & Hj); simpl in Hj.
      * left. injection Hj as ->. rewrite Nat.add_0_r. apply list_elem_of_here.
      * right. exists j. split; [lia|done].
Qed.

Lemma where_from_NoDup (i : nat) (l : list bool) : NoDup (where_from i l).
Proof.
  revert i. induction l as [|b l IH]; intros i; simpl; [constructor|].
  destruct b; simpl; [|apply IH].
  constructor; [|apply IH].
  rewrite elem_of_where_from. intros (j & ? & _). lia.
Qed.

Lemma where_true_lookup (l : list bool) (k : nat) :
  k ∈ where_true l ↔ l !! k = Some true.
Proof.
  unfold where_true. rewrite elem_of_where_from. split.
  - by intros (j & -> & ?).
  - intros ?. by exists k.
Qed.

Lemma put_all_length (ss : list nat) (l : list bool) :
  length (put_all ss l) = length l.
Proof.
  induction ss as [|i ss IH]; simpl; [done|]. by rewrite length_insert.
Qed.

Lemma put_all_lookup_notin (ss : list nat) (l : list bool) (i : nat) :
  i ∉ ss → put_all ss l !! i = l !! i.
Proof.
  induction ss as [|k ss IH]; simpl; [done|].
  intros [Hne Hni]%not_elem_of_cons.
  rewrite list_lookup_insert_ne by done. by apply IH.
Qed.

Lemma count_true_insert_true (l : list bool) (i : nat) :
  l !! i = Some false → count_true (<[i:=true]> l) = S (count_true l).
Proof.
  revert i. induction l as [|b l IH]; intros [|i]; simpl; try done.
  - by intros [= ->].
  - intros H. rewrite (IH _ H). lia.
Qed.

Lemma count_put_all (ss : list nat) (l : list bool) :
  NoDup ss → (∀ i, i ∈ ss → l !! i = Some false) →
  count_true (put_all ss l) = length ss + count_true l.
Proof.
  induction 1 as [|i ss Hni Hnd IH]; intros Hl; simpl; [done|].
  rewrite count_true_insert_true.
  - rewrite IH; [done|]. intros k Hk. apply Hl. by right.
  - rewrite put_all_lookup_notin by done. apply Hl. by left.
Qed.

Lemma index_put_true_ok (ss : list nat) (l : list bool) :
  (∀ i, i ∈ ss → i < length l) → index_put_true ss l = Ok (put_all ss l).
Proof.
  intros H. unfold index_put_true.
  replace (forallb _ ss) with true; [done|].
  symmetry. apply forallb_forall. intros i Hi%list_elem_of_In.
  apply Nat.ltb_lt. by apply H.
Qed.

Lemma concat_cleared (m : list (list bool)) :
  concat (map (map (λ _ : bool, false)) m) = replicate (length (concat m)) false.
Proof.
  induction m as [|r m IH]; simpl; [done|].
  rewrite IH, length_app, replicate_add. f_equal.
  induction r; simpl; [done|]. by f_equal.
Qed.

(** ** Views *)

Lemma concat_chunks {A} (n rows : nat) (l : list A) :
  length l = rows * n → concat (chunks n rows l) = l.
Proof.
  revert l. induction rows as [|r IH]; intros l Hl; simpl.
  - by destruct l.
  - rewrite IH; [apply take_drop|]. rewrite length_drop. simpl in Hl. lia.
Qed.

Lemma chunks_concat {A} (n : nat) (rows : list (list A)) :
  Forall (λ r, length r = n) rows →
  chunks n (length rows) (concat rows) = rows.
Proof.
  induction 1 as [|r rows Hr Hrows IH]; simpl; [done|].
  rewrite take_app_length' by done. rewrite drop_app_length' by done.
  by rewrite IH.
Qed.

Lemma length_concat_uniform {A} (n : nat) (rows : list (list A)) :
  Forall (λ r, length r = n) rows → length (concat rows) = length rows * n.
Proof.
  induction 1 as [|r rows Hr Hrows IH]; simpl; [done|].
  rewrite length_app, IH, Hr. lia.
Qed.

Lemma view2_ok {A} (batch_size n : nat) (flat : list A) :
  0 < batch_size → 0 < n → length flat = batch_size * n →
  view2 batch_size flat = Ok (chunks n batch_size flat).
Proof.
  intros HB Hn Hl. unfold view2. rewrite Hl.
  replace (batch_size * n =? 0) with false
    by (symmetry; apply Nat.eqb_neq; nia).
  replace (batch_size =? 0) with false by (symmetry; apply Nat.eqb_neq; lia).
  simpl. rewrite (Nat.mul_comm batch_size n), Nat.Div0.mod_mul, Nat.div_mul by lia.
  done.
Qed.

Lemma wrap64_small (z : Z) : (0 ≤ z < 2 ^ 63)%Z → wrap64 z = z.
Proof.
  intros H. unfold wrap64.
  rewrite Z.mod_small; lia.
Qed.

Lemma first_n_sampler_ok : sampler_ok first_n_sampler.
Proof.
  intros population select_n Hn. unfold first_n_sampler. split.
  - apply submseteq_take.
  - rewrite length_take. lia.
Qed.

Lemma submseteq_NoDup_l {A} (l k : list A) : l ⊆+ k → NoDup k → NoDup l.
Proof.
  intros [k' Hk]%submseteq_Permutation Hnd.
  rewrite Hk in Hnd. by apply NoDup_app in Hnd as [? _].
Qed.

Section MiningFacts.

Variable sampler : list nat → Z → list nat.
Hypothesis sampler_spec : sampler_ok sampler.

(** what the mining step returns on a (B, L) mask: the cleared mask with
    the sampled indices set, cut into rows again *)
Lemma mining_result (B L : nat) (pos neg : list (list bool)) :
  0 < B → 0 < L → length neg = B → Forall (λ row, length row = L) neg →
  (ratio * Z.of_nat (mask_count pos) < 2 ^ 63)%Z →
  (Z.of_nat (mask_count neg) < 2 ^ 63)%Z →
  ∃ ss,
    ss ⊆+ where_true (concat neg)
    ∧ Z.of_nat (length ss)
      = Z.min (Z.of_nat (mask_count neg)) (ratio * Z.of_nat (mask_count pos))
    ∧ hard_negative_mining sampler B pos neg
      = Ok (chunks L B (put_all ss (replicate (B * L) false))).
Proof.
  intros HB HL Hlen Hrows HP HN.
  unfold hard_negative_mining, negatives_target, mask_sum, ratio in *.
  rewrite (wrap64_small (Z.of_nat (mask_count pos))) by lia.
  rewrite (wrap64_small (Z.of_nat (mask_count neg))) by lia.
  rewrite (wrap64_small (10 * _)) by lia.
  set (k := Z.min _ _).
  set (pop := where_true (concat neg)).
  destruct (sampler_spec pop k) as [Hsub Hk].
  { subst pop k. unfold where_true. rewrite where_from_length.
    unfold mask_count. lia. }
  exists (sampler pop k). split; [done|]. split; [done|].
  assert (length (concat neg) = B * L) as Hflat.
  { rewrite (length_concat_uniform L) by done. by rewrite Hlen. }
  rewrite concat_cleared, Hflat.
  rewrite index_put_true_ok.
  - simpl. apply view2_ok; [done..|].
    by rewrite put_all_length, length_replicate.
  - intros i Hi. rewrite length_replicate, <- Hflat.
    apply (elem_of_submseteq _ _ _ Hi) in Hsub.
    apply where_true_lookup in Hsub. by apply lookup_lt_Some in Hsub.
Qed.

(** the rebuilt mask has as many [True] entries as indices were sampled *)
Lemma count_rebuilt (B L : nat) (neg : list (list bool)) (ss : list nat) :
  ss ⊆+ where_true (concat neg) → length (concat neg) = B * L →
  mask_count (chunks L B (put_all ss (replicate (B * L) false))) = length ss.
Proof.
  intros Hsub Hflat. unfold mask_count.
  rewrite concat_chunks by (by rewrite put_all_length, length_replicate).
  rewrite count_put_all, count_true_replicate_false; [lia| |].
  - eapply submseteq_NoDup_l; [done|]. apply where_from_NoDup.
  - intros i Hi. apply lookup_replicate_2. rewrite <- Hflat.
    apply (elem_of_submseteq _ _ _ Hi) in Hsub.
    apply where_true_lookup in Hsub. by apply lookup_lt_Some in Hsub.
Qed.

End MiningFacts.

Lemma raises_bind {A B} (e : exn) (m : result A) (k : A → result B) :
  raises e m = false → (∀ a, raises e (k a) = false) →
  raises e (Py.bind m k) = false.
Proof. destruct m; simpl; auto. Qed.

Lemma index_put_true_raises (ss : list nat) (l : list bool) :
  raises InvalidMaskError (index_put_true ss l) = false.
Proof. unfold index_put_true. by destruct (forallb _ _). Qed.

Lemma view2_raises {A} (batch_size : nat) (flat : list A) :
  raises InvalidMaskError (view2 batch_size flat) = false.
Proof.
  unfold view2. destruct (_ || _); [done|]. by destruct (negb _).
Qed.

Lemma mining_raises (sampler : list nat → Z → list nat) (B : nat)
    (pos neg : list (list bool)) :
  raises InvalidMaskError (hard_negative_mining sampler B pos neg) = false.
Proof.
  unfold hard_negative_mining. apply raises_bind.
  - apply index_put_true_raises.
  - intros flat. apply view2_raises.
Qed.

(** ** Shapes of the masks *)

Lemma has_shape_zip_with {A B C} (f : A → B → C) (n m : nat)
    (a : list (list A)) (b : list (list B)) :
  has_shape n m a → has_shape n m b →
  has_shape n m (zip_with (zip_with f) a b).
Proof.
  intros [Ha Hra] [Hb Hrb]. split.
  - rewrite length_zip_with. lia.
  - clear Ha Hb. revert b Hrb.
    induction Hra as [|r a Hr Hra IH]; intros b Hrb; [constructor|].
    destruct Hrb as [|r' b Hr' Hrb]; simpl; constructor.
    + rewrite length_zip_with. lia.
    + by apply IH.
Qed.

Lemma has_shape_map {A B} (f : A → B) (n m : nat) (a : list (list A)) :
  has_shape n m a → has_shape n m (map (map f) a).
Proof.
  intros [Ha Hra]. split; [by rewrite length_map|].
  apply Forall_fmap. eapply Forall_impl; [done|].
  intros r Hr. simpl. by rewrite length_map.
Qed.

Lemma neg_mask_shape (n m : nat) (target_cls : list (list float))
    (ignore : list (list bool)) :
  has_shape n m target_cls → has_shape n m ignore →
  has_shape n m (neg_mask target_cls ignore).
Proof.
  intros. apply has_shape_zip_with; by apply has_shape_map.
Qed.

(** ** Selections and losses (lines 126-133) *)

Lemma select_row_nil_r {A} (m : list bool) : select_row m (@nil A) = [].
Proof. by destruct m. Qed.

Lemma select_row_ext {A} (m : list bool) (xs ys : list A) :
  (∀ i, m !! i = Some true → xs !! i = ys !! i) →
  select_row m xs = select_row m ys.
Proof.
  revert xs ys. induction m as [|b m IH]; intros xs ys H; [done|].
  destruct xs as [|x xs], ys as [|y ys]; simpl; [done| | |].
  - destruct b; [by specialize (H 0 eq_refl)|].
    rewrite <- (select_row_nil_r m). apply IH. intros i Hi. apply (H (S i) Hi).
  - destruct b; [by specialize (H 0 eq_refl)|].
    rewrite <- (select_row_nil_r m). apply IH. intros i Hi. apply (H (S i) Hi).
  - assert (select_row m xs = select_row m ys) as ->.
    { apply IH. intros i Hi. apply (H (S i) Hi). }
    destruct b; [|done]. specialize (H 0 eq_refl). simpl in H. congruence.
Qed.

(** a selection reads the tensor at the locations of the mask only *)
Lemma masked_select_ext {A} (mask : list (list bool)) (t t' : list (list A)) :
  length t = length t' →
  (∀ b l, at2 mask b l = Some true → at2 t b l = at2 t' b l) →
  masked_select mask t = masked_select mask t'.
Proof.
  unfold masked_select. revert t t'.
  induction mask as [|r mask IH]; intros [|x t] [|x' t'] Hlen H; simpl;
    try done.
  f_equal.
  - apply select_row_ext. intros i Hi. apply (H 0 i). by unfold at2.
  - apply IH; [simpl in Hlen; lia|]. intros b l Hb. apply (H (S b) l Hb).
Qed.

Lemma select_row_count_0 {A} (m : list bool) (xs : list A) :
  count_true m = 0 → select_row m xs = [].
Proof.
  revert xs. induction m as [|b m IH]; intros [|x xs] H; simpl; try done.
  destruct b; simpl in H; [lia|]. by apply IH.
Qed.

Lemma masked_select_count_0 {A} (mask : list (list bool)) (t : list (list A)) :
  mask_count mask = 0 → masked_select mask t = [].
Proof.
  unfold masked_select, mask_count. revert t.
  induction mask as [|r mask IH]; intros [|x t] H; simpl; try done.
  simpl in H. rewrite count_true_app in H.
  rewrite select_row_count_0 by lia. simpl. apply IH. lia.
Qed.

Lemma count_true_zip_orb_0 (a b : list bool) :
  count_true a = 0 → count_true b = 0 → count_true (zip_with orb a b) = 0.
Proof.
  revert b. induction a as [|x a IH]; intros [|y b] Ha Hb; simpl; try done.
  simpl in Ha, Hb. destruct x, y; simpl in *; try lia. apply IH; lia.
Qed.

Lemma mask_or_count_0 (a b : list (list bool)) :
  mask_count a = 0 → mask_count b = 0 → mask_count (mask_or a b) = 0.
Proof.
  unfold mask_count, mask_or. revert b.
  induction a as [|r a IH]; intros [|r' b] Ha Hb; simpl; try done.
  simpl in Ha, Hb. rewrite count_true_app in *.
  rewrite count_true_zip_orb_0 by lia. simpl. apply IH; lia.
Qed.

(** the mean over no element is not a number *)
Lemma fmean_nil : PrimFloat.is_nan (fmean []) = true.
Proof. reflexivity. Qed.

Lemma at2_mask_or (a b : list (list bool)) (i j : nat) :
  at2 (mask_or a b) i j = Some true →
  at2 a i j = Some true ∨ at2 b i j = Some true.
Proof.
  unfold mask_or. rewrite at2_zip_with.
  destruct (at2 a i j) as [[]|]; simpl; [by left| |done].
  destruct (at2 b i j) as [[]|]; simpl; [by right|done..].
Qed.

Lemma count_true_le_length (l : list bool) : count_true l ≤ length l.
Proof. induction l as [|[] l IH]; simpl; lia. Qed.

Lemma mask_count_le_numel (B L : nat) (m : list (list bool)) :
  has_shape B L m → mask_count m ≤ B * L.
Proof.
  intros [Hlen Hrows]. unfold mask_count.
  etrans; [apply count_true_le_length|].
  rewrite (length_concat_uniform L) by done. by rewrite Hlen.
Qed.

(** ** The loss of the flattened batch *)

Lemma training_loss_unfold (bce : float → float → float)
    (sampler : list nat → Z → list nat) (B : nat)
    (cls_logits : list (list float)) (reg_logits : list (list (list float)))
    (target_cls : list (list float)) (target_regs : list (list (list float)))
    (ignore neg : list (list bool)) :
  hard_negative_mining sampler B (pos_mask target_cls ignore)
    (neg_mask target_cls ignore) = Ok neg →
  training_loss bce sampler B cls_logits reg_logits target_cls target_regs ignore
  = checked_sum
      (cls_loss_of bce (pos_mask target_cls ignore) neg cls_logits target_cls)
      (reg_loss_of (pos_mask target_cls ignore) reg_logits target_regs).
Proof. intros H. unfold training_loss. by rewrite H. Qed.

Lemma cls_loss_of_ext (bce : float → float → float)
    (pos neg : list (list bool)) (x x' t t' : list (list float)) :
  length x' = length x → length t' = length t →
  (∀ b l, at2 pos b l = Some true ∨ at2 neg b l = Some true →
          at2 x' b l = at2 x b l ∧ at2 t' b l = at2 t b l) →
  cls_loss_of bce pos neg x' t' = cls_loss_of bce pos neg x t.
Proof.
  intros Hx Ht H. unfold cls_loss_of.
  rewrite (masked_select_ext _ x' x), (masked_select_ext _ t' t); [done|..];
    try done.
  all: intros b l Hb%at2_mask_or; by apply H.
Qed.

Lemma reg_loss_of_ext (pos : list (list bool))
    (x x' t t' : list (list (list float))) :
  length x' = length x → length t' = length t →
  (∀ b l, at2 pos b l = Some true →
          at2 x' b l = at2 x b l ∧ at2 t' b l = at2 t b l) →
  reg_loss_of pos x' t' = reg_loss_of pos x t.
Proof.
  intros Hx Ht H. unfold reg_loss_of.
  rewrite (masked_select_ext _ x' x), (masked_select_ext _ t' t); [done|..];
    try done.
  all: intros b l Hb; by apply H.
Qed.

(** lines 126-133: the value is the sum of the two masked losses, or the
    assertion fails; each loss reads its tensors at the locations of its
    mask only *)
Lemma training_loss_two_terms (bce : float → float → float)
    (sampler : list nat → Z → list nat) (B : nat)
    (cls_logits : list (list float)) (reg_logits : list (list (list float)))
    (target_cls : list (list float)) (target_regs : list (list (list float)))
    (ignore neg : list (list bool)) :
  hard_negative_mining sampler B (pos_mask target_cls ignore)
    (neg_mask target_cls ignore) = Ok neg →
  let pos := pos_mask target_cls ignore in
  let sel := mask_or pos neg in
  let cls_loss :=
    binary_cross_entropy_with_logits bce
      (masked_select sel cls_logits) (masked_select sel target_cls) in
  let reg_loss :=
    mse_loss (masked_select pos reg_logits) (masked_select pos target_regs) in
  let out :=
    training_loss bce sampler B cls_logits reg_logits target_cls target_regs
      ignore in
  (out = Ok (cls_loss + reg_loss)%float ∨ out = Raise AssertionError)
  ∧ (∀ x' t',
       length x' = length cls_logits → length t' = length target_cls →
       (∀ b l, at2 pos b l = Some true ∨ at2 neg b l = Some true →
               at2 x' b l = at2 cls_logits b l
               ∧ at2 t' b l = at2 target_cls b l) →
       cls_loss_of bce pos neg x' t' = cls_loss)
  ∧ (∀ x' t',
       length x' = length reg_logits → length t' = length target_regs →
       (∀ b l, at2 pos b l = Some true →
               at2 x' b l = at2 reg_logits b l
               ∧ at2 t' b l = at2 target_regs b l) →
       reg_loss_of pos x' t' = reg_loss).
Proof.
  intros Hm pos sel cls_loss reg_loss out. split; [|split].
  - subst out. rewrite (training_loss_unfold _ _ _ _ _ _ _ _ _ Hm).
    unfold checked_sum. fold pos.
    change (cls_loss_of bce pos neg cls_logits target_cls) with cls_loss.
    change (reg_loss_of pos reg_logits target_regs) with reg_loss.
    destruct (_ && _); [by left|by right].
  - intros x' t' Hx Ht H. by apply cls_loss_of_ext.
  - intros x' t' Hx Ht H. by apply reg_loss_of_ext.
Qed.

(** line 131: a NaN loss raises, otherwise the sum is returned *)
Lemma training_loss_nan_check (bce : float → float → float)
    (sampler : list nat → Z → list nat) (B : nat)
    (cls_logits : list (list float)) (reg_logits : list (list (list float)))
    (target_cls : list (list float)) (target_regs : list (list (list float)))
    (ignore neg : list (list bool)) :
  hard_negative_mining sampler B (pos_mask target_cls ignore)
    (neg_mask target_cls ignore) = Ok neg →
  let cls_loss :=
    cls_loss_of bce (pos_mask target_cls ignore) neg cls_logits target_cls in
  let reg_loss :=
    reg_loss_of (pos_mask target_cls ignore) reg_logits target_regs in
  let out :=
    training_loss bce sampler B cls_logits reg_logits target_cls target_regs
      ignore in
  (PrimFloat.is_nan cls_loss || PrimFloat.is_nan reg_loss = true →
   out = Raise AssertionError)
  ∧ (PrimFloat.is_nan cls_loss || PrimFloat.is_nan reg_loss = false →
     out = Ok (cls_loss + reg_loss)%float).
Proof.
  intros Hm cls_loss reg_loss out. subst out.
  rewrite (training_loss_unfold _ _ _ _ _ _ _ _ _ Hm).
  fold cls_loss reg_loss. unfold checked_sum.
  destruct (PrimFloat.is_nan cls_loss), (PrimFloat.is_nan reg_loss);
    simpl; split; intros; done.
Qed.

(** the step on this batch returns the loss 0.25 + 0.0625 *)
Example training_loss_returns :
  training_loss squared_error first_n_sampler 1
    [[0.5; -0.5]]%float [[[0; 0; 0; 0]; [1; 1; 1; 1]]]%float
    [[1; 0]]%float [[[0.5; 0; 0; 0]; [0; 0; 0; 0]]]%float
    [[false; false]]
  = Ok 0.3125%float.
Proof. vm_compute. reflexivity. Qed.

(** without positives both selections are empty and the assertion fails *)
Lemma training_loss_zero_positives (bce : float → float → float)
    (sampler : list nat → Z → list nat) (B L : nat)
    (cls_logits : list (list float)) (reg_logits : list (list (list float)))
    (target_cls : list (list float)) (target_regs : list (list (list float)))
    (ignore : list (list bool)) :
  sampler_ok sampler → 0 < B → 0 < L →
  has_shape B L target_cls → has_shape B L ignore →
  (Z.of_nat (B * L) < 2 ^ 63)%Z →
  mask_count (pos_mask target_cls ignore) = 0 →
  let pos := pos_mask target_cls ignore in
  ∃ neg,
    hard_negative_mining sampler B pos (neg_mask target_cls ignore) = Ok neg
    ∧ mask_count neg = 0
    ∧ masked_select (mask_or pos neg) cls_logits = []
    ∧ masked_select pos reg_logits = []
    ∧ PrimFloat.is_nan (cls_loss_of bce pos neg cls_logits target_cls) = true
    ∧ PrimFloat.is_nan (reg_loss_of pos reg_logits target_regs) = true
    ∧ training_loss bce sampler B cls_logits reg_logits target_cls target_regs
        ignore = Raise AssertionError.
Proof.
  intros Hs HB HL Htc Hig Hnumel HP pos.
  pose proof (neg_mask_shape B L _ _ Htc Hig) as Hshape.
  pose proof (mask_count_le_numel B L _ Hshape) as HN.
  destruct (mining_result sampler Hs B L pos (neg_mask target_cls ignore))
    as (ss & Hsub & Hk & Hres); [done|done|apply Hshape|apply Hshape| | |].
  { subst pos. rewrite HP. unfold ratio. lia. }
  { lia. }
  assert (mask_count (chunks L B (put_all ss (replicate (B * L) false))) = 0)
    as Hcount.
  { rewrite (count_rebuilt B L _ ss Hsub).
    - subst pos. rewrite HP in Hk. unfold ratio in Hk. lia.
    - destruct Hshape as [Hlen Hrows].
      rewrite (length_concat_uniform L) by done. by rewrite Hlen. }
  eexists. split; [exact Hres|]. split; [exact Hcount|].
  assert (∀ A (t : list (list A)),
            masked_select (mask_or pos
              (chunks L B (put_all ss (replicate (B * L) false)))) t = [])
    as Hsel.
  { intros A t. apply masked_select_count_0. by apply mask_or_count_0. }
  assert (∀ A (t : list (list A)), masked_select pos t = []) as Hpos.
  { intros A t. by apply masked_select_count_0. }
  split; [apply Hsel|]. split; [apply Hpos|].
  assert (PrimFloat.is_nan (cls_loss_of bce pos
            (chunks L B (put_all ss (replicate (B * L) false)))
            cls_logits target_cls) = true) as Hcls.
  { unfold cls_loss_of. rewrite !Hsel. reflexivity. }
  assert (PrimFloat.is_nan (reg_loss_of pos reg_logits target_regs) = true)
    as Hreg.
  { unfold reg_loss_of. rewrite !Hpos. reflexivity. }
  split; [exact Hcls|]. split; [exact Hreg|].
  rewrite (training_loss_unfold _ _ _ _ _ _ _ _ _ Hres).
  unfold checked_sum. fold pos. by rewrite Hreg.
Qed.

(** ** The heads (lines 47-68) and the flattening (lines 88-109) *)

Lemma lookup_concat_uniform {A} (n : nat) (ls : list (list A)) (i j : nat) :
  Forall (λ r, length r = n) ls → j < n →
  concat ls !! (i * n + j) = ls !! i ≫= (.!! j).
Proof.
  intros H Hj. revert i. induction H as [|r ls Hr Hls IH]; intros i; simpl.
  - done.
  - destruct i as [|i]; simpl.
    + rewrite lookup_app_l by lia. done.
    + rewrite lookup_app_r by lia. rewrite <- IH. f_equal. lia.
Qed.

Lemma concat_concat {A} (l : list (list (list A))) :
  concat (concat l) = concat (map (@concat A) l).
Proof.
  induction l as [|x l IH]; simpl; [done|]. by rewrite concat_app, IH.
Qed.

Lemma transpose_length {A} (n : nat) (rows : list (list A)) :
  Forall (λ r, length r = n) rows → length (transpose n rows) = n.
Proof.
  induction 1 as [|r rows Hr Hrows IH]; simpl.
  - by rewrite length_replicate.
  - rewrite length_zip_with. lia.
Qed.

Lemma transpose_lookup {A} (n : nat) (rows : list (list A)) (j : nat) :
  j < n → transpose n rows !! j = mapM (.!! j) rows.
Proof.
  intros Hj. induction rows as [|r rows IH]; simpl.
  - by rewrite lookup_replicate_2.
  - rewrite lookup_zip_with, IH.
    destruct (r !! j); simpl; [|done]. by destruct (mapM _ rows).
Qed.

Lemma transpose_inner_length {A} (n : nat) (rows : list (list A)) :
  Forall (λ r, length r = n) rows →
  Forall (λ c, length c = length rows) (transpose n rows).
Proof.
  induction 1 as [|r rows Hr Hrows IH]; simpl.
  - apply Forall_replicate. done.
  - clear Hr Hrows. revert r. induction IH as [|c cs Hc Hcs IH']; intros [|x r]; simpl; constructor.
    + simpl. by rewrite Hc.
    + apply IH'.
Qed.

Lemma view2_concat {A} (B n : nat) (rows : list (list A)) :
  0 < B → 0 < n → length rows = B → Forall (λ r, length r = n) rows →
  view2 B (concat rows) = Ok rows.
Proof.
  intros HB Hn Hlen Hrows.
  rewrite (view2_ok B n); [|done|done|].
  - rewrite <- Hlen. by rewrite chunks_concat.
  - rewrite (length_concat_uniform n) by done. by rewrite Hlen.
Qed.

Lemma Forall_transpose {A} (P : A → Prop) (n : nat) (rows : list (list A)) :
  Forall (Forall P) rows → Forall (Forall P) (transpose n rows).
Proof.
  induction 1 as [|r rows Hr Hrows IH]; simpl.
  - apply Forall_replicate. constructor.
  - clear Hrows. revert r Hr.
    induction IH as [|c cs Hc Hcs IH']; intros [|x r] Hr; simpl; constructor.
    + constructor; [by inversion Hr|done].
    + apply IH'. by inversion Hr.
Qed.

Lemma permute_chw_at {A} (H W : nat) (chw : list (list (list A))) (r c : nat) :
  r < H → c < W →
  at2 (permute_chw H W chw) r c = mapM (λ plane, at2 plane r c) chw.
Proof.
  intros Hr Hc. unfold permute_chw, at2.
  rewrite list_lookup_fmap, transpose_lookup by done.
  induction chw as [|plane chw IH]; simpl.
  - by rewrite lookup_replicate_2.
  - destruct (plane !! r) as [row|]; simpl; [|done].
    destruct (mapM (.!! r) chw) as [rows|]; simpl in *.
    + rewrite lookup_zip_with, IH. done.
    + rewrite <- IH. by destruct (row !! c).
Qed.

Lemma permute_chw_shape {A} (C H W : nat) (chw : list (list (list A))) :
  shape3 C H W chw → shape3 H W C (permute_chw H W chw).
Proof.
  intros [Hlen Hplanes]. unfold permute_chw.
  assert (Forall (λ p : list (list A), length p = H) chw) as HH.
  { eapply Forall_impl; [exact Hplanes|]. by intros p [? _]. }
  assert (Forall (Forall (λ row : list A, length row = W)) chw) as HW.
  { eapply Forall_impl; [exact Hplanes|]. by intros p [_ ?]. }
  split.
  - rewrite length_map. by apply transpose_length.
  - apply Forall_fmap.
    pose proof (transpose_inner_length H chw HH) as H1.
    pose proof (Forall_transpose _ H chw HW) as H2.
    rewrite Forall_forall in H1, H2. apply Forall_forall. intros e He.
    simpl. split.
    + apply transpose_length. apply H2. done.
    + rewrite <- Hlen, <- (H1 e He). apply transpose_inner_length, H2. done.
Qed.

Lemma flat4_map {A} (t : list (list (list (list A)))) :
  flat4 t = concat (map (λ x, concat (concat x)) t).
Proof.
  unfold flat4. induction t as [|x t IH]; simpl; [done|].
  by rewrite !concat_app, IH.
Qed.

Lemma shape_hw_shaped (B C H W : nat) (t : tensor4) :
  0 < B → 0 < C → 0 < H → shape4 B C H W t → shape_hw t = (H, W).
Proof.
  intros HB HC HH [Hlen Ht].
  destruct t as [|x t]; simpl in Hlen; [lia|].
  apply Forall_cons in Ht as [[Hx Hplanes] _].
  destruct x as [|plane x]; simpl in Hx; [lia|].
  apply Forall_cons in Hplanes as [[Hp Hrows] _].
  destruct plane as [|row plane]; simpl in Hp; [lia|].
  apply Forall_cons in Hrows as [Hrow _].
  simpl. by rewrite Hp, Hrow.
Qed.

Lemma length_flat_hwc {A} (H W C : nat) (hwc : list (list (list A))) :
  shape3 H W C hwc →
  length (concat hwc) = H * W ∧ Forall (λ v, length v = C) (concat hwc)
  ∧ length (concat (concat hwc)) = H * W * C.
Proof.
  intros [Hlen Hrows].
  assert (Forall (λ r : list (list A), length r = W) hwc) as HW.
  { eapply Forall_impl; [exact Hrows|]. by intros p [? _]. }
  assert (Forall (λ v : list A, length v = C) (concat hwc)) as HC.
  { apply Forall_concat. eapply Forall_impl; [exact Hrows|]. by intros p [_ ?]. }
  split; [|split; [done|]].
  - rewrite (length_concat_uniform W) by done. by rewrite Hlen.
  - rewrite (length_concat_uniform C) by done.
    rewrite (length_concat_uniform W) by done. by rewrite Hlen.
Qed.

Lemma permute_0231_shaped (B C H W : nat) (t : tensor4) :
  0 < B → 0 < C → 0 < H → shape4 B C H W t →
  permute_0231 t = map (permute_chw H W) t.
Proof.
  intros. unfold permute_0231. by rewrite (shape_hw_shaped B C H W).
Qed.

(** a view into rows, when the flat tensor is a concatenation of [B] rows
    of one length *)
Lemma view2_rows {A X} (B n : nat) (f : X → list A) (xs : list X) :
  0 < B → 0 < n → length xs = B → Forall (λ x, length (f x) = n) xs →
  view2 B (concat (map f xs)) = Ok (map f xs).
Proof.
  intros HB Hn Hlen Hf. apply (view2_concat B n); [done..| |].
  - by rewrite length_map.
  - by apply Forall_fmap.
Qed.

Lemma view3_rows {A X} (B m k : nat) (g : X → list (list A)) (xs : list X) :
  0 < B → 0 < m → 0 < k → length xs = B →
  Forall (λ x, length (g x) = m ∧ Forall (λ v, length v = k) (g x)) xs →
  view3 B k (concat (map (λ x, concat (g x)) xs)) = Ok (map g xs).
Proof.
  intros HB Hm Hk Hlen Hg. unfold view3.
  rewrite (view2_rows B (m * k)); [|done|nia|done|].
  - simpl.
    assert (Forall (λ x, length (concat (g x)) = m * k) xs) as Hrow.
    { eapply Forall_impl; [exact Hg|]. intros x [H1 H2]. simpl.
      rewrite (length_concat_uniform k) by done. by rewrite H1. }
    replace (forallb _ _) with true.
    + f_equal. rewrite map_map. apply map_ext_Forall.
      rewrite Forall_forall in Hg, Hrow. apply Forall_forall. intros x Hx.
      destruct (Hg x Hx) as [H1 H2]. rewrite (Hrow x Hx).
      rewrite Nat.div_mul by lia. rewrite <- H1. by apply chunks_concat.
    + symmetry. apply forallb_forall. intros row Hin.
      apply list_elem_of_In, list_elem_of_fmap in Hin as (x & -> & Hx).
      rewrite Forall_forall in Hrow. rewrite (Hrow x Hx).
      apply Nat.eqb_eq. apply Nat.Div0.mod_mul.
  - eapply Forall_impl; [exact Hg|]. intros x [H1 H2]. simpl.
    rewrite (length_concat_uniform k) by done. by rewrite H1.
Qed.

Lemma flatten_cls_ok (B C H W : nat) (t : tensor4) :
  0 < B → 0 < C → 0 < H → 0 < W → shape4 B C H W t →
  view2 B (flat4 (permute_0231 t))
  = Ok (map (λ chw, concat (concat (permute_chw H W chw))) t).
Proof.
  intros HB HC HH HW Ht.
  rewrite (permute_0231_shaped B C H W) by done.
  rewrite flat4_map, map_map.
  destruct Ht as [Hlen Ht].
  apply (view2_rows B (H * W * C)); [done|nia|done|].
  eapply Forall_impl; [exact Ht|]. intros chw Hchw. simpl.
  by apply length_flat_hwc, permute_chw_shape.
Qed.

Lemma flatten_reg_ok (B C H W : nat) (t : tensor4) :
  0 < B → 0 < C → 0 < H → 0 < W → shape4 B C H W t →
  view3 B C (flat4 (permute_0231 t))
  = Ok (map (λ chw, concat (permute_chw H W chw)) t).
Proof.
  intros HB HC HH HW Ht.
  rewrite (permute_0231_shaped B C H W) by done.
  rewrite flat4_map, map_map.
  destruct Ht as [Hlen Ht].
  apply (view3_rows B (H * W) C (λ chw, concat (permute_chw H W chw)));
    [done|nia|done|done|].
  eapply Forall_impl; [exact Ht|]. intros chw Hchw. simpl.
  apply permute_chw_shape, length_flat_hwc in Hchw. tauto.
Qed.

Lemma flatten_t3_ok {A} (B H W : nat) (t : list (list (list A))) :
  0 < B → 0 < H → 0 < W → shape3 B H W t →
  view2 B (flat3 t) = Ok (map (λ x, concat x) t).
Proof.
  intros HB HH HW [Hlen Ht]. unfold flat3. rewrite concat_concat.
  apply (view2_rows B (H * W)); [done|nia|done|].
  eapply Forall_impl; [exact Ht|]. intros x [Hx Hrows]. simpl.
  rewrite (length_concat_uniform W) by done. by rewrite Hx.
Qed.

Lemma flatten_t4_ok {A} (B H W C : nat) (t : list (list (list (list A)))) :
  0 < B → 0 < H → 0 < W → 0 < C → shape4 B H W C t →
  view3 B C (flat4 t) = Ok (map (λ x, concat x) t).
Proof.
  intros HB HH HW HC [Hlen Ht]. rewrite flat4_map.
  apply (view3_rows B (H * W) C (λ x, concat x)); [done|nia|done|done|].
  eapply Forall_impl; [exact Ht|]. intros x Hx. simpl.
  apply length_flat_hwc in Hx. tauto.
Qed.

Lemma at2_map_row {A X} (f : X → list A) (t : list X) (b p : nat) :
  at2 (map f t) b p = t !! b ≫= (λ x, f x !! p).
Proof. unfold at2. rewrite list_lookup_fmap. by destruct (t !! b). Qed.

Lemma hwc_row_lookup {A} (H W C : nat) (chw : list (list (list A))) (r c : nat) :
  shape3 C H W chw → r < H → c < W →
  concat (permute_chw H W chw) !! (r * W + c)
  = mapM (λ plane, at2 plane r c) chw.
Proof.
  intros Hs Hr Hc. rewrite <- (permute_chw_at H W) by done.
  apply permute_chw_shape in Hs as [_ Hrows].
  apply (lookup_concat_uniform W); [|done].
  eapply Forall_impl; [exact Hrows|]. by intros x [? _].
Qed.

Lemma cls_row_lookup {A} (H W : nat) (chw : list (list (list A))) (r c : nat) :
  shape3 1 H W chw → r < H → c < W →
  (λ x, [x]) <$> concat (concat (permute_chw H W chw)) !! (r * W + c)
  = mapM (λ plane, at2 plane r c) chw.
Proof.
  intros Hs Hr Hc. rewrite <- (hwc_row_lookup H W 1) by done.
  pose proof (length_flat_hwc H W 1 _ (permute_chw_shape _ _ _ _ Hs))
    as (_ & H1 & _).
  replace (r * W + c) with ((r * W + c) * 1 + 0) at 1 by lia.
  rewrite (lookup_concat_uniform 1) by (done || lia).
  destruct (concat (permute_chw H W chw) !! (r * W + c)) as [v|] eqn:Hv;
    simpl; [|done].
  rewrite Forall_forall in H1.
  specialize (H1 v (list_elem_of_lookup_2 _ _ _ Hv)).
  destruct v as [|x [|y v]]; simpl in *; try lia. done.
Qed.

Lemma t3_row_lookup {A} (H W : nat) (x : list (list A)) (r c : nat) :
  has_shape H W x → c < W → concat x !! (r * W + c) = at2 x r c.
Proof. intros [_ Hrows] Hc. by apply lookup_concat_uniform. Qed.

Lemma zip_app_shape {A} (B L0 L1 : nat) (t0 t1 : list (list A)) :
  has_shape B L0 t0 → has_shape B L1 t1 →
  has_shape B (L0 + L1) (zip_with app t0 t1).
Proof.
  intros [H0 Hr0] [H1 Hr1]. split; [rewrite length_zip_with; lia|].
  clear H0 H1. revert t1 Hr1.
  induction Hr0 as [|r t0 Hr Ht0 IH]; intros t1 Hr1; [constructor|].
  destruct Hr1 as [|r' t1 Hr' Ht1]; simpl; constructor.
  - rewrite length_app. lia.
  - by apply IH.
Qed.

Lemma at2_zip_app {A} (B L0 L1 : nat) (t0 t1 : list (list A)) (b j : nat) :
  has_shape B L0 t0 → has_shape B L1 t1 → b < B →
  (j < L0 → at2 (zip_with app t0 t1) b j = at2 t0 b j)
  ∧ at2 (zip_with app t0 t1) b (L0 + j) = at2 t1 b j.
Proof.
  intros [H0 Hr0] [H1 Hr1] Hb. unfold at2. rewrite lookup_zip_with.
  destruct (lookup_lt_is_Some_2 t0 b) as [r0 E0]; [lia|].
  destruct (lookup_lt_is_Some_2 t1 b) as [r1 E1]; [lia|].
  rewrite E0, E1. simpl.
  rewrite Forall_forall in Hr0.
  pose proof (Hr0 r0 (list_elem_of_lookup_2 _ _ _ E0)) as Hl0.
  split.
  - intros Hj. rewrite lookup_app_l by lia. done.
  - rewrite lookup_app_r by lia. f_equal. lia.
Qed.

Section DetectorFacts.

Variable GT : Type.
Variables downsample_conv1 downsample_conv2 : tensor4 → tensor4.
Variables res_block1 res_block2 res_block3 res_block4 : tensor4 → tensor4.
Variable head_call : head_config → tensor4 → tensor4 * tensor4.
Variable build_targets :
  head_config → nat * nat → GT →
  list (list (list float)) * tensor4 * list (list (list bool)).

Lemma flatten_head_ok (B H W : nat) (gt : GT) (h : head_config)
    (l : tensor4 * tensor4) :
  0 < B → 0 < H → 0 < W → logits_shaped B H W l →
  targets_shaped B H W (build_targets h (H, W) gt) →
  flatten_head GT build_targets B gt h l.1 l.2
  = Ok (flat_head_of H W l (build_targets h (H, W) gt)).
Proof.
  intros HB HH HW [Hc Hr] Ht. unfold flatten_head, flat_head_of.
  rewrite (shape_hw_shaped B 1 H W) by (done || lia).
  destruct (build_targets h (H, W) gt) as [[tc tr] ig].
  destruct Ht as (Htc & Htr & Hig). simpl in *.
  rewrite (flatten_cls_ok B 1 H W) by (done || lia). simpl.
  rewrite (flatten_reg_ok B 4 H W) by (done || lia). simpl.
  rewrite (flatten_t3_ok B H W) by done. simpl.
  rewrite (flatten_t4_ok B H W 4) by (done || lia). simpl.
  rewrite (flatten_t3_ok B H W) by done. done.
Qed.

Lemma flat_head_of_shape (B H W : nat)
    (l : tensor4 * tensor4)
    (t : list (list (list float)) * tensor4 * list (list (list bool))) :
  logits_shaped B H W l → targets_shaped B H W t →
  let f := flat_head_of H W l t in
  has_shape B (H * W) (fh_cls_logits f) ∧ has_shape B (H * W) (fh_reg_logits f)
  ∧ has_shape B (H * W) (fh_target_cls f)
  ∧ has_shape B (H * W) (fh_target_regs f)
  ∧ has_shape B (H * W) (fh_ignore f).
Proof.
  intros [[Hcl Hc] [Hrl Hr]] ([Htcl Htc] & [Htrl Htr] & [Higl Hig]). simpl.
  repeat split; try (by rewrite length_map); apply Forall_fmap.
  - eapply Forall_impl; [exact Hc|]. intros chw Hchw. simpl.
    apply permute_chw_shape, length_flat_hwc in Hchw. lia.
  - eapply Forall_impl; [exact Hr|]. intros chw Hchw. simpl.
    apply permute_chw_shape, length_flat_hwc in Hchw. tauto.
  - eapply Forall_impl; [exact Htc|]. intros x [Hx Hrows]. simpl.
    rewrite (length_concat_uniform W) by done. by rewrite Hx.
  - eapply Forall_impl; [exact Htr|]. intros x Hx. simpl.
    apply length_flat_hwc in Hx. tauto.
  - eapply Forall_impl; [exact Hig|]. intros x [Hx Hrows]. simpl.
    rewrite (length_concat_uniform W) by done. by rewrite Hx.
Qed.

Lemma flat_head_of_at (B H W : nat)
    (l : tensor4 * tensor4)
    (t : list (list (list float)) * tensor4 * list (list (list bool)))
    (b r c : nat) :
  logits_shaped B H W l → targets_shaped B H W t →
  b < B → r < H → c < W →
  let f := flat_head_of H W l t in
  let p := r * W + c in
  (λ x, [x]) <$> at2 (fh_cls_logits f) b p = channels_at l.1 b r c
  ∧ at2 (fh_reg_logits f) b p = channels_at l.2 b r c
  ∧ at2 (fh_target_cls f) b p = at3 t.1.1 b r c
  ∧ at2 (fh_target_regs f) b p = at3 t.1.2 b r c
  ∧ at2 (fh_ignore f) b p = at3 t.2 b r c.
Proof.
  intros [[Hcl Hc] [Hrl Hr]] ([Htcl Htc] & [Htrl Htr] & [Higl Hig]) Hb Hr' Hc'.
  simpl. rewrite !at2_map_row. unfold channels_at, at3, at2.
  rewrite Forall_forall in Hc. rewrite Forall_forall in Hr.
  rewrite Forall_forall in Htc. rewrite Forall_forall in Htr.
  rewrite Forall_forall in Hig.
  repeat split.
  - destruct (l.1 !! b) as [chw|] eqn:E; simpl; [|done].
    apply cls_row_lookup; [|done..].
    apply Hc. by eapply list_elem_of_lookup_2.
  - destruct (l.2 !! b) as [chw|] eqn:E; simpl; [|done].
    apply (hwc_row_lookup H W 4); [|done..].
    apply Hr. by eapply list_elem_of_lookup_2.
  - destruct (t.1.1 !! b) as [x|] eqn:E; simpl; [|done].
    apply (t3_row_lookup H W); [|done].
    apply Htc. by eapply list_elem_of_lookup_2.
  - destruct (t.1.2 !! b) as [x|] eqn:E; simpl; [|done].
    apply (lookup_concat_uniform W); [|done].
    specialize (Htr x (list_elem_of_lookup_2 _ _ _ E)) as [_ Hrows].
    eapply Forall_impl; [exact Hrows|]. by intros y [? _].
  - destruct (t.2 !! b) as [x|] eqn:E; simpl; [|done].
    apply (t3_row_lookup H W); [|done].
    apply Hig. by eapply list_elem_of_lookup_2.
Qed.


Lemma init_heads_lookup (filters rf_sizes rf_strides : option (list Z))
    (scales : option (list (Z * Z))) (nc : Z) (i : nat) (h : head_config) :
  heads (__init__ filters rf_sizes rf_strides scales nc) !! i = Some h →
  default __SCALES__ scales !! i = Some (lower_scale h, upper_scale h)
  ∧ head_idx h = i + 1.
Proof.
  unfold __init__. simpl. rewrite list_lookup_imap.
  destruct (zip _ _ !! i) as [[[[f rs] rst] [lo up]]|] eqn:E; simpl; [|done].
  intros [= <-]. simpl. split; [|done].
  apply lookup_zip_with_Some in E as (x & y & [= <- <-] & _ & E). done.
Qed.

Lemma forward_two_heads (self : LFFDTinyPart) (x : tensor4)
    (h0 h1 : head_config) :
  heads self = [h0; h1] →
  let f0 := feature_c8 downsample_conv1 downsample_conv2 res_block1 res_block2
              res_block3 x in
  let f1 := res_block4 f0 in
  forward downsample_conv1 downsample_conv2 res_block1 res_block2 res_block3
    res_block4 head_call self x
  = Ok ([(head_call h0 f0).1; (head_call h1 f1).1],
        [(head_call h0 f0).2; (head_call h1 f1).2]).
Proof.
  intros Hh f0 f1. unfold forward, features. rewrite Hh. simpl.
  fold f0. fold f1.
  destruct (head_call h0 f0) as [c0 r0]. by destruct (head_call h1 f1) as [c1 r1].
Qed.

Lemma flatten_batch_two (self : LFFDTinyPart) (B : nat) (gt : GT)
    (h0 h1 : head_config) (H0 W0 H1 W1 : nat)
    (l0 l1 : tensor4 * tensor4) :
  heads self = [h0; h1] →
  0 < B → 0 < H0 → 0 < W0 → 0 < H1 → 0 < W1 →
  logits_shaped B H0 W0 l0 → logits_shaped B H1 W1 l1 →
  targets_shaped B H0 W0 (build_targets h0 (H0, W0) gt) →
  targets_shaped B H1 W1 (build_targets h1 (H1, W1) gt) →
  flatten_batch GT build_targets self B gt [l0.1; l1.1] [l0.2; l1.2]
  = Ok (flat_head_app
          (flat_head_of H0 W0 l0 (build_targets h0 (H0, W0) gt))
          (flat_head_of H1 W1 l1 (build_targets h1 (H1, W1) gt))).
Proof.
  intros Hh HB HH0 HW0 HH1 HW1 Hl0 Hl1 Ht0 Ht1.
  unfold flatten_batch. rewrite Hh. simpl.
  rewrite (flatten_head_ok B H0 W0) by done. simpl.
  rewrite (flatten_head_ok B H1 W1) by done. done.
Qed.


Lemma aligned_app_l (B L0 L1 : nat) (f0 f1 : flat_head) (b p r c : nat)
    (l : tensor4 * tensor4)
    (t : list (list (list float)) * tensor4 * list (list (list bool))) :
  has_shape B L0 (fh_cls_logits f0) → has_shape B L1 (fh_cls_logits f1) →
  has_shape B L0 (fh_reg_logits f0) → has_shape B L1 (fh_reg_logits f1) →
  has_shape B L0 (fh_target_cls f0) → has_shape B L1 (fh_target_cls f1) →
  has_shape B L0 (fh_target_regs f0) → has_shape B L1 (fh_target_regs f1) →
  has_shape B L0 (fh_ignore f0) → has_shape B L1 (fh_ignore f1) →
  b < B → p < L0 →
  (λ x, [x]) <$> at2 (fh_cls_logits f0) b p = channels_at l.1 b r c
  ∧ at2 (fh_reg_logits f0) b p = channels_at l.2 b r c
  ∧ at2 (fh_target_cls f0) b p = at3 t.1.1 b r c
  ∧ at2 (fh_target_regs f0) b p = at3 t.1.2 b r c
  ∧ at2 (fh_ignore f0) b p = at3 t.2 b r c →
  aligned (flat_head_app f0 f1) b p l t r c.
Proof.
  intros Hc0 Hc1 Hr0 Hr1 Htc0 Htc1 Htr0 Htr1 Hi0 Hi1 Hb Hp
    (E1 & E2 & E3 & E4 & E5).
  unfold aligned, flat_head_app. simpl.
  rewrite (proj1 (at2_zip_app B L0 L1 _ _ b p Hc0 Hc1 Hb) Hp).
  rewrite (proj1 (at2_zip_app B L0 L1 _ _ b p Hr0 Hr1 Hb) Hp).
  rewrite (proj1 (at2_zip_app B L0 L1 _ _ b p Htc0 Htc1 Hb) Hp).
  rewrite (proj1 (at2_zip_app B L0 L1 _ _ b p Htr0 Htr1 Hb) Hp).
  rewrite (proj1 (at2_zip_app B L0 L1 _ _ b p Hi0 Hi1 Hb) Hp).
  repeat split; try done.
  - destruct Hc0 as [Hlen Hrows]. unfold at2.
    destruct (lookup_lt_is_Some_2 (fh_cls_logits f0) b) as [row E]; [lia|].
    rewrite E. simpl. apply lookup_lt_is_Some_2.
    rewrite Forall_forall in Hrows.
    rewrite (Hrows row (list_elem_of_lookup_2 _ _ _ E)). done.
  - destruct Htc0 as [Hlen Hrows]. unfold at2.
    destruct (lookup_lt_is_Some_2 (fh_target_cls f0) b) as [row E]; [lia|].
    rewrite E. simpl. apply lookup_lt_is_Some_2.
    rewrite Forall_forall in Hrows.
    rewrite (Hrows row (list_elem_of_lookup_2 _ _ _ E)). done.
Qed.

Lemma aligned_app_r (B L0 L1 : nat) (f0 f1 : flat_head) (b p r c : nat)
    (l : tensor4 * tensor4)
    (t : list (list (list float)) * tensor4 * list (list (list bool))) :
  has_shape B L0 (fh_cls_logits f0) → has_shape B L1 (fh_cls_logits f1) →
  has_shape B L0 (fh_reg_logits f0) → has_shape B L1 (fh_reg_logits f1) →
  has_shape B L0 (fh_target_cls f0) → has_shape B L1 (fh_target_cls f1) →
  has_shape B L0 (fh_target_regs f0) → has_shape B L1 (fh_target_regs f1) →
  has_shape B L0 (fh_ignore f0) → has_shape B L1 (fh_ignore f1) →
  b < B → p < L1 →
  (λ x, [x]) <$> at2 (fh_cls_logits f1) b p = channels_at l.1 b r c
  ∧ at2 (fh_reg_logits f1) b p = channels_at l.2 b r c
  ∧ at2 (fh_target_cls f1) b p = at3 t.1.1 b r c
  ∧ at2 (fh_target_regs f1) b p = at3 t.1.2 b r c
  ∧ at2 (fh_ignore f1) b p = at3 t.2 b r c →
  aligned (flat_head_app f0 f1) b (L0 + p) l t r c.
Proof.
  intros Hc0 Hc1 Hr0 Hr1 Htc0 Htc1 Htr0 Htr1 Hi0 Hi1 Hb Hp
    (E1 & E2 & E3 & E4 & E5).
  unfold aligned, flat_head_app. simpl.
  rewrite (proj2 (at2_zip_app B L0 L1 _ _ b p Hc0 Hc1 Hb)).
  rewrite (proj2 (at2_zip_app B L0 L1 _ _ b p Hr0 Hr1 Hb)).
  rewrite (proj2 (at2_zip_app B L0 L1 _ _ b p Htc0 Htc1 Hb)).
  rewrite (proj2 (at2_zip_app B L0 L1 _ _ b p Htr0 Htr1 Hb)).
  rewrite (proj2 (at2_zip_app B L0 L1 _ _ b p Hi0 Hi1 Hb)).
  repeat split; try done.
  - destruct Hc1 as [Hlen Hrows]. unfold at2.
    destruct (lookup_lt_is_Some_2 (fh_cls_logits f1) b) as [row E]; [lia|].
    rewrite E. simpl. apply lookup_lt_is_Some_2.
    rewrite Forall_forall in Hrows.
    rewrite (Hrows row (list_elem_of_lookup_2 _ _ _ E)). done.
  - destruct Htc1 as [Hlen Hrows]. unfold at2.
    destruct (lookup_lt_is_Some_2 (fh_target_cls f1) b) as [row E]; [lia|].
    rewrite E. simpl. apply lookup_lt_is_Some_2.
    rewrite Forall_forall in Hrows.
    rewrite (Hrows row (list_elem_of_lookup_2 _ _ _ E)). done.
Qed.

End DetectorFacts.

(** ** The claims about the masks and the mining step *)

(** C1.  The positives are counted over the whole (batch, locations) mask,
    which is the sum of the counts of its rows; the mining step keeps
    min(N, ratio * P) of the N negatives, so the rebuilt mask has at most
    ratio * P and at most N entries, and exactly ratio * P of them when
    ratio * P <= N. *)
Theorem negative_cap (sampler : list nat → Z → list nat) (B L : nat)
    (pos neg : list (list bool)) :
  sampler_ok sampler → 0 < B → 0 < L → has_shape B L neg →
  (ratio * Z.of_nat (mask_count pos) < 2 ^ 63)%Z →
  (Z.of_nat (mask_count neg) < 2 ^ 63)%Z →
  ratio = 10%Z
  ∧ mask_count pos = sum_list (count_true <$> pos)
  ∧ mask_sum pos = Z.of_nat (mask_count pos)
  ∧ negatives_target pos neg
    = Z.min (Z.of_nat (mask_count neg)) (ratio * Z.of_nat (mask_count pos))
  ∧ ∃ rebuilt,
      hard_negative_mining sampler B pos neg = Ok rebuilt
      ∧ (Z.of_nat (mask_count rebuilt) ≤ ratio * Z.of_nat (mask_count pos))%Z
      ∧ mask_count rebuilt ≤ mask_count neg
      ∧ ((ratio * Z.of_nat (mask_count pos) ≤ Z.of_nat (mask_count neg))%Z →
         Z.of_nat (mask_count rebuilt) = (ratio * Z.of_nat (mask_count pos))%Z).
Proof.
  intros Hs HB HL [Hlen Hrows] HP HN.
  split; [done|]. split; [apply mask_count_rows|].
  assert (0 ≤ ratio * Z.of_nat (mask_count pos))%Z as HP0
    by (unfold ratio; lia).
  split; [unfold mask_sum; apply wrap64_small; unfold ratio in *; lia|].
  split.
  { unfold negatives_target, mask_sum.
    rewrite (wrap64_small (Z.of_nat (mask_count pos)))
      by (unfold ratio in *; lia).
    rewrite (wrap64_small (Z.of_nat (mask_count neg))) by lia.
    by rewrite (wrap64_small (ratio * _)) by lia. }
  destruct (mining_result sampler Hs B L pos neg) as (ss & Hsub & Hk & Hres);
    [done..|].
  eexists. split; [exact Hres|].
  rewrite (count_rebuilt B L neg ss Hsub).
  - lia.
  - rewrite (length_concat_uniform L) by done. by rewrite Hlen.
Qed.

(** C3 (amended).  At every location, the positive mask and the negative
    mask of lines 111-112 are never both set, and neither is set where the
    location is ignored; when the label of the location is 0 or 1, exactly
    one of positive, negative and ignore holds. *)
Theorem masks_disjoint_and_cover (target_cls : list (list float))
    (ignore : list (list bool)) (b l : nat) (t : float) (ig : bool) :
  at2 target_cls b l = Some t → at2 ignore b l = Some ig →
  ∃ p n,
    at2 (pos_mask target_cls ignore) b l = Some p
    ∧ at2 (neg_mask target_cls ignore) b l = Some n
    ∧ p && n = false ∧ p && ig = false ∧ n && ig = false
    ∧ (PrimFloat.eqb t 1 || PrimFloat.eqb t 0 = true → exactly_one p n ig).
Proof.
  intros Ht Hig. rewrite at2_pos_mask, at2_neg_mask, Ht, Hig. simpl.
  eexists _, _. split; [done|]. split; [done|].
  unfold exactly_one.
  destruct (PrimFloat.eqb t 1) eqn:H1.
  - rewrite (eqb_one_not_zero _ H1). by destruct ig.
  - by destruct (PrimFloat.eqb t 0), ig.
Qed.

(** ** The whole step *)

Section StepFacts.

Variable GT : Type.
Variables downsample_conv1 downsample_conv2 : tensor4 → tensor4.
Variables res_block1 res_block2 res_block3 res_block4 : tensor4 → tensor4.
Variable head_call : head_config → tensor4 → tensor4 * tensor4.
Variable build_targets :
  head_config → nat * nat → GT →
  list (list (list float)) * tensor4 * list (list (list bool)).
Variable bce : float → float → float.
Variable sampler : list nat → Z → list nat.

(** the step after [forward] and the flattening have returned *)
Lemma training_step_unfold (self : LFFDTinyPart) (imgs : tensor4) (gt : GT)
    (logits : list tensor4 * list tensor4) (f : flat_head) :
  forward downsample_conv1 downsample_conv2 res_block1 res_block2 res_block3
    res_block4 head_call self imgs = Ok logits →
  flatten_batch GT build_targets self (length imgs) gt logits.1 logits.2
  = Ok f →
  training_step GT downsample_conv1 downsample_conv2 res_block1 res_block2
    res_block3 res_block4 head_call build_targets bce sampler self (imgs, gt)
  = training_loss bce sampler (length imgs) (fh_cls_logits f)
      (fh_reg_logits f) (fh_target_cls f) (fh_target_regs f) (fh_ignore f).
Proof. intros Hf Hfl. unfold training_step. by rewrite Hf; simpl; rewrite Hfl. Qed.

Lemma apply_heads_raises (hs : list head_config) (i : nat) (xs : list tensor4) :
  raises InvalidMaskError (apply_heads head_call hs i xs) = false.
Proof.
  revert i. induction xs as [|x xs IH]; intros i; simpl; [done|].
  destruct (hs !! i) as [h|]; [|done].
  destruct (head_call h x) as [c r]. apply raises_bind; [apply IH|done].
Qed.

Lemma view3_raises {A} (batch_size k : nat) (flat : list A) :
  raises InvalidMaskError (view3 batch_size k flat) = false.
Proof.
  unfold view3. apply raises_bind; [apply view2_raises|].
  intros rows. by destruct (forallb _ _).
Qed.

Lemma cat1_raises {A} (ts : list (list (list A))) :
  raises InvalidMaskError (cat1 ts) = false.
Proof. by destruct ts. Qed.

Lemma flatten_head_raises (B : nat) (gt : GT) (h : head_config)
    (c r : tensor4) :
  raises InvalidMaskError (flatten_head GT build_targets B gt h c r) = false.
Proof.
  unfold flatten_head. destruct (shape_hw c) as [fh fw].
  destruct (build_targets h (fh, fw) gt) as [[tc tr] ig].
  repeat (apply raises_bind;
          [first [apply view2_raises | apply view3_raises]|intros ?]).
  done.
Qed.

Lemma flatten_heads_raises (B : nat) (gt : GT) (hs : list head_config)
    (i : nat) (cs rs : list tensor4) :
  raises InvalidMaskError (flatten_heads GT build_targets B gt hs i cs rs)
  = false.
Proof.
  revert i. induction hs as [|h hs IH]; intros i; simpl; [done|].
  destruct (cs !! i) as [c|]; [|done]. destruct (rs !! i) as [r|]; [|done].
  apply raises_bind; [apply flatten_head_raises|]. intros f.
  apply raises_bind; [apply IH|done].
Qed.

Lemma training_loss_raises (B : nat) (cls_logits : list (list float))
    (reg_logits : list (list (list float))) (target_cls : list (list float))
    (target_regs : list (list (list float))) (ignore : list (list bool)) :
  raises InvalidMaskError
    (training_loss bce sampler B cls_logits reg_logits target_cls target_regs
       ignore) = false.
Proof.
  unfold training_loss. apply raises_bind; [apply mining_raises|].
  intros neg. unfold checked_sum. by destruct (_ && _).
Qed.

Lemma training_step_raises (self : LFFDTinyPart) (batch : tensor4 * GT) :
  raises InvalidMaskError
    (training_step GT downsample_conv1 downsample_conv2 res_block1 res_block2
       res_block3 res_block4 head_call build_targets bce sampler self batch)
  = false.
Proof.
  unfold training_step. destruct batch as [imgs gt].
  apply raises_bind; [apply apply_heads_raises|]. intros logits.
  apply raises_bind; [|intros f; apply training_loss_raises].
  unfold flatten_batch. apply raises_bind; [apply flatten_heads_raises|].
  intros fs. unfold concat_heads.
  repeat (apply raises_bind; [apply cat1_raises|intros ?]). done.
Qed.

(** ** The claims about the step *)

(** On every batch without a positive location the mining step keeps no
    negative, both selections are empty, both mean reductions are 0/0,
    which is NaN, and the assertion of line 131 makes [training_step]
    raise: no loss is returned. *)
Theorem zero_positives_raise (self : LFFDTinyPart) (imgs : tensor4) (gt : GT)
    (logits : list tensor4 * list tensor4) (f : flat_head) (L : nat) :
  sampler_ok sampler →
  forward downsample_conv1 downsample_conv2 res_block1 res_block2 res_block3
    res_block4 head_call self imgs = Ok logits →
  flatten_batch GT build_targets self (length imgs) gt logits.1 logits.2
  = Ok f →
  0 < length imgs → 0 < L →
  has_shape (length imgs) L (fh_target_cls f) →
  has_shape (length imgs) L (fh_ignore f) →
  (Z.of_nat (length imgs * L) < 2 ^ 63)%Z →
  mask_count (pos_mask (fh_target_cls f) (fh_ignore f)) = 0 →
  let pos := pos_mask (fh_target_cls f) (fh_ignore f) in
  ∃ neg,
    hard_negative_mining sampler (length imgs) pos
      (neg_mask (fh_target_cls f) (fh_ignore f)) = Ok neg
    ∧ mask_count neg = 0
    ∧ masked_select (mask_or pos neg) (fh_cls_logits f) = []
    ∧ masked_select pos (fh_reg_logits f) = []
    ∧ PrimFloat.is_nan
        (cls_loss_of bce pos neg (fh_cls_logits f) (fh_target_cls f)) = true
    ∧ PrimFloat.is_nan
        (reg_loss_of pos (fh_reg_logits f) (fh_target_regs f)) = true
    ∧ training_step GT downsample_conv1 downsample_conv2 res_block1
        res_block2 res_block3 res_block4 head_call build_targets bce sampler
        self (imgs, gt) = Raise AssertionError.
Proof.
  intros Hs Hf Hfl HB HL Htc Hig Hn HP.
  rewrite (training_step_unfold _ _ _ _ _ Hf Hfl).
  by apply (training_loss_zero_positives bce sampler (length imgs) L).
Qed.


(** C5.  The heads are built in the order of the scale list and [forward]
    applies head [i] to feature map [i] and returns the logits in that
    order, which is strictly increasing scale order when the scale list
    is; the flattened and concatenated tensors have one row per batch
    entry and one position per location of the first head, then of the
    second, and position [offset + r * W + c] of every one of the five
    tensors holds what the same head has at grid location ([r], [c]). *)
Theorem heads_order_and_alignment
    (filters rf_sizes rf_strides : option (list Z))
    (scales : option (list (Z * Z))) (nc : Z)
    (imgs : tensor4) (gt : GT)
    (h0 h1 : head_config) (H0 W0 H1 W1 : nat) :
  let self := __init__ filters rf_sizes rf_strides scales nc in
  let B := length imgs in
  let f0 := feature_c8 downsample_conv1 downsample_conv2 res_block1 res_block2
              res_block3 imgs in
  let f1 := res_block4 f0 in
  let l0 := head_call h0 f0 in
  let l1 := head_call h1 f1 in
  let t0 := build_targets h0 (H0, W0) gt in
  let t1 := build_targets h1 (H1, W1) gt in
  increasing_scales (default __SCALES__ scales) →
  heads self = [h0; h1] →
  0 < B → 0 < H0 → 0 < W0 → 0 < H1 → 0 < W1 →
  logits_shaped B H0 W0 l0 → logits_shaped B H1 W1 l1 →
  targets_shaped B H0 W0 t0 → targets_shaped B H1 W1 t1 →
  band_lt (lower_scale h0, upper_scale h0) (lower_scale h1, upper_scale h1)
  ∧ forward downsample_conv1 downsample_conv2 res_block1 res_block2
      res_block3 res_block4 head_call self imgs
    = Ok ([l0.1; l1.1], [l0.2; l1.2])
  ∧ ∃ f,
      flatten_batch GT build_targets self B gt [l0.1; l1.1] [l0.2; l1.2] = Ok f
      ∧ has_shape B (H0 * W0 + H1 * W1) (fh_cls_logits f)
      ∧ has_shape B (H0 * W0 + H1 * W1) (fh_reg_logits f)
      ∧ has_shape B (H0 * W0 + H1 * W1) (fh_target_cls f)
      ∧ has_shape B (H0 * W0 + H1 * W1) (fh_target_regs f)
      ∧ has_shape B (H0 * W0 + H1 * W1) (fh_ignore f)
      ∧ (∀ b r c, b < B → r < H0 → c < W0 →
           aligned f b (r * W0 + c) l0 t0 r c)
      ∧ (∀ b r c, b < B → r < H1 → c < W1 →
           aligned f b (H0 * W0 + (r * W1 + c)) l1 t1 r c).
Proof.
  intros self B f0 f1 l0 l1 t0 t1 Hinc Hh HB HH0 HW0 HH1 HW1 Hl0 Hl1 Ht0 Ht1.
  split; [|split].
  - destruct (init_heads_lookup filters rf_sizes rf_strides scales nc 0 h0)
      as [E0 _]; [fold self; by rewrite Hh|].
    destruct (init_heads_lookup filters rf_sizes rf_strides scales nc 1 h1)
      as [E1 _]; [fold self; by rewrite Hh|].
    apply (Hinc 0 1); [lia|done..].
  - by apply forward_two_heads.
  - eexists. split; [by apply (flatten_batch_two GT build_targets self B gt h0 h1 H0 W0 H1 W1)|].
    destruct (flat_head_of_shape B H0 W0 l0 t0 Hl0 Ht0)
      as (S1 & S2 & S3 & S4 & S5).
    destruct (flat_head_of_shape B H1 W1 l1 t1 Hl1 Ht1)
      as (S1' & S2' & S3' & S4' & S5').
    repeat (split; [by apply zip_app_shape|]).
    split.
    + intros b r c Hb Hr Hc.
      apply (aligned_app_l B (H0 * W0) (H1 * W1)); try done; [nia|].
      by apply (flat_head_of_at B).
    + intros b r c Hb Hr Hc.
      apply (aligned_app_r B (H0 * W0) (H1 * W1)); try done; [nia|].
      by apply (flat_head_of_at B).
Qed.

(** C6.  Once the mining step has returned its mask, a classification loss
    or a regression loss that is NaN makes [training_step] raise (the
    assertion of line 131) and no loss is returned; when neither is NaN
    the step returns their sum. *)
Theorem nan_loss_raises (self : LFFDTinyPart) (imgs : tensor4) (gt : GT)
    (logits : list tensor4 * list tensor4) (f : flat_head)
    (neg : list (list bool)) :
  forward downsample_conv1 downsample_conv2 res_block1 res_block2 res_block3
    res_block4 head_call self imgs = Ok logits →
  flatten_batch GT build_targets self (length imgs) gt logits.1 logits.2
  = Ok f →
  hard_negative_mining sampler (length imgs)
    (pos_mask (fh_target_cls f) (fh_ignore f))
    (neg_mask (fh_target_cls f) (fh_ignore f)) = Ok neg →
  let cls_loss :=
    cls_loss_of bce (pos_mask (fh_target_cls f) (fh_ignore f)) neg
      (fh_cls_logits f) (fh_target_cls f) in
  let reg_loss :=
    reg_loss_of (pos_mask (fh_target_cls f) (fh_ignore f))
      (fh_reg_logits f) (fh_target_regs f) in
  let out :=
    training_step GT downsample_conv1 downsample_conv2 res_block1 res_block2
      res_block3 res_block4 head_call build_targets bce sampler self
      (imgs, gt) in
  (PrimFloat.is_nan cls_loss || PrimFloat.is_nan reg_loss = true →
   out = Raise AssertionError)
  ∧ (PrimFloat.is_nan cls_loss || PrimFloat.is_nan reg_loss = false →
     out = Ok (cls_loss + reg_loss)%float).
Proof.
  intros Hf Hfl Hm. cbv zeta.
  rewrite (training_step_unfold _ _ _ _ _ Hf Hfl).
  exact (training_loss_nan_check bce sampler (length imgs) _ _ _ _ _ _ Hm).
Qed.


End StepFacts.

(** ** The claims at concrete inputs *)

Lemma negative_cap_witness :
  let pos := [true :: replicate 11 false] in
  let neg := [false :: replicate 11 true] in
  ratio = 10%Z
  ∧ mask_count pos = sum_list (count_true <$> pos)
  ∧ mask_sum pos = Z.of_nat (mask_count pos)
  ∧ negatives_target pos neg
    = Z.min (Z.of_nat (mask_count neg)) (ratio * Z.of_nat (mask_count pos))
  ∧ ∃ rebuilt,
      hard_negative_mining first_n_sampler 1 pos neg = Ok rebuilt
      ∧ (Z.of_nat (mask_count rebuilt) ≤ ratio * Z.of_nat (mask_count pos))%Z
      ∧ mask_count rebuilt ≤ mask_count neg
      ∧ ((ratio * Z.of_nat (mask_count pos) ≤ Z.of_nat (mask_count neg))%Z →
         Z.of_nat (mask_count rebuilt) = (ratio * Z.of_nat (mask_count pos))%Z).
Proof.
  apply (negative_cap first_n_sampler 1 12 [true :: replicate 11 false]
           [false :: replicate 11 true] first_n_sampler_ok).
  - lia.
  - lia.
  - split; [reflexivity|]. repeat constructor.
  - vm_compute. reflexivity.
  - vm_compute. reflexivity.
Defined.

Lemma masks_disjoint_and_cover_witness :
  ∃ p n,
    at2 (pos_mask [[1; 0; 1]]%float [[false; false; true]]) 0 1 = Some p
    ∧ at2 (neg_mask [[1; 0; 1]]%float [[false; false; true]]) 0 1 = Some n
    ∧ p && n = false ∧ p && false = false ∧ n && false = false
    ∧ (PrimFloat.eqb 0 1 || PrimFloat.eqb 0 0 = true → exactly_one p n false).
Proof.
  apply (masks_disjoint_and_cover [[1; 0; 1]]%float [[false; false; true]]
           0 1 0%float false); reflexivity.
Defined.

(** C3 as stated fails for a label that is neither 0 nor 1: the location
    with label 2 that is not ignored is in neither mask. *)
Lemma label_two_uncovered :
  at2 (pos_mask [[2]]%float [[false]]) 0 0 = Some false
  ∧ at2 (neg_mask [[2]]%float [[false]]) 0 0 = Some false
  ∧ at2 [[false]] 0 0 = Some false.
Proof. repeat split; reflexivity. Qed.

Lemma default_scales_increasing : increasing_scales (default __SCALES__ None).
Proof.
  intros i j a b Hij Hi Hj. simpl in *.
  destruct i as [|[|i]], j as [|[|j]]; simpl in *; try lia; try done.
  injection Hi as <-. injection Hj as <-. by split.
Qed.

Lemma heads_order_and_alignment_witness :
  let self := __init__ None None None None 1 in
  let h0 := HeadConfig 1 64 55 4 10 15 1 in
  let h1 := HeadConfig 2 64 71 4 15 20 1 in
  let l := example_logits in
  let t := example_targets in
  band_lt (lower_scale h0, upper_scale h0) (lower_scale h1, upper_scale h1)
  ∧ forward (λ x, x) (λ x, x) (λ x, x) (λ x, x) (λ x, x) (λ x, x)
      (λ _ _, l) self [[[[0%float]]]]
    = Ok ([l.1; l.1], [l.2; l.2])
  ∧ ∃ f,
      flatten_batch unit (λ _ _ _, t) self 1 tt [l.1; l.1] [l.2; l.2] = Ok f
      ∧ has_shape 1 (1 * 2 + 1 * 2) (fh_cls_logits f)
      ∧ has_shape 1 (1 * 2 + 1 * 2) (fh_reg_logits f)
      ∧ has_shape 1 (1 * 2 + 1 * 2) (fh_target_cls f)
      ∧ has_shape 1 (1 * 2 + 1 * 2) (fh_target_regs f)
      ∧ has_shape 1 (1 * 2 + 1 * 2) (fh_ignore f)
      ∧ (∀ b r c, b < 1 → r < 1 → c < 2 → aligned f b (r * 2 + c) l t r c)
      ∧ (∀ b r c, b < 1 → r < 1 → c < 2 →
           aligned f b (1 * 2 + (r * 2 + c)) l t r c).
Proof.
  apply (heads_order_and_alignment unit (λ x, x) (λ x, x) (λ x, x) (λ x, x)
           (λ x, x) (λ x, x) (λ _ _, example_logits) (λ _ _ _, example_targets)
           None None None None 1 [[[[0%float]]]] tt
           (HeadConfig 1 64 55 4 10 15 1) (HeadConfig 2 64 71 4 15 20 1)
           1 2 1 2).
  - apply default_scales_increasing.
  - reflexivity.
  - simpl. lia.
  - lia.
  - lia.
  - lia.
  - lia.
  - repeat split; repeat constructor.
  - repeat split; repeat constructor.
  - repeat split; repeat constructor.
  - repeat split; repeat constructor.
Defined.

(** the flattened example: both heads' logits, head 1 first *)
Example flatten_batch_example :
  fh_cls_logits <$>
    raised_value
      (flatten_batch unit (λ _ _ _, example_targets)
         (__init__ None None None None 1) 1 tt
         [example_logits.1; example_logits.1]
         [example_logits.2; example_logits.2])
  = Some [[0.5; -0.5; 0.5; -0.5]]%float.
Proof. reflexivity. Qed.

(** the example detector: the class defaults, a backbone that returns its
    input, heads that return the example logits, targets [t] for every
    head; the squared error stands for torch's pointwise loss *)
Lemma example_forward :
  forward (λ x, x) (λ x, x) (λ x, x) (λ x, x) (λ x, x) (λ x, x)
    (λ _ _, example_logits) example_detector [[[[0%float]]]]
  = Ok ([example_logits.1; example_logits.1],
        [example_logits.2; example_logits.2]).
Proof. reflexivity. Qed.

Lemma example_flatten
    (t : list (list (list float)) * tensor4 * list (list (list bool))) :
  t = example_targets ∨ t = example_targets_negative →
  flatten_batch unit (λ _ _ _, t) example_detector 1 tt
    [example_logits.1; example_logits.1] [example_logits.2; example_logits.2]
  = Ok (example_flat t).
Proof. intros [-> | ->]; reflexivity. Qed.

Lemma zero_positives_raise_witness :
  let f := example_flat example_targets_negative in
  let pos := pos_mask (fh_target_cls f) (fh_ignore f) in
  ∃ neg,
    hard_negative_mining first_n_sampler 1 pos
      (neg_mask (fh_target_cls f) (fh_ignore f)) = Ok neg
    ∧ mask_count neg = 0
    ∧ masked_select (mask_or pos neg) (fh_cls_logits f) = []
    ∧ masked_select pos (fh_reg_logits f) = []
    ∧ PrimFloat.is_nan
        (cls_loss_of squared_error pos neg (fh_cls_logits f)
           (fh_target_cls f)) = true
    ∧ PrimFloat.is_nan
        (reg_loss_of pos (fh_reg_logits f) (fh_target_regs f)) = true
    ∧ training_step unit (λ x, x) (λ x, x) (λ x, x) (λ x, x) (λ x, x)
        (λ x, x) (λ _ _, example_logits) (λ _ _ _, example_targets_negative)
        squared_error first_n_sampler example_detector ([[[[0%float]]]], tt)
      = Raise AssertionError.
Proof.
  apply (zero_positives_raise unit (λ x, x) (λ x, x) (λ x, x) (λ x, x)
           (λ x, x) (λ x, x) (λ _ _, example_logits)
           (λ _ _ _, example_targets_negative) squared_error first_n_sampler
           example_detector [[[[0%float]]]] tt
           ([example_logits.1; example_logits.1],
            [example_logits.2; example_logits.2])
           (example_flat example_targets_negative) 4).
  - apply first_n_sampler_ok.
  - apply example_forward.
  - apply example_flatten. by right.
  - simpl. lia.
  - lia.
  - split; [reflexivity|]. repeat constructor.
  - split; [reflexivity|]. repeat constructor.
  - vm_compute. reflexivity.
  - vm_compute. reflexivity.
Defined.

(** C2.  The code breaks the claim: on a batch of one image without a
    positive location (four negatives, nothing ignored) the step fails
    its own assertion of line 131, whatever the pointwise loss is, where
    the claim has it return a loss to which neither term contributes. *)
Lemma zero_positives_no_loss :
  (λ bce : float → float → float,
     training_step unit (λ x, x) (λ x, x) (λ x, x) (λ x, x) (λ x, x)
       (λ x, x) (λ _ _, example_logits) (λ _ _ _, example_targets_negative)
       bce first_n_sampler example_detector ([[[[0%float]]]], tt))
  = (λ _, Raise AssertionError).
Proof. vm_compute. reflexivity. Qed.


Lemma nan_loss_raises_witness :
  let f := example_flat example_targets in
  let neg := [[false; false; false; false]] in
  let cls_loss :=
    cls_loss_of squared_error (pos_mask (fh_target_cls f) (fh_ignore f)) neg
      (fh_cls_logits f) (fh_target_cls f) in
  let reg_loss :=
    reg_loss_of (pos_mask (fh_target_cls f) (fh_ignore f))
      (fh_reg_logits f) (fh_target_regs f) in
  let out :=
    training_step unit (λ x, x) (λ x, x) (λ x, x) (λ x, x) (λ x, x)
      (λ x, x) (λ _ _, example_logits) (λ _ _ _, example_targets)
      squared_error first_n_sampler example_detector ([[[[0%float]]]], tt) in
  (PrimFloat.is_nan cls_loss || PrimFloat.is_nan reg_loss = true →
   out = Raise AssertionError)
  ∧ (PrimFloat.is_nan cls_loss || PrimFloat.is_nan reg_loss = false →
     out = Ok (cls_loss + reg_loss)%float).
Proof.
  apply (nan_loss_raises unit (λ x, x) (λ x, x) (λ x, x) (λ x, x)
           (λ x, x) (λ x, x) (λ _ _, example_logits)
           (λ _ _ _, example_targets) squared_error first_n_sampler
           example_detector [[[[0%float]]]] tt
           ([example_logits.1; example_logits.1],
            [example_logits.2; example_logits.2])
           (example_flat example_targets) [[false; false; false; false]]).
  - apply example_forward.
  - apply example_flatten. by left.
  - vm_compute. reflexivity.
Defined.

(** the step on the example batch returns a loss *)
Example training_step_returns :
  raised
    (training_step unit (λ x, x) (λ x, x) (λ x, x) (λ x, x) (λ x, x)
       (λ x, x) (λ _ _, example_logits) (λ _ _ _, example_targets)
       squared_error first_n_sampler example_detector ([[[[0%float]]]], tt))
  = None.
Proof. vm_compute. reflexivity. Qed.


(** ** The constructor and the number of heads *)

Lemma init_heads_length (filters rf_sizes rf_strides : option (list Z))
    (scales : option (list (Z * Z))) (nc : Z) :
  length (heads (__init__ filters rf_sizes rf_strides scales nc))
  = Nat.min (Nat.min (Nat.min (length (default __FILTERS__ filters))
                               (length (default __RF_SIZES__ rf_sizes)))
                      (length (default __RF_STRIDES__ rf_strides)))
            (length (default __SCALES__ scales)).
Proof. unfold __init__. simpl. by rewrite length_imap, !length_zip. Qed.

Lemma init_heads_entry (filters rf_sizes rf_strides : option (list Z))
    (scales : option (list (Z * Z))) (nc : Z) (i : nat) (h : head_config) :
  heads (__init__ filters rf_sizes rf_strides scales nc) !! i = Some h
  ↔ ∃ f rs rst lo up,
      default __FILTERS__ filters !! i = Some f
      ∧ default __RF_SIZES__ rf_sizes !! i = Some rs
      ∧ default __RF_STRIDES__ rf_strides !! i = Some rst
      ∧ default __SCALES__ scales !! i = Some (lo, up)
      ∧ h = HeadConfig (i + 1) f rs rst lo up nc.
Proof.
  unfold __init__. simpl. rewrite list_lookup_imap. split.
  - destruct (zip _ _ !! i) as [[[[f rs] rst] [lo up]]|] eqn:E;
      simpl; [|done].
    intros [= <-].
    apply lookup_zip_with_Some in E as (x & y & [= <- <-] & E & Hs).
    apply lookup_zip_with_Some in E as (x & y & [= <- <-] & E & Hrst).
    apply lookup_zip_with_Some in E as (x & y & [= <- <-] & Hf & Hrs).
    by exists f, rs, rst, lo, up.
  - intros (f & rs & rst & lo & up & Hf & Hrs & Hrst & Hs & ->).
    assert (zip (zip (zip (default __FILTERS__ filters)
                          (default __RF_SIZES__ rf_sizes))
                     (default __RF_STRIDES__ rf_strides))
                (default __SCALES__ scales) !! i
            = Some (f, rs, rst, (lo, up))) as ->; [|done].
    by rewrite !lookup_zip_Some.
Qed.

(** X1.  [__init__] never raises: the four lists are zipped, so there are
    as many heads as the shortest of them has entries and the further
    entries of the longer ones are dropped; head [i] (from 0) is built
    from the [i]-th entry of each list, with number [i + 1] and the given
    [num_classes]; an argument that is [None] is the class default. *)
Theorem init_zips_to_shortest (filters rf_sizes rf_strides : option (list Z))
    (scales : option (list (Z * Z))) (nc : Z) :
  let self := __init__ filters rf_sizes rf_strides scales nc in
  num_classes self = nc
  ∧ length (heads self)
    = Nat.min (Nat.min (Nat.min (length (default __FILTERS__ filters))
                                 (length (default __RF_SIZES__ rf_sizes)))
                        (length (default __RF_STRIDES__ rf_strides)))
              (length (default __SCALES__ scales))
  ∧ ∀ i h,
      heads self !! i = Some h
      ↔ ∃ f rs rst lo up,
          default __FILTERS__ filters !! i = Some f
          ∧ default __RF_SIZES__ rf_sizes !! i = Some rs
          ∧ default __RF_STRIDES__ rf_strides !! i = Some rst
          ∧ default __SCALES__ scales !! i = Some (lo, up)
          ∧ h = HeadConfig (i + 1) f rs rst lo up nc.
Proof.
  intros self. split; [done|]. split; [apply init_heads_length|].
  apply init_heads_entry.
Qed.

Section MoreStepFacts.

Variable GT : Type.
Variables downsample_conv1 downsample_conv2 : tensor4 → tensor4.
Variables res_block1 res_block2 res_block3 res_block4 : tensor4 → tensor4.
Variable head_call : head_config → tensor4 → tensor4 * tensor4.
Variable build_targets :
  head_config → nat * nat → GT →
  list (list (list float)) * tensor4 * list (list (list bool)).
Variable bce : float → float → float.
Variable sampler : list nat → Z → list nat.

Local Abbreviation fwd :=
  (forward downsample_conv1 downsample_conv2 res_block1 res_block2 res_block3
     res_block4 head_call).
Local Abbreviation step :=
  (training_step GT downsample_conv1 downsample_conv2 res_block1 res_block2
     res_block3 res_block4 head_call build_targets bce sampler).

Lemma forward_short (self : LFFDTinyPart) (x : tensor4) :
  length (heads self) < 2 → fwd self x = Raise IndexError.
Proof.
  unfold forward, features. destruct (heads self) as [|h0 [|h1 rest]]; simpl.
  - done.
  - intros _. by destruct (head_call h0 _).
  - lia.
Qed.

Lemma forward_first_two (self : LFFDTinyPart) (x : tensor4)
    (h0 h1 : head_config) (rest : list head_config) :
  heads self = h0 :: h1 :: rest →
  let f0 := feature_c8 downsample_conv1 downsample_conv2 res_block1 res_block2
              res_block3 x in
  let f1 := res_block4 f0 in
  fwd self x
  = Ok ([(head_call h0 f0).1; (head_call h1 f1).1],
        [(head_call h0 f0).2; (head_call h1 f1).2]).
Proof.
  intros Hh f0 f1. unfold forward, features. rewrite Hh. simpl.
  fold f0. fold f1.
  destruct (head_call h0 f0) as [c0 r0]. by destruct (head_call h1 f1) as [c1 r1].
Qed.

(** X2.  [forward] computes two feature maps and applies head 0 to the
    first and head 1 to the second: with fewer than two heads it raises
    [IndexError], with two or more it returns two classification and two
    regression logits, and no head after the second is called. *)
Theorem forward_uses_first_two_heads (self : LFFDTinyPart) (x : tensor4) :
  let f0 := feature_c8 downsample_conv1 downsample_conv2 res_block1 res_block2
              res_block3 x in
  let f1 := res_block4 f0 in
  fwd self x
  = match heads self with
    | h0 :: h1 :: _ =>
        Ok ([(head_call h0 f0).1; (head_call h1 f1).1],
            [(head_call h0 f0).2; (head_call h1 f1).2])
    | _ => Raise IndexError
    end.
Proof.
  intros f0 f1. destruct (heads self) as [|h0 [|h1 rest]] eqn:Hh.
  - apply forward_short. rewrite Hh. simpl. lia.
  - apply forward_short. rewrite Hh. simpl. lia.
  - by apply (forward_first_two self x h0 h1 rest).
Qed.

(** the exceptions of the views *)
Lemma view2_error {A} (batch_size : nat) (flat : list A) (e : exn) :
  view2 batch_size flat = Raise e → e = RuntimeError.
Proof.
  unfold view2. destruct (_ || _); [congruence|].
  destruct (negb _); congruence.
Qed.

Lemma view3_error {A} (batch_size k : nat) (flat : list A) (e : exn) :
  view3 batch_size k flat = Raise e → e = RuntimeError.
Proof.
  unfold view3. destruct (view2 batch_size flat) as [rows|e'] eqn:E; simpl.
  - destruct (forallb _ _); congruence.
  - intros [= <-]. by apply view2_error in E.
Qed.

Lemma flatten_head_error (B : nat) (gt : GT) (h : head_config)
    (c r : tensor4) (e : exn) :
  flatten_head GT build_targets B gt h c r = Raise e → e = RuntimeError.
Proof.
  unfold flatten_head. destruct (shape_hw c) as [fh fw].
  destruct (build_targets h (fh, fw) gt) as [[tc tr] ig].
  destruct (view2 B (flat4 (permute_0231 c))) eqn:E1; simpl;
    [|intros [= <-]; by apply view2_error in E1].
  destruct (view3 B 4 (flat4 (permute_0231 r))) eqn:E2; simpl;
    [|intros [= <-]; by apply view3_error in E2].
  destruct (view2 B (flat3 tc)) eqn:E3; simpl;
    [|intros [= <-]; by apply view2_error in E3].
  destruct (view3 B 4 (flat4 tr)) eqn:E4; simpl;
    [|intros [= <-]; by apply view3_error in E4].
  destruct (view2 B (flat3 ig)) eqn:E5; simpl;
    [|intros [= <-]; by apply view2_error in E5].
  done.
Qed.

Lemma flatten_head_empty_batch (gt : GT) (h : head_config) (c r : tensor4) :
  flatten_head GT build_targets 0 gt h c r = Raise RuntimeError.
Proof.
  unfold flatten_head. destruct (shape_hw c) as [fh fw].
  destruct (build_targets h (fh, fw) gt) as [[tc tr] ig].
  unfold view2 at 1. by rewrite orb_true_r.
Qed.

(** with a third head the loop of lines 88-103 reads past the two logits *)
Lemma flatten_heads_third (B : nat) (gt : GT) (h0 h1 h2 : head_config)
    (rest : list head_config) (c0 c1 r0 r1 : tensor4) :
  flatten_heads GT build_targets B gt (h0 :: h1 :: h2 :: rest) 0
    [c0; c1] [r0; r1] = Raise IndexError
  ∨ flatten_heads GT build_targets B gt (h0 :: h1 :: h2 :: rest) 0
      [c0; c1] [r0; r1] = Raise RuntimeError.
Proof.
  simpl.
  destruct (flatten_head GT build_targets B gt h0 c0 r0) as [f0|e0] eqn:E0;
    simpl; [|right; by rewrite (flatten_head_error _ _ _ _ _ _ E0)].
  destruct (flatten_head GT build_targets B gt h1 c1 r1) as [f1|e1] eqn:E1;
    simpl; [|right; by rewrite (flatten_head_error _ _ _ _ _ _ E1)].
  by left.
Qed.

(** X3.  [training_step] returns a loss for detectors with exactly two
    heads only: with fewer [forward] raises [IndexError], and with more
    the loop over [len(self.heads)] reads [cls_logits[2]], which
    [forward] did not return, unless a [view] of the first two rounds
    has raised [RuntimeError] before. *)
Theorem training_step_needs_two_heads (self : LFFDTinyPart)
    (batch : tensor4 * GT) :
  (length (heads self) < 2 → step self batch = Raise IndexError)
  ∧ (2 < length (heads self) →
     step self batch = Raise IndexError ∨ step self batch = Raise RuntimeError)
  ∧ (∀ loss, step self batch = Ok loss → length (heads self) = 2).
Proof.
  destruct batch as [imgs gt].
  assert (length (heads self) < 2 → step self (imgs, gt) = Raise IndexError)
    as Hshort.
  { intros Hlt. unfold training_step. by rewrite forward_short. }
  assert (2 < length (heads self) →
          step self (imgs, gt) = Raise IndexError
          ∨ step self (imgs, gt) = Raise RuntimeError) as Hlong.
  { intros Hgt. destruct (heads self) as [|h0 [|h1 [|h2 rest]]] eqn:Hh;
      simpl in Hgt; try lia.
    unfold training_step. rewrite (forward_first_two self imgs h0 h1 (h2 :: rest) Hh).
    simpl. unfold flatten_batch. rewrite Hh.
    destruct (flatten_heads_third (length imgs) gt h0 h1 h2 rest
                (head_call h0 (feature_c8 downsample_conv1 downsample_conv2
                   res_block1 res_block2 res_block3 imgs)).1
                (head_call h1 (res_block4 (feature_c8 downsample_conv1
                   downsample_conv2 res_block1 res_block2 res_block3 imgs))).1
                (head_call h0 (feature_c8 downsample_conv1 downsample_conv2
                   res_block1 res_block2 res_block3 imgs)).2
                (head_call h1 (res_block4 (feature_c8 downsample_conv1
                   downsample_conv2 res_block1 res_block2 res_block3 imgs))).2)
      as [-> | ->]; [by left|by right]. }
  split; [done|]. split; [done|].
  intros loss Hok.
  destruct (decide (length (heads self) < 2)) as [Hlt|Hge].
  { rewrite (Hshort Hlt) in Hok. done. }
  destruct (decide (2 < length (heads self))) as [Hgt|Hle]; [|lia].
  destruct (Hlong Hgt) as [E|E]; rewrite E in Hok; done.
Qed.

(** X4.  On an empty batch [training_step] raises [RuntimeError]: for
    [batch_size = 0] the first [view(batch_size, -1)] cannot infer the
    other size. *)
Theorem empty_batch_raises (self : LFFDTinyPart) (gt : GT) :
  2 ≤ length (heads self) → step self ([], gt) = Raise RuntimeError.
Proof.
  intros Hge. destruct (heads self) as [|h0 [|h1 rest]] eqn:Hh;
    simpl in Hge; try lia.
  unfold training_step.
  rewrite (forward_first_two self [] h0 h1 rest Hh). simpl.
  unfold flatten_batch. rewrite Hh. simpl.
  by rewrite flatten_head_empty_batch.
Qed.

End MoreStepFacts.

(** ** What the mining step selects *)

Lemma length_chunks {A} (n rows : nat) (l : list A) :
  length (chunks n rows l) = rows.
Proof. revert l. induction rows as [|r IH]; intros l; simpl; [done|]. by rewrite IH. Qed.

Lemma chunks_rows {A} (n rows : nat) (l : list A) :
  length l = rows * n → Forall (λ r, length r = n) (chunks n rows l).
Proof.
  revert l. induction rows as [|r IH]; intros l Hl; simpl; [constructor|].
  constructor.
  - rewrite length_take. simpl in Hl. lia.
  - apply IH. rewrite length_drop. simpl in Hl. lia.
Qed.

Lemma chunks_shape {A} (n rows : nat) (l : list A) :
  length l = rows * n → has_shape rows n (chunks n rows l).
Proof. intros Hl. split; [apply length_chunks|by apply chunks_rows]. Qed.

(** an entry of a (B, L) tensor is at offset [b * L + l] of its flat view *)
Lemma at2_flat {A} (B L : nat) (t : list (list A)) (b l : nat) (x : A) :
  has_shape B L t → at2 t b l = Some x →
  b < B ∧ l < L ∧ concat t !! (b * L + l) = Some x.
Proof.
  intros [Hlen Hrows] Hx. unfold at2 in Hx.
  destruct (t !! b) as [row|] eqn:Eb; simpl in Hx; [|done].
  assert (length row = L) as Hrow.
  { rewrite Forall_forall in Hrows. apply Hrows.
    by eapply list_elem_of_lookup_2. }
  assert (l < L) as Hl by (rewrite <- Hrow; by eapply lookup_lt_Some).
  split; [rewrite <- Hlen; by eapply lookup_lt_Some|]. split; [done|].
  rewrite (lookup_concat_uniform L) by done. by rewrite Eb.
Qed.

Lemma flat_at2 {A} (B L : nat) (t : list (list A)) (b l : nat) :
  has_shape B L t → l < L → at2 t b l = concat t !! (b * L + l).
Proof.
  intros [Hlen Hrows] Hl. by rewrite (lookup_concat_uniform L).
Qed.

Lemma put_all_lookup_true (ss : list nat) (n i : nat) :
  put_all ss (replicate n false) !! i = Some true → i ∈ ss.
Proof.
  intros H. destruct (decide (i ∈ ss)) as [|Hni]; [done|].
  rewrite put_all_lookup_notin in H by done.
  apply lookup_replicate in H as [? _]. done.
Qed.

(** the mask rebuilt from indices of negatives is set at negatives only *)
Lemma rebuilt_within (B L : nat) (neg : list (list bool)) (ss : list nat) :
  has_shape B L neg →
  (∀ i, i ∈ ss → i ∈ where_true (concat neg)) →
  ∀ b l,
    at2 (chunks L B (put_all ss (replicate (B * L) false))) b l = Some true →
    at2 neg b l = Some true.
Proof.
  intros Hneg Hss b l Hbl.
  assert (length (put_all ss (replicate (B * L) false)) = B * L) as Hflat
    by (by rewrite put_all_length, length_replicate).
  destruct (at2_flat B L _ b l true (chunks_shape L B _ Hflat) Hbl)
    as (Hb & Hl & Hlookup).
  rewrite concat_chunks in Hlookup by done.
  apply put_all_lookup_true, Hss, where_true_lookup in Hlookup.
  by rewrite (flat_at2 B L).
Qed.

(** the mining step with a sampler that returns entries of the population *)
Lemma mining_returns (sampler : list nat → Z → list nat) (B L : nat)
    (pos neg : list (list bool)) :
  0 < B → 0 < L → has_shape B L neg →
  (∀ i, i ∈ sampler (where_true (concat neg)) (negatives_target pos neg) →
        i ∈ where_true (concat neg)) →
  hard_negative_mining sampler B pos neg
  = Ok (chunks L B
          (put_all (sampler (where_true (concat neg)) (negatives_target pos neg))
             (replicate (B * L) false))).
Proof.
  intros HB HL [Hlen Hrows] Hss. unfold hard_negative_mining.
  assert (length (concat neg) = B * L) as Hflat.
  { rewrite (length_concat_uniform L) by done. by rewrite Hlen. }
  rewrite concat_cleared, Hflat, index_put_true_ok.
  - simpl. apply view2_ok; [done..|].
    by rewrite put_all_length, length_replicate.
  - intros i Hi. rewrite length_replicate, <- Hflat.
    apply Hss, where_true_lookup in Hi. by apply lookup_lt_Some in Hi.
Qed.

(** X5.  When the sampler returns entries of the population it is given,
    the mining step returns a mask of the shape of the negative mask that
    is set only where the negative mask was set; a positive mask that did
    not meet the negative mask does not meet the rebuilt one. *)
Theorem mined_negatives_within_negatives (sampler : list nat → Z → list nat)
    (B L : nat) (pos neg : list (list bool)) :
  (∀ population select_n i,
     i ∈ sampler population select_n → i ∈ population) →
  0 < B → 0 < L → has_shape B L neg →
  ∃ rebuilt,
    hard_negative_mining sampler B pos neg = Ok rebuilt
    ∧ has_shape B L rebuilt
    ∧ (∀ b l, at2 rebuilt b l = Some true → at2 neg b l = Some true)
    ∧ (¬ masks_overlap pos neg → ¬ masks_overlap pos rebuilt).
Proof.
  intros Hs HB HL Hneg.
  eexists. split; [apply (mining_returns sampler B L); [done..|]; apply Hs|].
  assert (∀ b l,
    at2 (chunks L B
           (put_all (sampler (where_true (concat neg))
                       (negatives_target pos neg))
              (replicate (B * L) false))) b l = Some true →
    at2 neg b l = Some true) as Hin.
  { apply rebuilt_within; [done|]. apply Hs. }
  split; [|split; [done|]].
  - apply chunks_shape. by rewrite put_all_length, length_replicate.
  - intros Hno (b & l & Hp & Hr). apply Hno. exists b, l. split; [done|].
    by apply Hin.
Qed.

Lemma mined_negatives_within_negatives_witness :
  ∃ rebuilt,
    hard_negative_mining first_n_sampler 1 [[true; false; false]]
      [[false; true; true]] = Ok rebuilt
    ∧ has_shape 1 3 rebuilt
    ∧ (∀ b l, at2 rebuilt b l = Some true
              → at2 [[false; true; true]] b l = Some true)
    ∧ (¬ masks_overlap [[true; false; false]] [[false; true; true]]
       → ¬ masks_overlap [[true; false; false]] rebuilt).
Proof.
  apply (mined_negatives_within_negatives first_n_sampler 1 3).
  - intros population select_n i Hi. unfold first_n_sampler in Hi.
    by apply (subseteq_take _ population) in Hi.
  - lia.
  - lia.
  - split; [reflexivity|]. by repeat constructor.
Defined.

(** ** The sizes of the two selections *)

Lemma select_row_length {A} (m : list bool) (xs : list A) :
  length m = length xs → length (select_row m xs) = count_true m.
Proof.
  revert xs. induction m as [|b m IH]; intros [|x xs] Hl; simpl in *;
    try done.
  destruct b; simpl; rewrite IH by lia; done.
Qed.

Lemma masked_select_length {A} (B L : nat) (mask : list (list bool))
    (t : list (list A)) :
  has_shape B L mask → has_shape B L t →
  length (masked_select mask t) = mask_count mask.
Proof.
  intros [Hlm Hm] [Hlt Ht]. unfold masked_select, mask_count.
  revert B t Hlm Hlt Ht.
  induction Hm as [|r mask Hr Hm IH]; intros B [|x t] Hlm Hlt Ht; simpl;
    try done.
  { simpl in *. lia. }
  inversion Ht as [|? ? Hx Ht']; subst.
  rewrite length_app, count_true_app, select_row_length by lia.
  f_equal. apply (IH (length mask)); [done| |done]. simpl in *. lia.
Qed.

Lemma count_true_zip_orb (a b : list bool) :
  length a = length b →
  (∀ i, a !! i = Some true → b !! i = Some true → False) →
  count_true (zip_with orb a b) = count_true a + count_true b.
Proof.
  revert b. induction a as [|x a IH]; intros [|y b] Hl Hd; simpl in *;
    try done.
  rewrite IH; [|lia|intros i; apply (Hd (S i))].
  destruct x, y; simpl; try lia.
  exfalso. by apply (Hd 0).
Qed.

Lemma mask_or_count (B L : nat) (a b : list (list bool)) :
  has_shape B L a → has_shape B L b → ¬ masks_overlap a b →
  mask_count (mask_or a b) = mask_count a + mask_count b.
Proof.
  intros [Hla Ha] [Hlb Hb] Hd. unfold mask_count, mask_or.
  revert B b Hla Hlb Hb Hd.
  induction Ha as [|r a Hr Ha IH]; intros B [|r' b] Hla Hlb Hb Hd; simpl;
    try done; try (simpl in *; lia).
  inversion Hb as [|? ? Hr' Hb']; subst.
  rewrite !count_true_app, count_true_zip_orb.
  - rewrite (IH (length a) b); [lia|done| |done|].
    + simpl in *. lia.
    + intros (i & j & H1 & H2). apply Hd. by exists (S i), j.
  - lia.
  - intros i H1 H2. apply Hd. by exists 0, i.
Qed.

(** X6.  With P positive and N negative locations, the classification
    loss is the mean over P + min(N, ratio * P) logits, the positives and
    the negatives that were kept, and the regression loss is the mean
    over the boxes of the P positives. *)
Theorem loss_selection_sizes (sampler : list nat → Z → list nat) (B L : nat)
    (target_cls cls_logits : list (list float))
    (reg_logits : list (list (list float))) (ignore : list (list bool)) :
  sampler_ok sampler → 0 < B → 0 < L →
  has_shape B L target_cls → has_shape B L ignore →
  has_shape B L cls_logits → has_shape B L reg_logits →
  (ratio * Z.of_nat (B * L) < 2 ^ 63)%Z →
  let pos := pos_mask target_cls ignore in
  let neg := neg_mask target_cls ignore in
  ∃ rebuilt,
    hard_negative_mining sampler B pos neg = Ok rebuilt
    ∧ Z.of_nat (length (masked_select (mask_or pos rebuilt) cls_logits))
      = (Z.of_nat (mask_count pos)
         + Z.min (Z.of_nat (mask_count neg))
                 (ratio * Z.of_nat (mask_count pos)))%Z
    ∧ length (masked_select pos reg_logits) = mask_count pos.
Proof.
  intros Hs HB HL Htc Hig Hcl Hrl Hfit pos neg.
  assert (has_shape B L pos) as Hpos.
  { apply has_shape_zip_with; by apply has_shape_map. }
  assert (has_shape B L neg) as Hneg by by apply neg_mask_shape.
  pose proof (mask_count_le_numel B L pos Hpos) as HP.
  pose proof (mask_count_le_numel B L neg Hneg) as HN.
  destruct (mining_result sampler Hs B L pos neg) as (ss & Hsub & Hk & Hres);
    [done..|by destruct Hneg|by destruct Hneg|unfold ratio in *; lia
    |unfold ratio in *; lia|].
  eexists. split; [exact Hres|].
  assert (length (concat neg) = B * L) as Hflat.
  { destruct Hneg as [Hlen Hrows].
    rewrite (length_concat_uniform L) by done. by rewrite Hlen. }
  assert (has_shape B L (chunks L B (put_all ss (replicate (B * L) false))))
    as Hreb.
  { apply chunks_shape. by rewrite put_all_length, length_replicate. }
  split; [|by apply (masked_select_length B L)].
  rewrite (masked_select_length B L); [| |done].
  2: { apply has_shape_zip_with; done. }
  rewrite (mask_or_count B L); [|done..|].
  - rewrite (count_rebuilt B L neg ss Hsub Hflat). lia.
  - intros (b & l & Hp & Hr).
    apply (rebuilt_within B L neg ss Hneg) in Hr.
    + apply pos_neg_disjoint in Hp. unfold neg in Hr. congruence.
    + intros i Hi. by apply (elem_of_submseteq _ _ _ Hi) in Hsub.
Qed.

Lemma empty_batch_raises_witness :
  training_step unit (λ x, x) (λ x, x) (λ x, x) (λ x, x) (λ x, x) (λ x, x)
    (λ _ _, example_logits) (λ _ _ _, example_targets) squared_error
    first_n_sampler example_detector ([], tt)
  = Raise RuntimeError.
Proof.
  apply (empty_batch_raises unit (λ x, x) (λ x, x) (λ x, x) (λ x, x) (λ x, x)
           (λ x, x) (λ _ _, example_logits) (λ _ _ _, example_targets)
           squared_error first_n_sampler example_detector tt).
  simpl. lia.
Defined.

Lemma loss_selection_sizes_witness :
  let f := example_flat example_targets in
  let pos := pos_mask (fh_target_cls f) (fh_ignore f) in
  let neg := neg_mask (fh_target_cls f) (fh_ignore f) in
  ∃ rebuilt,
    hard_negative_mining first_n_sampler 1 pos neg = Ok rebuilt
    ∧ Z.of_nat (length (masked_select (mask_or pos rebuilt) (fh_cls_logits f)))
      = (Z.of_nat (mask_count pos)
         + Z.min (Z.of_nat (mask_count neg))
                 (ratio * Z.of_nat (mask_count pos)))%Z
    ∧ length (masked_select pos (fh_reg_logits f)) = mask_count pos.
Proof.
  apply (loss_selection_sizes first_n_sampler 1 4
           (fh_target_cls (example_flat example_targets))
           (fh_cls_logits (example_flat example_targets))
           (fh_reg_logits (example_flat example_targets))
           (fh_ignore (example_flat example_targets))).
  - apply first_n_sampler_ok.
  - lia.
  - lia.
  - split; [reflexivity|]. repeat constructor.
  - split; [reflexivity|]. repeat constructor.
  - split; [reflexivity|]. repeat constructor.
  - split; [reflexivity|]. repeat constructor.
  - vm_compute. reflexivity.
Defined.

End TinyFacts.


(** * Facts about fastface/dataset/base.py *)

Module DatasetFacts.

Import Dataset.

(** ** _load_image (lines 47-69) *)

Lemma map_to_uint8_stack (c : float → Z) (data : list scalar) :
  map (to_uint8 c) (flat_map (λ x, [x; x; x]) data)
  = flat_map (λ x, [to_uint8 c x; to_uint8 c x; to_uint8 c x]) data.
Proof. induction data as [|x data IH]; simpl; [done|]. by rewrite IH. Qed.

(** C10.  Whatever array [imread] returns, [_load_image] returns an array
    of dtype uint8; a 2-d array (h, w) becomes (h, w, 3) with every entry
    three times in a row; a 3-d array keeps its shape, so an (h, w, 4)
    array is returned with its 4 channels. *)
Theorem load_image_dtype_and_channels (float_to_uint8 : float → Z)
    (imread : string → result ndarray) (path : string) (img : ndarray) :
  imread path = Ok img →
  ∃ out,
    _load_image float_to_uint8 imread path = Ok out
    ∧ nd_dtype out = UInt8
    ∧ (∀ h w, nd_shape img = [h; w] →
         nd_shape out = [h; w; 3]
         ∧ nd_data out
           = flat_map (λ x, let y := to_uint8 float_to_uint8 x in [y; y; y])
               (nd_data img))
    ∧ (length (nd_shape img) = 3 →
         nd_shape out = nd_shape img
         ∧ nd_data out = map (to_uint8 float_to_uint8) (nd_data img))
    ∧ (∀ h w, nd_shape img = [h; w; 4] → nd_shape out = [h; w; 4]).
Proof.
  intros Hread. unfold _load_image. rewrite Hread. simpl.
  eexists. split; [done|]. split; [done|].
  assert (nd_shape (if negb (nd_c_contiguous img)
                    then ascontiguousarray img else img) = nd_shape img) as Hs
    by (by destruct (nd_c_contiguous img)).
  assert (nd_data (if negb (nd_c_contiguous img)
                   then ascontiguousarray img else img) = nd_data img) as Hd
    by (by destruct (nd_c_contiguous img)).
  rewrite Hs. split; [|split].
  - intros h w Hshape. rewrite Hshape. simpl. rewrite Hs, Hd, Hshape.
    split; [done|]. apply map_to_uint8_stack.
  - intros Hlen. rewrite Hlen. simpl. by rewrite Hs, Hd.
  - intros h w Hshape. rewrite Hshape. simpl. by rewrite Hs.
Qed.

Lemma load_image_dtype_and_channels_witness :
  let img := NdArray UInt16 [1; 2] true [SInt 300; SInt 5] in
  let c := λ _ : float, 0%Z in
  ∃ out,
    _load_image c (λ _, Ok img) "gray.png" = Ok out
    ∧ nd_dtype out = UInt8
    ∧ (∀ h w, nd_shape img = [h; w] →
         nd_shape out = [h; w; 3]
         ∧ nd_data out
           = flat_map (λ x, let y := to_uint8 c x in [y; y; y]) (nd_data img))
    ∧ (length (nd_shape img) = 3 →
         nd_shape out = nd_shape img
         ∧ nd_data out = map (to_uint8 c) (nd_data img))
    ∧ (∀ h w, nd_shape img = [h; w; 4] → nd_shape out = [h; w; 4]).
Proof.
  apply (load_image_dtype_and_channels (λ _, 0%Z)
           (λ _, Ok (NdArray UInt16 [1; 2] true [SInt 300; SInt 5]))
           "gray.png").
  reflexivity.
Defined.

Example load_rgba :
  _load_image (λ _, 0%Z)
    (λ _, Ok (NdArray UInt8 [1; 1; 4] true [SInt 1; SInt 2; SInt 3; SInt 255]))
    "rgba.png"
  = Ok (NdArray UInt8 [1; 1; 4] true [SInt 1; SInt 2; SInt 3; SInt 255]).
Proof. reflexivity. Qed.

Example load_gray :
  _load_image (λ _, 0%Z)
    (λ _, Ok (NdArray UInt16 [1; 2] true [SInt 300; SInt 5])) "gray.png"
  = Ok (NdArray UInt8 [1; 2; 3] true
          [SInt 44; SInt 44; SInt 44; SInt 5; SInt 5; SInt 5]).
Proof. reflexivity. Qed.

(** ** __init__ (lines 18-33) *)

Section InitFacts.

Variable base_attrs : gset string.

Lemma hasattr_lookup (self : gmap string val) (key : string) (v : val) :
  self !! key = Some v → hasattr base_attrs self key = true.
Proof.
  intros H. unfold hasattr.
  rewrite (bool_decide_eq_true_2 (key ∈ dom self)); [done|].
  apply elem_of_dom. by exists v.
Qed.

Lemma set_kwarg_keeps (self : gmap string val) (kv : string * val)
    (key : string) (v : val) :
  self !! key = Some v → set_kwarg base_attrs self kv !! key = Some v.
Proof.
  intros H. unfold set_kwarg, setattr.
  destruct (hasattr base_attrs self kv.1) eqn:E; [done|].
  rewrite lookup_insert_ne; [done|]. intros Heq. rewrite Heq in E.
  by rewrite (hasattr_lookup _ _ _ H) in E.
Qed.

Lemma set_kwarg_other (self : gmap string val) (kv : string * val)
    (key : string) :
  kv.1 ≠ key → set_kwarg base_attrs self kv !! key = self !! key.
Proof.
  intros H. unfold set_kwarg, setattr.
  destruct (hasattr base_attrs self kv.1); [done|].
  by rewrite lookup_insert_ne.
Qed.

Lemma set_kwarg_hasattr (self : gmap string val) (kv : string * val)
    (key : string) :
  kv.1 ≠ key →
  hasattr base_attrs (set_kwarg base_attrs self kv) key
  = hasattr base_attrs self key.
Proof.
  intros H. unfold hasattr. f_equal. f_equal.
  apply bool_decide_ext. rewrite !elem_of_dom.
  by rewrite set_kwarg_other.
Qed.

Lemma foldl_set_kwarg_keeps (kwargs : list (string * val))
    (self : gmap string val) (key : string) (v : val) :
  self !! key = Some v → foldl (set_kwarg base_attrs) self kwargs !! key = Some v.
Proof.
  revert self. induction kwargs as [|kv kwargs IH]; intros self H; [done|].
  simpl. apply IH. by apply set_kwarg_keeps.
Qed.

Lemma foldl_set_kwarg_other (kwargs : list (string * val))
    (self : gmap string val) (key : string) :
  key ∉ kwargs.*1 →
  foldl (set_kwarg base_attrs) self kwargs !! key = self !! key.
Proof.
  revert self. induction kwargs as [|kv kwargs IH]; intros self H; [done|].
  simpl in *. apply not_elem_of_cons in H as [H1 H2].
  rewrite IH by done. by apply set_kwarg_other.
Qed.

(** a keyword whose name the instance or its class has is skipped *)
Lemma foldl_set_kwarg_skipped (kwargs : list (string * val))
    (self : gmap string val) (key : string) :
  hasattr base_attrs self key = true →
  foldl (set_kwarg base_attrs) self kwargs !! key = self !! key.
Proof.
  revert self. induction kwargs as [|kv kwargs IH]; intros self H; [done|].
  simpl. destruct (decide (kv.1 = key)) as [<-|Hne].
  - unfold set_kwarg at 2. rewrite H. by apply IH.
  - rewrite IH by (by rewrite set_kwarg_hasattr). by apply set_kwarg_other.
Qed.

(** a keyword with a new name is set *)
Lemma foldl_set_kwarg_fresh (kwargs : list (string * val))
    (self : gmap string val) (key : string) (value : val) :
  NoDup kwargs.*1 → (key, value) ∈ kwargs →
  hasattr base_attrs self key = false →
  foldl (set_kwarg base_attrs) self kwargs !! key = Some value.
Proof.
  revert self. induction kwargs as [|kv kwargs IH]; intros self Hnd Hin Hno.
  - by apply elem_of_nil in Hin.
  - simpl in *. apply NoDup_cons in Hnd as [Hni Hnd].
    apply elem_of_cons in Hin as [<-|Hin].
    + apply foldl_set_kwarg_keeps. unfold set_kwarg. simpl. rewrite Hno.
      apply lookup_insert_eq.
    + assert (kv.1 ≠ key) as Hne.
      { intros <-. apply Hni. apply list_elem_of_fmap. by exists (kv.1, value). }
      apply IH; [done..|]. by rewrite set_kwarg_hasattr.
Qed.

End InitFacts.

(** ** The arguments of the call (line 18) *)

Lemma keyword_elem (kwds : list (string * val)) (key : string) (value : val) :
  NoDup kwds.*1 → (key, value) ∈ kwds → keyword kwds key = Some value.
Proof.
  induction kwds as [|[k v] kwds IH]; intros Hnd Hin.
  - by apply elem_of_nil in Hin.
  - simpl in *. apply NoDup_cons in Hnd as [Hni Hnd].
    apply elem_of_cons in Hin as [[= <- <-]|Hin].
    + by rewrite decide_True.
    + rewrite decide_False; [by apply IH|].
      intros ->. apply Hni. apply list_elem_of_fmap. by exists (key, value).
Qed.

Lemma bound_twice_true (args : list val) (kwds : list (string * val)) :
  bound_twice args kwds = true
  ↔ ∃ key, key ∈ kwds.*1 ∧ key ∈ "self" :: take (length args) init_params.
Proof.
  unfold bound_twice. induction kwds as [|kv kwds IH]; simpl.
  - split; [done|]. intros (key & Hin & _). by apply elem_of_nil in Hin.
  - rewrite orb_true_iff, IH, bool_decide_eq_true. split.
    + intros [H|(key & Hin & H)].
      * exists kv.1. split; [apply elem_of_cons; by left|done].
      * exists key. split; [apply elem_of_cons; by right|done].
    + intros (key & Hin & H). apply elem_of_cons in Hin as [->|Hin].
      * by left.
      * right. by exists key.
Qed.

Lemma bound_twice_false (args : list val) (kwds : list (string * val)) :
  bound_twice args kwds = false
  ↔ ∀ key, key ∈ kwds.*1 → key ∉ "self" :: take (length args) init_params.
Proof.
  rewrite <- not_true_iff_false, bound_twice_true. split.
  - intros H key Hin Hp. apply H. by exists key.
  - intros H (key & Hin & Hp). by apply (H key).
Qed.

(** the keywords that reach [kwargs] *)
Lemma elem_of_kwargs (kwds : list (string * val)) (key : string) (value : val) :
  (key, value) ∈ filter (λ kv, kv.1 ∉ init_params) kwds
  ↔ (key, value) ∈ kwds ∧ key ∉ init_params.
Proof. rewrite list_elem_of_filter. simpl. tauto. Qed.

Lemma kwargs_names (kwds : list (string * val)) (key : string) :
  key ∈ (filter (λ kv, kv.1 ∉ init_params) kwds).*1
  ↔ key ∈ kwds.*1 ∧ key ∉ init_params.
Proof.
  rewrite !list_elem_of_fmap. split.
  - intros ([k v] & -> & [Hin Hp]%elem_of_kwargs). split; [|done].
    by exists (k, v).
  - intros (([k v] & -> & Hin) & Hp). exists (k, v). split; [done|].
    by apply elem_of_kwargs.
Qed.

Lemma kwargs_NoDup (kwds : list (string * val)) :
  NoDup kwds.*1 → NoDup (filter (λ kv, kv.1 ∉ init_params) kwds).*1.
Proof.
  induction kwds as [|kv kwds IH]; intros Hnd; [constructor|].
  simpl in Hnd. apply NoDup_cons in Hnd as [Hni Hnd].
  rewrite filter_cons. case_decide as Hp; [|by apply IH].
  simpl. apply NoDup_cons. split; [|by apply IH].
  intros [Hin _]%kwargs_names. by apply Hni.
Qed.

(** when the arguments are bound *)
Lemma bind_arguments_Ok (args : list val) (kwds : list (string * val))
    (ids targets : val) :
  length args ≤ 3 →
  (∀ key, key ∈ kwds.*1 → key ∉ "self" :: take (length args) init_params) →
  parameter args kwds 0 "ids" = Some ids →
  parameter args kwds 1 "targets" = Some targets →
  bind_arguments args kwds
  = Ok (ids, targets, default VNone (parameter args kwds 2 "transforms"),
        filter (λ kv, kv.1 ∉ init_params) kwds).
Proof.
  intros Hlen Hkw%bound_twice_false Hids Htargets. unfold bind_arguments.
  rewrite Hkw, Hids, Htargets.
  by rewrite (proj2 (Nat.ltb_ge _ _)) by (simpl; lia).
Qed.

(** C9.  A keyword named [self] or as a parameter that has a positional
    argument makes the call raise [TypeError].  When the arguments bind
    and the assertions of lines 20-22 hold, the call returns: [ids],
    [targets] and [transforms] are what the parameters are bound to, a
    keyword named as a parameter being the value of that parameter; every
    other keyword whose name the instance or its class already has is
    skipped and that attribute is as it was before the loop, every other
    keyword with a new name is set to its value, and no other attribute
    changes. *)
Theorem init_kwargs (base_attrs : gset string) (h : gmap loc obj)
    (args : list val) (kwds : list (string * val)) :
  NoDup kwds.*1 →
  (∀ key, key ∈ kwds.*1 → key ∈ "self" :: take (length args) init_params →
     BaseDataset_call base_attrs h args kwds = Raise TypeError)
  ∧ (∀ ids targets ids_l targets_l,
       length args ≤ 3 →
       (∀ key, key ∈ kwds.*1 →
          key ∉ "self" :: take (length args) init_params) →
       parameter args kwds 0 "ids" = Some ids →
       parameter args kwds 1 "targets" = Some targets →
       as_list h ids = Some ids_l → as_list h targets = Some targets_l →
       length ids_l = length targets_l →
       let transforms := default VNone (parameter args kwds 2 "transforms") in
       let self0 := init_fields ids targets transforms in
       ∃ self,
         BaseDataset_call base_attrs h args kwds = Ok self
         ∧ self !! "ids" = Some ids ∧ self !! "targets" = Some targets
         ∧ self !! "transforms" = self0 !! "transforms"
         ∧ (∀ i key value, init_params !! i = Some key → (key, value) ∈ kwds →
              parameter args kwds i key = Some value)
         ∧ (∀ key value, (key, value) ∈ kwds → key ∉ init_params →
              if hasattr base_attrs self0 key
              then self !! key = self0 !! key
              else self !! key = Some value)
         ∧ (∀ key, key ∉ kwds.*1 → self !! key = self0 !! key)).
Proof.
  intros Hnd. split.
  - intros key Hin Hp. unfold BaseDataset_call, bind_arguments.
    rewrite (proj2 (bound_twice_true args kwds)) by (by exists key).
    by rewrite orb_true_r.
  - intros ids targets ids_l targets_l Hlen Hkw Hi Ht Hids Htargets Hsame
      transforms self0.
    unfold BaseDataset_call.
    rewrite (bind_arguments_Ok args kwds ids targets) by done.
    fold transforms. unfold init_body.
    rewrite Hids, Htargets, Hsame, Nat.eqb_refl. simpl. fold self0.
    eexists. split; [done|].
    split; [by apply foldl_set_kwarg_keeps|].
    split; [by apply foldl_set_kwarg_keeps|].
    split; [by apply foldl_set_kwarg_skipped|].
    split; [|split].
    + intros i key value Hparam Hin. unfold parameter.
      assert (args !! i = None) as ->.
      { apply lookup_ge_None. destruct (decide (length args ≤ i)); [done|].
        exfalso. apply (Hkw key).
        - apply list_elem_of_fmap. by exists (key, value).
        - apply elem_of_cons. right. apply list_elem_of_lookup. exists i.
          rewrite lookup_take_lt by lia. done. }
      by apply keyword_elem.
    + intros key value Hin Hp.
      destruct (hasattr base_attrs self0 key) eqn:E.
      * by apply foldl_set_kwarg_skipped.
      * apply foldl_set_kwarg_fresh; [by apply kwargs_NoDup| |done].
        by apply elem_of_kwargs.
    + intros key Hni. apply foldl_set_kwarg_other.
      intros [Hin _]%kwargs_names. by apply Hni.
Qed.

Lemma init_kwargs_witness :
  BaseDataset_call {["__class__"]} example_heap [VRef 0; VRef 1; VNone]
    [("phase", VStr "train"); ("transforms", VCallable (UserCallable "clear"))]
  = Raise TypeError
  ∧ (let self0 := init_fields (VRef 0) (VRef 1) VNone in
     ∃ self,
       BaseDataset_call {["__class__"]} example_heap [VRef 0] example_keywords
       = Ok self
       ∧ self !! "ids" = Some (VRef 0) ∧ self !! "targets" = Some (VRef 1)
       ∧ self !! "transforms" = self0 !! "transforms"
       ∧ (∀ i key value,
            init_params !! i = Some key → (key, value) ∈ example_keywords →
            parameter [VRef 0] example_keywords i key = Some value)
       ∧ (∀ key value, (key, value) ∈ example_keywords → key ∉ init_params →
            if hasattr {["__class__"]} self0 key
            then self !! key = self0 !! key
            else self !! key = Some value)
       ∧ (∀ key, key ∉ example_keywords.*1 → self !! key = self0 !! key)).
Proof.
  split.
  - refine (proj1 (init_kwargs {["__class__"]} example_heap
                     [VRef 0; VRef 1; VNone]
                     [("phase", VStr "train");
                      ("transforms", VCallable (UserCallable "clear"))] _)
              "transforms" _ _);
      by apply (bool_decide_unpack _).
  - refine (proj2 (init_kwargs {["__class__"]} example_heap [VRef 0]
                     example_keywords _)
              (VRef 0) (VRef 1) [VStr "a.jpg"] [VRef 2] _ _ _ _ _ _ _).
    + by apply (bool_decide_unpack _).
    + simpl. lia.
    + apply Forall_forall. by apply (bool_decide_unpack _).
    + reflexivity.
    + reflexivity.
    + reflexivity.
    + reflexivity.
    + reflexivity.
Defined.

(** C9 as stated fails: a keyword named [ids] beside a positional
    argument for [ids] is not skipped, the call raises [TypeError]; a
    keyword named [transforms] is not skipped either, it is the
    transform of the new instance *)
Lemma keyword_ids_rejected :
  BaseDataset_call {["__class__"]} example_heap [VRef 0; VRef 1]
    [("ids", VInt 7); ("phase", VStr "train")]
  = Raise TypeError
  ∧ (λ self : gmap string val, self !! "transforms")
      <$> raised_value
            (BaseDataset_call {["__class__"]} example_heap [VRef 0; VRef 1]
               [("transforms", VCallable (UserCallable "clear"))])
    = Some (Some (VCallable (UserCallable "clear"))).
Proof. split; vm_compute; reflexivity. Qed.

Example init_example :
  (λ self : gmap string val,
     (self !! "ids", self !! "targets", self !! "phase", self !! "__len__",
      self !! "transforms"))
    <$> raised_value
          (BaseDataset_call {["__class__"]} example_heap [VRef 0]
             example_keywords)
  = Some (Some (VRef 0), Some (VRef 1), Some (VStr "train"), None,
          Some (VCallable IdentitiyTransforms)).
Proof. vm_compute. reflexivity. Qed.

(** ** deepcopy and __getitem__ (lines 35-42) *)

Lemma val_new_atom (hb : gmap loc obj) (y : val) :
  val_refs y = [] → val_new hb y.
Proof. intros H r. rewrite H. by intros ?%elem_of_nil. Qed.

Lemma val_new_ref (hb : gmap loc obj) (l : loc) :
  hb !! l = None → val_new hb (VRef l).
Proof. intros H r Hr. simpl in Hr. by apply list_elem_of_singleton in Hr as ->. Qed.

Lemma fresh_not_in_base (hb h : gmap loc obj) :
  (∀ l o, hb !! l = Some o → h !! l = Some o) →
  h !! fresh (dom h) = None ∧ hb !! fresh (dom h) = None.
Proof.
  intros Hold.
  assert (h !! fresh (dom h) = None) as Hf.
  { apply not_elem_of_dom. apply is_fresh. }
  split; [done|].
  destruct (hb !! fresh (dom h)) as [o|] eqn:E; [|done].
  apply Hold in E. congruence.
Qed.

(** putting a new object that holds new references only keeps the invariant *)
Lemma copy_inv_store (hb : gmap loc obj) (memo : gmap loc loc)
    (h : gmap loc obj) (l' : loc) (o : obj) :
  copy_inv hb (memo, h) → hb !! l' = None →
  (∀ r, r ∈ obj_refs o → hb !! r = None) →
  copy_inv hb (memo, <[l':=o]> h).
Proof.
  intros (I1 & I2 & I3) Hl' Ho. split; [|split]; simpl in *.
  - intros l o' Hl. rewrite lookup_insert_ne; [by apply I1|]. intros ->. congruence.
  - done.
  - intros l'' o' r Hnew. destruct (decide (l' = l'')) as [<-|Hne].
    + rewrite lookup_insert_eq. intros [= <-]. apply Ho.
    + rewrite lookup_insert_ne by done. by apply I3.
Qed.

Lemma copy_inv_memo (hb : gmap loc obj) (memo : gmap loc loc)
    (h : gmap loc obj) (l l' : loc) :
  copy_inv hb (memo, h) → hb !! l' = None →
  copy_inv hb (<[l:=l']> memo, h).
Proof.
  intros (I1 & I2 & I3) Hl'. split; [|split]; simpl in *; [done| |done].
  intros k k'. destruct (decide (l = k)) as [<-|Hne].
  - rewrite lookup_insert_eq. by intros [= <-].
  - rewrite lookup_insert_ne by done. apply I2.
Qed.

Lemma copy_all_inv (hb : gmap loc obj)
    (copy : val → gmap loc loc * gmap loc obj →
            option (val * (gmap loc loc * gmap loc obj)))
    (xs : list val) :
  (∀ x st y st', copy_inv hb st → copy x st = Some (y, st') →
                 copy_inv hb st' ∧ val_new hb y) →
  ∀ st ys st', copy_inv hb st → copy_all copy xs st = Some (ys, st') →
               copy_inv hb st' ∧ Forall (val_new hb) ys.
Proof.
  intros Hcopy. induction xs as [|x xs IH]; intros st ys st' Hinv; simpl.
  - intros [= <- <-]. by split.
  - destruct (copy x st) as [[y st1]|] eqn:E1; [|done].
    destruct (copy_all copy xs st1) as [[ys' st2]|] eqn:E2; [|done].
    intros [= <- <-].
    destruct (Hcopy _ _ _ _ Hinv E1) as [Hinv1 Hy].
    destruct (IH _ _ _ Hinv1 E2) as [Hinv2 Hys].
    split; [done|]. by constructor.
Qed.

Lemma refs_of_list_new (hb : gmap loc obj) (ys : list val) :
  Forall (val_new hb) ys → ∀ r, r ∈ obj_refs (OList ys) → hb !! r = None.
Proof.
  intros Hys r Hr. simpl in Hr.
  apply list_elem_of_In, in_flat_map in Hr as (y & Hy & Hr).
  rewrite Forall_forall in Hys.
  apply (Hys y); by apply list_elem_of_In.
Qed.

Lemma refs_of_dict_new (hb : gmap loc obj) (keys : list string) (ys : list val) :
  Forall (val_new hb) ys →
  ∀ r, r ∈ obj_refs (ODict (zip keys ys)) → hb !! r = None.
Proof.
  intros Hys r Hr. simpl in Hr.
  apply list_elem_of_In, in_flat_map in Hr as ([k y] & Hy & Hr).
  rewrite Forall_forall in Hys. simpl in Hr.
  apply (Hys y); [|by apply list_elem_of_In].
  apply list_elem_of_In in Hy. by apply elem_of_zip_r in Hy.
Qed.

Lemma deepcopy_fuel_inv (hb : gmap loc obj) (fuel : nat) :
  ∀ x st y st', copy_inv hb st → deepcopy_fuel fuel x st = Some (y, st') →
                copy_inv hb st' ∧ val_new hb y.
Proof.
  induction fuel as [|fuel IH]; intros x [memo h] y st' Hinv; simpl; [done|].
  destruct x as [| | | |l];
    try (intros [= <- <-]; split; [done|by apply val_new_atom]).
  destruct (memo !! l) as [l'|] eqn:Em.
  { intros [= <- <-]. split; [done|]. apply val_new_ref.
    destruct Hinv as (_ & I2 & _). by apply (I2 l). }
  pose proof Hinv as (I1 & I2 & I3). simpl in I1.
  destruct (fresh_not_in_base hb h I1) as [Hfh Hfb].
  destruct (h !! l) as [[items|elems|a]|] eqn:Eh.
  - destruct (copy_all _ _ _) as [[ys [memo2 h2]]|] eqn:Ec; [|done].
    intros [= <- <-]. simpl.
    destruct (copy_all_inv hb _ _ (IH) _ _ _
                (copy_inv_store hb _ _ _ (ODict [])
                   (copy_inv_memo hb _ _ l _ Hinv Hfb) Hfb
                   (λ r Hr, False_ind _ (proj1 (elem_of_nil r) Hr))) Ec)
      as [Hinv2 Hys].
    split; [|by apply val_new_ref].
    apply copy_inv_store; [done..|]. by apply refs_of_dict_new.
  - destruct (copy_all _ _ _) as [[ys [memo2 h2]]|] eqn:Ec; [|done].
    intros [= <- <-]. simpl.
    destruct (copy_all_inv hb _ _ (IH) _ _ _
                (copy_inv_store hb _ _ _ (OList [])
                   (copy_inv_memo hb _ _ l _ Hinv Hfb) Hfb
                   (λ r Hr, False_ind _ (proj1 (elem_of_nil r) Hr))) Ec)
      as [Hinv2 Hys].
    split; [|by apply val_new_ref].
    apply copy_inv_store; [done..|]. by apply refs_of_list_new.
  - intros [= <- <-]. split; [|by apply val_new_ref].
    apply copy_inv_store; [by apply copy_inv_memo|done|].
    intros r Hr. simpl in Hr. by apply elem_of_nil in Hr.
  - intros [= <- <-]. split; [done|]. apply val_new_ref.
    destruct (hb !! l) as [o|] eqn:E; [|done]. apply I1 in E. congruence.
Qed.

(** nothing of the base heap is reached from a value that refers to new
    objects only *)
Lemma reach_new (hb : gmap loc obj) (st : gmap loc loc * gmap loc obj)
    (y : val) (l : loc) :
  copy_inv hb st → val_new hb y → reach st.2 y l → hb !! l = None.
Proof.
  intros (I1 & I2 & I3) Hy Hreach. induction Hreach as [l|l o r l' Hl Hr _ IH].
  - apply Hy. simpl. apply list_elem_of_here.
  - apply IH. apply val_new_ref. apply (I3 l o r); [|done..].
    apply Hy. simpl. apply list_elem_of_here.
Qed.

Lemma copy_all_total (hb : gmap loc obj) (f : nat) (xs : list val) :
  (∀ x memo h, copy_inv hb (memo, h) → val_in hb x →
     size (dom hb ∖ dom memo) < f →
     ∃ y st', deepcopy_fuel f x (memo, h) = Some (y, st')
              ∧ dom memo ⊆ dom st'.1) →
  Forall (val_in hb) xs →
  ∀ memo h, copy_inv hb (memo, h) → size (dom hb ∖ dom memo) < f →
    ∃ ys st', copy_all (deepcopy_fuel f) xs (memo, h) = Some (ys, st')
              ∧ dom memo ⊆ dom st'.1.
Proof.
  intros Hone Hxs. induction Hxs as [|x xs Hx Hxs IH]; intros memo h Hinv Hm.
  - by eexists _, _.
  - simpl. destruct (Hone x memo h Hinv Hx Hm) as (y & [memo1 h1] & E1 & Hsub1).
    rewrite E1. simpl in Hsub1.
    destruct (deepcopy_fuel_inv hb f _ _ _ _ Hinv E1) as [Hinv1 _].
    destruct (IH memo1 h1 Hinv1) as (ys & st2 & E2 & Hsub2).
    { eapply Nat.le_lt_trans; [|exact Hm]. apply subseteq_size. set_solver. }
    rewrite E2. eexists _, _. split; [done|]. set_solver.
Qed.

Lemma deepcopy_fuel_total (hb : gmap loc obj) :
  heap_closed hb →
  ∀ fuel x memo h, copy_inv hb (memo, h) → val_in hb x →
    size (dom hb ∖ dom memo) < fuel →
    ∃ y st', deepcopy_fuel fuel x (memo, h) = Some (y, st')
             ∧ dom memo ⊆ dom st'.1.
Proof.
  intros Hclosed. induction fuel as [|fuel IH]; intros x memo h Hinv Hx Hm;
    [lia|].
  simpl. destruct x as [| | | |l]; try (by eexists _, _).
  destruct (memo !! l) as [l'|] eqn:Em; [by eexists _, _|].
  destruct (Hx l) as [o Ho]; [simpl; apply list_elem_of_here|].
  pose proof Hinv as (I1 & I2 & I3). simpl in I1.
  rewrite (I1 l o Ho).
  destruct (fresh_not_in_base hb h I1) as [Hfh Hfb].
  assert (size (dom hb ∖ dom (<[l:=fresh (dom h)]> memo)) < fuel) as Hm1.
  { assert (dom hb ∖ dom (<[l:=fresh (dom h)]> memo) ⊂ dom hb ∖ dom memo) as Hlt.
    { rewrite dom_insert_L. split; [set_solver|].
      intros Hsub. assert (l ∈ dom hb ∖ dom memo) as Hl.
      { apply elem_of_difference. split; [by apply elem_of_dom|].
        by apply not_elem_of_dom. }
      apply Hsub in Hl. set_solver. }
    apply subset_size in Hlt. lia. }
  assert (∀ r, r ∈ obj_refs o → is_Some (hb !! r)) as Hrefs
    by (intros r Hr; by apply (Hclosed l o r)).
  destruct o as [items|elems|a].
  - destruct (copy_all_total hb fuel items.*2 IH) with
      (memo := <[l:=fresh (dom h)]> memo) (h := <[fresh (dom h):=ODict []]> h)
      as (ys & [memo2 h2] & E & Hsub); [| |done|].
    + apply Forall_forall. intros v Hv r Hr. apply Hrefs. simpl.
      apply list_elem_of_fmap in Hv as ([k v'] & -> & Hkv).
      apply list_elem_of_In, in_flat_map. exists (k, v').
      split; by apply list_elem_of_In.
    + apply copy_inv_store; [by apply copy_inv_memo|done|].
      intros r Hr. by apply elem_of_nil in Hr.
    + rewrite E. eexists _, _. split; [done|]. simpl in *.
      rewrite dom_insert_L in Hsub. set_solver.
  - destruct (copy_all_total hb fuel elems IH) with
      (memo := <[l:=fresh (dom h)]> memo) (h := <[fresh (dom h):=OList []]> h)
      as (ys & [memo2 h2] & E & Hsub); [| |done|].
    + apply Forall_forall. intros v Hv r Hr. apply Hrefs. simpl.
      apply list_elem_of_In, in_flat_map. exists v.
      split; by apply list_elem_of_In.
    + apply copy_inv_store; [by apply copy_inv_memo|done|].
      intros r Hr. by apply elem_of_nil in Hr.
    + rewrite E. eexists _, _. split; [done|]. simpl in *.
      rewrite dom_insert_L in Hsub. set_solver.
  - eexists _, _. split; [done|]. simpl. rewrite dom_insert_L. set_solver.
Qed.

Lemma copy_inv_start (h : gmap loc obj) : copy_inv h (∅, h).
Proof.
  split; [done|]. split; simpl.
  - intros l l'. by rewrite lookup_empty.
  - intros l' o r Hn Hs. congruence.
Qed.

(** [deepcopy] returns on every closed heap *)
Lemma deepcopy_total (h : gmap loc obj) (x : val) :
  heap_closed h → val_in h x → ∃ y h', deepcopy x h = Some (y, h').
Proof.
  intros Hclosed Hx. unfold deepcopy.
  destruct (deepcopy_fuel_total h Hclosed (S (size h)) x ∅ h)
    as (y & st' & E & _); [apply copy_inv_start|done| |].
  - rewrite dom_empty_L, difference_empty_L, size_dom. lia.
  - rewrite E. by eexists _, _.
Qed.

(** the copy and everything it reaches are new objects; the objects of
    the heap are as they were *)
Lemma deepcopy_fresh (h : gmap loc obj) (x y : val) (h' : gmap loc obj) :
  deepcopy x h = Some (y, h') →
  (∀ l o, h !! l = Some o → h' !! l = Some o)
  ∧ (∀ l, reach h' y l → h !! l = None).
Proof.
  unfold deepcopy.
  destruct (deepcopy_fuel _ _ _) as [[y' st]|] eqn:E; [|done].
  intros [= <- <-].
  destruct (deepcopy_fuel_inv h _ _ _ _ _ (copy_inv_start h) E) as [Hinv Hy].
  split; [apply Hinv|]. intros l. by apply (reach_new h st).
Qed.

(** ** deepcopy returns a deep copy *)

Lemma tr_val_stable (memo memo' : gmap loc loc) (v : val) :
  memo ⊆ memo' → (∀ r, r ∈ val_refs v → is_Some (memo !! r)) →
  tr_val memo' v = tr_val memo v.
Proof.
  intros Hsub Hv. destruct v as [| | | |l]; try done. simpl.
  destruct (Hv l) as [l' Hl']; [simpl; apply list_elem_of_here|].
  by rewrite Hl', (lookup_weaken _ _ _ _ Hl' Hsub).
Qed.

Lemma tr_vals_stable (memo memo' : gmap loc loc) (vs : list val) :
  memo ⊆ memo' → (∀ r, r ∈ flat_map val_refs vs → is_Some (memo !! r)) →
  tr_val memo' <$> vs = tr_val memo <$> vs.
Proof.
  intros Hsub Hvs. apply list_fmap_ext. intros i v Hv.
  apply tr_val_stable; [done|]. intros r Hr. apply Hvs.
  apply list_elem_of_In, in_flat_map. exists v.
  split; apply list_elem_of_In; [by eapply list_elem_of_lookup_2|done].
Qed.

Lemma dict_refs (items : list (string * val)) :
  flat_map (λ kv : string * val, val_refs kv.2) items
  = flat_map val_refs items.*2.
Proof. induction items as [|[k v] items IH]; simpl; [done|]. by rewrite IH. Qed.

Lemma tr_obj_stable (memo memo' : gmap loc loc) (o : obj) :
  memo ⊆ memo' → (∀ r, r ∈ obj_refs o → is_Some (memo !! r)) →
  tr_obj memo' o = tr_obj memo o.
Proof.
  intros Hsub Ho. destruct o as [items|elems|a]; simpl; [| |done].
  - f_equal. f_equal. apply tr_vals_stable; [done|].
    intros r Hr. apply Ho. simpl. by rewrite dict_refs.
  - f_equal. by apply tr_vals_stable.
Qed.

(** a new entry of the memo whose copy is a new object *)
Lemma faithful_enter (hb : gmap loc obj) (pending : gset loc)
    (memo : gmap loc loc) (h : gmap loc obj) (l l' : loc) (o : obj) :
  faithful hb pending (memo, h) → memo !! l = None → h !! l' = None →
  obj_refs o = [] → o = tr_obj (<[l:=l']> memo) o →
  faithful hb ({[l]} ∪ pending) (<[l:=l']> memo, <[l':=o]> h).
Proof.
  intros (F1 & F2 & F3) Hl Hl' Ho Htr. simpl in *.
  assert (∀ k k', memo !! k = Some k' → k' ≠ l') as Hne.
  { intros k k' Hk ->. destruct (F2 k l' Hk) as [? ?]. congruence. }
  split; [|split]; simpl.
  - intros k k' Hk Hnp.
    assert (k ≠ l) as Hkl by set_solver.
    rewrite lookup_insert_ne in Hk by done.
    destruct (F1 k k' Hk) as (ok & Hok & Hcopy & Hrefs); [set_solver|].
    exists ok. split; [done|]. split.
    + rewrite lookup_insert_ne by (by apply not_eq_sym, (Hne k)).
      rewrite (tr_obj_stable memo); [done| |done].
      by apply insert_subseteq.
    + intros r Hr. destruct (Hrefs r Hr) as [r' Hr'].
      exists r'. apply (lookup_weaken memo); [done|]. by apply insert_subseteq.
  - intros k k'. destruct (decide (l = k)) as [<-|Hkl].
    + rewrite lookup_insert_eq. intros [= <-]. rewrite lookup_insert_eq. by eexists.
    + rewrite lookup_insert_ne by done. intros Hk.
      rewrite lookup_insert_ne by (by apply not_eq_sym, (Hne k)). by apply (F2 k).
  - intros k1 k2 k'. destruct (decide (l = k1)) as [<-|H1], (decide (l = k2)) as [<-|H2];
      rewrite ?lookup_insert_eq, ?lookup_insert_ne by done; try done.
    + intros [= <-] Hk. by destruct (Hne k2 l' Hk).
    + intros Hk [= <-]. by destruct (Hne k1 l' Hk).
    + apply F3.
Qed.

Lemma faithful_leave (hb : gmap loc obj) (pending : gset loc)
    (memo : gmap loc loc) (h : gmap loc obj) (l l' : loc) (o : obj) :
  faithful hb ({[l]} ∪ pending) (memo, h) → memo !! l = Some l' →
  hb !! l = Some o → (∀ r, r ∈ obj_refs o → is_Some (memo !! r)) →
  faithful hb pending (memo, <[l':=tr_obj memo o]> h).
Proof.
  intros (F1 & F2 & F3) Hl Ho Hrefs. simpl in *. split; [|split]; simpl.
  - intros k k' Hk Hnp. destruct (decide (k = l)) as [->|Hkl].
    + rewrite Hl in Hk. injection Hk as <-. exists o.
      split; [done|]. split; [apply lookup_insert_eq|done].
    + destruct (F1 k k' Hk) as (ok & Hok & Hcopy & Hr); [set_solver|].
      exists ok. split; [done|]. split; [|done].
      rewrite lookup_insert_ne; [done|]. intros <-. apply Hkl. by apply (F3 k l l').
  - intros k k' Hk. destruct (decide (l' = k')) as [<-|Hne].
    + rewrite lookup_insert_eq. by eexists.
    + rewrite lookup_insert_ne by done. by apply (F2 k).
  - done.
Qed.

Lemma faithful_start (hb : gmap loc obj) (h : gmap loc obj) :
  faithful hb ∅ (∅, h).
Proof.
  split; [|split]; simpl; intros *; by rewrite lookup_empty.
Qed.

Section Faithful.

Variable hb : gmap loc obj.
Hypothesis hb_closed : heap_closed hb.

Lemma copy_all_faithful (pending : gset loc) (f : nat) (xs : list val) :
  (∀ x st y st', copy_inv hb st → faithful hb pending st → val_in hb x →
     deepcopy_fuel f x st = Some (y, st') → copy_ok hb pending x st y st') →
  Forall (val_in hb) xs →
  ∀ st ys st', copy_inv hb st → faithful hb pending st →
    copy_all (deepcopy_fuel f) xs st = Some (ys, st') →
    faithful hb pending st' ∧ st.1 ⊆ st'.1 ∧ ys = tr_val st'.1 <$> xs
    ∧ (∀ r, r ∈ flat_map val_refs xs → is_Some (st'.1 !! r)).
Proof.
  intros Hone Hxs. induction Hxs as [|x xs Hx Hxs IH]; intros st ys st' Hinv Hf;
    simpl.
  - intros [= <- <-]. split; [done|]. split; [done|]. split; [done|].
    intros r Hr. by apply elem_of_nil in Hr.
  - destruct (deepcopy_fuel f x st) as [[y st1]|] eqn:E1; [|done].
    destruct (copy_all _ xs st1) as [[ys' st2]|] eqn:E2; [|done].
    intros [= <- <-].
    destruct (Hone _ _ _ _ Hinv Hf Hx E1) as (Hf1 & Hsub1 & -> & Hr1).
    destruct (deepcopy_fuel_inv hb f _ _ _ _ Hinv E1) as [Hinv1 _].
    destruct (IH _ _ _ Hinv1 Hf1 E2) as (Hf2 & Hsub2 & -> & Hr2).
    split; [done|]. split; [by etrans|]. split.
    + by rewrite (tr_val_stable st1.1 st2.1).
    + intros r [Hr|Hr]%elem_of_app; [|by apply Hr2].
      destruct (Hr1 r Hr) as [r' Hr']. exists r'.
      by apply (lookup_weaken st1.1).
Qed.

Lemma deepcopy_fuel_faithful (fuel : nat) :
  ∀ pending x st y st', copy_inv hb st → faithful hb pending st →
    val_in hb x → deepcopy_fuel fuel x st = Some (y, st') →
    copy_ok hb pending x st y st'.
Proof.
  induction fuel as [|fuel IH]; intros pending x [memo h] y st' Hinv Hf Hx;
    simpl; [done|].
  destruct x as [| | | |l];
    try (intros [= <- <-]; split; [done|]; split; [done|]; split; [done|];
         intros r Hr; by apply elem_of_nil in Hr).
  destruct (memo !! l) as [l'|] eqn:Em.
  { intros [= <- <-]. split; [done|]. split; [done|]. split; simpl.
    - by rewrite Em.
    - intros r ->%list_elem_of_singleton. by eexists. }
  destruct (Hx l) as [o Ho]; [simpl; apply list_elem_of_here|].
  pose proof Hinv as (I1 & I2 & I3). simpl in I1.
  rewrite (I1 l o Ho).
  destruct (fresh_not_in_base hb h I1) as [Hfh Hfb].
  set (l' := fresh (dom h)) in *.
  assert (∀ r, r ∈ obj_refs o → is_Some (hb !! r)) as Hrefs
    by (intros r Hr; by apply (hb_closed l o r)).
  assert (memo ⊆ <[l:=l']> memo) as Hsub0 by by apply insert_subseteq.
  destruct o as [items|elems|a].
  - destruct (copy_all _ _ _) as [[ys [memo2 h2]]|] eqn:Ec; [|done].
    intros [= <- <-].
    destruct (copy_all_faithful ({[l]} ∪ pending) fuel items.*2
                (IH ({[l]} ∪ pending))) with
      (st := (<[l:=l']> memo, <[l':=ODict []]> h)) (ys := ys)
      (st' := (memo2, h2)) as (Hf2 & Hsub2 & -> & Hr2); [| | |done|].
    + apply Forall_forall. intros v Hv r Hr. apply Hrefs. simpl.
      rewrite dict_refs. apply list_elem_of_In, in_flat_map. exists v.
      split; by apply list_elem_of_In.
    + apply copy_inv_store; [by apply copy_inv_memo|done|].
      intros r Hr. by apply elem_of_nil in Hr.
    + by apply faithful_enter.
    + simpl in *.
      assert (memo2 !! l = Some l') as Hl2
        by (apply (lookup_weaken (<[l:=l']> memo)); [apply lookup_insert_eq|done]).
      split; [|split; [by etrans|split]]; simpl.
      * apply (faithful_leave hb pending memo2 h2 l l' (ODict items));
          [done..|]. intros r Hr. apply Hr2. simpl in Hr. by rewrite <- dict_refs.
      * by rewrite Hl2.
      * intros r ->%list_elem_of_singleton. by eexists.
  - destruct (copy_all _ _ _) as [[ys [memo2 h2]]|] eqn:Ec; [|done].
    intros [= <- <-].
    destruct (copy_all_faithful ({[l]} ∪ pending) fuel elems
                (IH ({[l]} ∪ pending))) with
      (st := (<[l:=l']> memo, <[l':=OList []]> h)) (ys := ys)
      (st' := (memo2, h2)) as (Hf2 & Hsub2 & -> & Hr2); [| | |done|].
    + apply Forall_forall. intros v Hv r Hr. apply Hrefs. simpl.
      apply list_elem_of_In, in_flat_map. exists v.
      split; by apply list_elem_of_In.
    + apply copy_inv_store; [by apply copy_inv_memo|done|].
      intros r Hr. by apply elem_of_nil in Hr.
    + by apply faithful_enter.
    + simpl in *.
      assert (memo2 !! l = Some l') as Hl2
        by (apply (lookup_weaken (<[l:=l']> memo)); [apply lookup_insert_eq|done]).
      split; [|split; [by etrans|split]]; simpl.
      * by apply (faithful_leave hb pending memo2 h2 l l' (OList elems)).
      * by rewrite Hl2.
      * intros r ->%list_elem_of_singleton. by eexists.
  - intros [= <- <-]. simpl.
    assert (faithful hb pending
              (<[l:=l']> memo, <[l':=tr_obj (<[l:=l']> memo) (OArray a)]>
                                  (<[l':=OArray a]> h))) as Hf'.
    { apply (faithful_leave hb pending _ _ l l' (OArray a));
        [by apply faithful_enter|apply lookup_insert_eq|done|].
      intros r Hr. by apply elem_of_nil in Hr. }
    simpl in Hf'. rewrite insert_insert_eq in Hf'.
    split; [done|]. split; [done|]. split; simpl.
    + by rewrite lookup_insert_eq.
    + intros r ->%list_elem_of_singleton. rewrite lookup_insert_eq. by eexists.
Qed.

End Faithful.

Lemma deepcopy_is_deep_copy (h : gmap loc obj) (x y : val) (h' : gmap loc obj) :
  heap_closed h → val_in h x → deepcopy x h = Some (y, h') →
  is_deep_copy h x h' y.
Proof.
  intros Hclosed Hx. unfold deepcopy.
  destruct (deepcopy_fuel _ _ _) as [[y' [memo h'']]|] eqn:E; [|done].
  intros [= <- <-].
  destruct (deepcopy_fuel_inv h _ _ _ _ _ (copy_inv_start h) E)
    as [(_ & I2 & _) _].
  destruct (deepcopy_fuel_faithful h Hclosed _ ∅ _ _ _ _ (copy_inv_start h)
              (faithful_start h h) Hx E) as ((F1 & F2 & F3) & _ & Hy & Hr).
  exists memo. simpl in *. split; [done|]. split; [done|]. split; [|done].
  intros l l' Hl. split; [by apply (I2 l)|]. apply F1; [done|set_solver].
Qed.

Example deepcopy_example :
  deepcopy (VRef 2) example_heap
  = Some (VRef 5,
          <[5:=ODict [("target_boxes", VRef 6); ("labels", VRef 7)]]>
            (<[7:=OList [VInt 1]]>
               (<[6:=OArray (NdArray Float32 [1; 4] true
                               [SFloat 10; SFloat 20; SFloat 30; SFloat 40])]>
                  example_heap))).
Proof. vm_compute. reflexivity. Qed.

(** a list that holds itself twice is copied to a list that holds itself
    twice *)
Example deepcopy_cycle :
  deepcopy (VRef 0) {[0 := OList [VRef 0; VInt 1; VRef 0]]}
  = Some (VRef 1, <[1:=OList [VRef 1; VInt 1; VRef 1]]>
                    {[0 := OList [VRef 0; VInt 1; VRef 0]]}).
Proof. vm_compute. reflexivity. Qed.

Lemma py_index_elem {A} (l : list A) (idx : Z) (x : A) :
  py_index l idx = Ok x → x ∈ l.
Proof.
  unfold py_index. destruct (_ <? 0)%Z; [done|].
  destruct (l !! _) as [y|] eqn:E; [|done].
  intros [= <-]. by eapply list_elem_of_lookup_2.
Qed.

Lemma heap_closed_alloc_array (h : gmap loc obj) (l : loc) (arr : ndarray) :
  heap_closed h → heap_closed (<[l:=OArray arr]> h).
Proof.
  intros Hc k o r. destruct (decide (l = k)) as [<-|Hne].
  - rewrite lookup_insert_eq. intros [= <-] Hr. by apply elem_of_nil in Hr.
  - rewrite lookup_insert_ne by done. intros Hk Hr.
    destruct (Hc k o r Hk Hr) as [o' Ho'].
    destruct (decide (l = r)) as [<-|Hne'].
    + rewrite lookup_insert_eq. by eexists.
    + rewrite lookup_insert_ne by done. by eexists.
Qed.

Lemma reach_array (h : gmap loc obj) (l l' : loc) (arr : ndarray) :
  h !! l = Some (OArray arr) → reach h (VRef l) l' → l' = l.
Proof.
  intros Hl Hreach. inversion Hreach as [|? o r ? Ho Hr _]; subst; [done|].
  rewrite Hl in Ho. injection Ho as <-. by apply elem_of_nil in Hr.
Qed.

Lemma call_transforms_frame
    (user_call : string → val → val → stateful (val * val))
    (tr img targets : val) (h : gmap loc obj) (l : loc) (o : obj) :
  transform_local user_call → h !! l = Some o →
  ¬ reach h img l → ¬ reach h targets l →
  (call_transforms user_call tr img targets h).2 !! l = Some o.
Proof.
  intros Hlocal Hl Himg Htargets. unfold call_transforms.
  destruct tr as [| | |[|name]|]; try done.
  destruct (user_call name img targets h) as [r h'] eqn:E. simpl.
  by apply (Hlocal name img targets h r h' E).
Qed.

Section GetItemFacts.

Variable float_to_uint8 : float → Z.
Variable imread : string → result ndarray.
Variable user_call : string → val → val → stateful (val * val).
Hypothesis user_call_local : transform_local user_call.

Lemma getitem_frame (self : gmap string val) (idx : Z) (h : gmap loc obj)
    (l : loc) (o : obj) :
  h !! l = Some o →
  (__getitem__ float_to_uint8 imread user_call self idx h).2 !! l = Some o.
Proof.
  intros Hl. unfold __getitem__.
  destruct (load_item _ _ _ _ _) as [arr|e]; [|done].
  assert (h !! fresh (dom h) = None) as Hfresh
    by apply not_elem_of_dom, is_fresh.
  assert (fresh (dom h) ≠ l) as Hne
    by (intros Heq; rewrite Heq in Hfresh; congruence).
  set (img := fresh (dom h)) in *.
  set (h1 := <[img:=OArray arr]> h).
  assert (h1 !! l = Some o) as Hl1 by (subst h1; by rewrite lookup_insert_ne).
  destruct (attr_item _ _ _ _) as [stored|e]; [|done].
  destruct (deepcopy stored h1) as [[targets h2]|] eqn:Ecopy; [|done].
  destruct (deepcopy_fresh _ _ _ _ Ecopy) as [Hold Hnew].
  destruct (getattr self "transforms") as [tr|e]; simpl; [|by apply Hold].
  apply call_transforms_frame; [done|by apply Hold| |].
  - intros Hreach. apply (reach_array h2 img l arr) in Hreach; [done|].
    apply Hold. subst h1. apply lookup_insert_eq.
  - intros Hreach. apply Hnew in Hreach. congruence.
Qed.

Lemma getitem_copy (self : gmap string val) (idx : Z) (h : gmap loc obj)
    (arr : ndarray) (stored tr : val) :
  heap_closed h →
  load_item float_to_uint8 imread self idx h = Ok arr →
  attr_item self "targets" idx (<[fresh (dom h):=OArray arr]> h) = Ok stored →
  getattr self "transforms" = Ok tr →
  ∃ copy h2,
    deepcopy stored (<[fresh (dom h):=OArray arr]> h) = Some (copy, h2)
    ∧ __getitem__ float_to_uint8 imread user_call self idx h
      = call_transforms user_call tr (VRef (fresh (dom h))) copy h2
    ∧ (∀ l, reach h2 copy l → h !! l = None)
    ∧ (∀ l o, h !! l = Some o → h2 !! l = Some o)
    ∧ is_deep_copy (<[fresh (dom h):=OArray arr]> h) stored h2 copy.
Proof.
  intros Hclosed Hload Hstored Htr.
  assert (h !! fresh (dom h) = None) as Hfresh
    by apply not_elem_of_dom, is_fresh.
  set (img := fresh (dom h)) in *.
  set (h1 := <[img:=OArray arr]> h) in *.
  assert (heap_closed h1) as Hclosed1 by by apply heap_closed_alloc_array.
  assert (val_in h1 stored) as Hin.
  { unfold attr_item in Hstored.
    destruct (getattr self "targets") as [xs|]; simpl in Hstored; [|done].
    unfold as_list in Hstored. destruct xs as [| | | |lt]; try done.
    destruct (h1 !! lt) as [[| elems |]|] eqn:Elt; try done.
    apply py_index_elem in Hstored.
    intros r Hr. apply (Hclosed1 lt (OList elems) r Elt). simpl.
    apply list_elem_of_In, in_flat_map. exists stored.
    split; by apply list_elem_of_In. }
  destruct (deepcopy_total h1 stored Hclosed1 Hin) as (copy & h2 & Ecopy).
  destruct (deepcopy_fresh _ _ _ _ Ecopy) as [Hold Hnew].
  exists copy, h2. split; [done|]. split; [|split; [|split]].
  4: by apply deepcopy_is_deep_copy.
  - unfold __getitem__. rewrite Hload. cbv zeta. subst h1 img.
    by rewrite Hstored, Ecopy, Htr.
  - intros l Hreach. apply Hnew in Hreach.
    destruct (h !! l) as [o|] eqn:E; [|done].
    subst h1. rewrite lookup_insert_ne in Hreach; [congruence|].
    intros Heq. subst img. rewrite Heq in Hfresh. congruence.
  - intros l o Hl. apply Hold. subst h1. rewrite lookup_insert_ne; [done|].
    intros Heq. subst img. rewrite Heq in Hfresh. congruence.
Qed.

End GetItemFacts.

(** C8.  For a transform that changes only what its arguments reach,
    [__getitem__] leaves every object that was on the heap before the call
    as it was, whatever the index and whatever the call returns or raises;
    on a closed heap [deepcopy] returns, the transform is called with its
    result, which is a deep copy of the stored entry and reaches no object
    that was on the heap before. *)
Theorem getitem_keeps_stored_targets (float_to_uint8 : float → Z)
    (imread : string → result ndarray)
    (user_call : string → val → val → stateful (val * val))
    (self : gmap string val) (idx : Z) (h : gmap loc obj) :
  transform_local user_call →
  let out := __getitem__ float_to_uint8 imread user_call self idx h in
  (∀ l o, h !! l = Some o → out.2 !! l = Some o)
  ∧ (∀ arr stored tr,
       heap_closed h →
       load_item float_to_uint8 imread self idx h = Ok arr →
       attr_item self "targets" idx (<[fresh (dom h):=OArray arr]> h)
       = Ok stored →
       getattr self "transforms" = Ok tr →
       ∃ copy h2,
         deepcopy stored (<[fresh (dom h):=OArray arr]> h) = Some (copy, h2)
         ∧ out = call_transforms user_call tr (VRef (fresh (dom h))) copy h2
         ∧ (∀ l, reach h2 copy l → h !! l = None)
         ∧ (∀ l o, h !! l = Some o → h2 !! l = Some o)
         ∧ is_deep_copy (<[fresh (dom h):=OArray arr]> h) stored h2 copy).
Proof.
  intros Hlocal out. split.
  - intros l o Hl. by apply getitem_frame.
  - intros arr stored tr. by apply getitem_copy.
Qed.

Lemma clearing_transform_local : transform_local clearing_transform.
Proof.
  intros name img targets h r h' E l o Hl _ Htargets.
  unfold clearing_transform in E. destruct targets as [| | | |l0];
    try (injection E as <- <-; done).
  injection E as <- <-. rewrite lookup_insert_ne; [done|].
  intros ->. apply Htargets. constructor.
Qed.

Lemma getitem_keeps_stored_targets_witness :
  let out :=
    __getitem__ (λ _, 0%Z) example_imread clearing_transform example_self 0
      example_heap in
  (∀ l o, example_heap !! l = Some o → out.2 !! l = Some o)
  ∧ (∀ arr stored tr,
       heap_closed example_heap →
       load_item (λ _, 0%Z) example_imread example_self 0 example_heap
       = Ok arr →
       attr_item example_self "targets" 0
         (<[fresh (dom example_heap):=OArray arr]> example_heap) = Ok stored →
       getattr example_self "transforms" = Ok tr →
       ∃ copy h2,
         deepcopy stored (<[fresh (dom example_heap):=OArray arr]> example_heap)
         = Some (copy, h2)
         ∧ out = call_transforms clearing_transform tr
                   (VRef (fresh (dom example_heap))) copy h2
         ∧ (∀ l, reach h2 copy l → example_heap !! l = None)
         ∧ (∀ l o, example_heap !! l = Some o → h2 !! l = Some o)
         ∧ is_deep_copy
             (<[fresh (dom example_heap):=OArray arr]> example_heap) stored
             h2 copy).
Proof.
  apply (getitem_keeps_stored_targets (λ _, 0%Z) example_imread
           clearing_transform example_self 0 example_heap).
  apply clearing_transform_local.
Defined.

(** the transform empties the copy at location 6; the stored dict at
    location 2 is as it was *)
Example getitem_example :
  let out :=
    __getitem__ (λ _, 0%Z) example_imread clearing_transform example_self 0
      example_heap in
  out.1 = Ok (VRef 5, VRef 6)
  ∧ out.2 !! 6 = Some (ODict [])
  ∧ out.2 !! 2 = Some (ODict [("target_boxes", VRef 3); ("labels", VRef 4)])
  ∧ out.2 !! 3 = example_heap !! 3
  ∧ out.2 !! 7 = example_heap !! 3.
Proof. vm_compute. repeat split; reflexivity. Qed.

(** ** Indexing with Python's rules *)

Lemma py_index_out_of_range {A} (l : list A) (idx : Z) :
  (idx < - Z.of_nat (length l) ∨ Z.of_nat (length l) ≤ idx)%Z →
  py_index l idx = Raise IndexError.
Proof.
  intros H. unfold py_index. cbv zeta.
  destruct (idx <? 0)%Z eqn:E1.
  - apply Z.ltb_lt in E1.
    destruct (idx + _ <? 0)%Z eqn:E2; [done|]. apply Z.ltb_ge in E2. lia.
  - rewrite E1. apply Z.ltb_ge in E1.
    rewrite lookup_ge_None_2; [done|]. lia.
Qed.

Lemma py_index_negative {A} (l : list A) (idx : Z) :
  (- Z.of_nat (length l) ≤ idx < 0)%Z →
  py_index l idx = py_index l (idx + Z.of_nat (length l)).
Proof.
  intros H. unfold py_index. cbv zeta.
  assert ((idx <? 0)%Z = true) as -> by (apply Z.ltb_lt; lia).
  assert ((idx + Z.of_nat (length l) <? 0)%Z = false) as E
    by (apply Z.ltb_ge; lia).
  rewrite E. cbv iota. by rewrite E.
Qed.

Lemma py_index_in_range {A} (l : list A) (idx : Z) :
  (0 ≤ idx < Z.of_nat (length l))%Z →
  ∃ x, l !! Z.to_nat idx = Some x ∧ py_index l idx = Ok x.
Proof.
  intros H. unfold py_index. cbv zeta.
  assert ((idx <? 0)%Z = false) as E by (apply Z.ltb_ge; lia).
  rewrite E. cbv iota. rewrite E.
  destruct (lookup_lt_is_Some_2 l (Z.to_nat idx)) as [x Hx]; [lia|].
  exists x. by rewrite Hx.
Qed.

Lemma as_list_alloc_array (h : gmap loc obj) (l : loc) (a : ndarray) (x : val) :
  h !! l = None → as_list (<[l:=OArray a]> h) x = as_list h x.
Proof.
  intros Hl. destruct x as [| | | |k]; try done. simpl.
  destruct (decide (l = k)) as [<-|Hne].
  - by rewrite lookup_insert_eq, Hl.
  - by rewrite lookup_insert_ne.
Qed.

Lemma attr_item_alloc_array (self : gmap string val) (name : string)
    (idx : Z) (h : gmap loc obj) (l : loc) (a : ndarray) :
  h !! l = None →
  attr_item self name idx (<[l:=OArray a]> h) = attr_item self name idx h.
Proof.
  intros Hl. unfold attr_item. destruct (getattr self name) as [xs|]; [|done].
  simpl. by rewrite as_list_alloc_array.
Qed.

Lemma fresh_loc_None (h : gmap loc obj) : h !! fresh (dom h) = None.
Proof. apply not_elem_of_dom, is_fresh. Qed.

(** ** The call: binding and the assertions (lines 18-22) *)

(** the arguments of a call are bound, or Python raises [TypeError] *)
Lemma bind_arguments_cases (args : list val) (kwds : list (string * val)) :
  (bind_arguments args kwds = Raise TypeError
   ∧ (3 < length args
      ∨ (∃ key, key ∈ kwds.*1
                ∧ key ∈ "self" :: take (length args) init_params)
      ∨ parameter args kwds 0 "ids" = None
      ∨ parameter args kwds 1 "targets" = None))
  ∨ (∃ ids targets,
       bind_arguments args kwds
       = Ok (ids, targets, default VNone (parameter args kwds 2 "transforms"),
             filter (λ kv, kv.1 ∉ init_params) kwds)
       ∧ length args ≤ 3
       ∧ (∀ key, key ∈ kwds.*1 →
            key ∉ "self" :: take (length args) init_params)
       ∧ parameter args kwds 0 "ids" = Some ids
       ∧ parameter args kwds 1 "targets" = Some targets).
Proof.
  unfold bind_arguments.
  destruct (length init_params <? length args) eqn:Elen.
  { left. split; [done|]. left. apply Nat.ltb_lt in Elen. simpl in Elen. lia. }
  apply Nat.ltb_ge in Elen. simpl in Elen.
  destruct (bound_twice args kwds) eqn:Ekw.
  { left. split; [done|]. right; left. by apply bound_twice_true. }
  simpl.
  destruct (parameter args kwds 0 "ids") as [ids|].
  2: { left. split; [done|]. by (right; right; left). }
  destruct (parameter args kwds 1 "targets") as [targets|].
  2: { left. split; [done|]. by (right; right; right). }
  right. exists ids, targets. split; [done|]. split; [done|].
  split; [by apply bound_twice_false|done].
Qed.

(** X7.  A call of [BaseDataset] raises [TypeError] exactly when Python
    cannot bind its arguments: more than three positional arguments, a
    keyword named [self] or as a parameter that has a positional
    argument, or no value for [ids] or for [targets].  It raises
    [AssertionError] exactly when the arguments bind and [ids] is no
    list, [targets] is no list or the two lists differ in length.  It
    raises nothing else: [transforms] and the keywords that name no
    parameter never make it raise. *)
Theorem init_assertions (base_attrs : gset string) (h : gmap loc obj)
    (args : list val) (kwds : list (string * val)) :
  let out := BaseDataset_call base_attrs h args kwds in
  let unbound :=
    3 < length args
    ∨ (∃ key, key ∈ kwds.*1 ∧ key ∈ "self" :: take (length args) init_params)
    ∨ parameter args kwds 0 "ids" = None
    ∨ parameter args kwds 1 "targets" = None in
  (raised out = Some TypeError ↔ unbound)
  ∧ (raised out = Some AssertionError
     ↔ ¬ unbound
       ∧ ∃ ids targets,
           parameter args kwds 0 "ids" = Some ids
           ∧ parameter args kwds 1 "targets" = Some targets
           ∧ (as_list h ids = None ∨ as_list h targets = None
              ∨ ∃ ids_l targets_l,
                  as_list h ids = Some ids_l
                  ∧ as_list h targets = Some targets_l
                  ∧ length ids_l ≠ length targets_l))
  ∧ (raised out = None
     ↔ ¬ unbound
       ∧ ∃ ids targets ids_l targets_l,
           parameter args kwds 0 "ids" = Some ids
           ∧ parameter args kwds 1 "targets" = Some targets
           ∧ as_list h ids = Some ids_l ∧ as_list h targets = Some targets_l
           ∧ length ids_l = length targets_l)
  ∧ (∀ e, out = Raise e → e = TypeError ∨ e = AssertionError).
Proof.
  intros out unbound. subst out. unfold BaseDataset_call.
  destruct (bind_arguments_cases args kwds)
    as [[-> Hun]|(ids & targets & -> & Hlen & Hkw & Hi & Ht)].
  { simpl. split; [done|]. split; [split; [done|by intros [? _]]|].
    split; [split; [done|by intros [? _]]|]. intros e [= <-]. by left. }
  assert (¬ unbound) as Hbound.
  { intros [?|[(key & Hin & Hp)|[?|?]]]; [lia|by apply (Hkw key)|congruence..]. }
  unfold init_body.
  destruct (as_list h ids) as [ids_l|] eqn:Eids.
  2: { simpl. split; [split; [done|by intros ?%Hbound]|]. split; [|split].
       - split; [|done]. intros _. split; [done|].
         exists ids, targets. repeat (split; [done|]). by left.
       - split; [done|]. intros (_ & ? & ? & ? & ? & ? & ? & ? & _). congruence.
       - intros e [= <-]. by right. }
  destruct (as_list h targets) as [targets_l|] eqn:Etargets.
  2: { simpl. split; [split; [done|by intros ?%Hbound]|]. split; [|split].
       - split; [|done]. intros _. split; [done|].
         exists ids, targets. repeat (split; [done|]). by (right; left).
       - split; [done|].
         intros (_ & ? & ? & ? & ? & ? & ? & ? & ? & _). congruence.
       - intros e [= <-]. by right. }
  destruct (length ids_l =? length targets_l) eqn:E; simpl.
  - apply Nat.eqb_eq in E.
    split; [split; [done|by intros ?%Hbound]|]. split; [|split].
    + split; [done|].
      intros (_ & ids' & targets' & Hi' & Ht' & H).
      assert (ids' = ids) as -> by congruence.
      assert (targets' = targets) as -> by congruence.
      destruct H as [?|[?|(? & ? & ? & ? & ?)]]; congruence.
    + split; [|done]. intros _. split; [done|].
      by exists ids, targets, ids_l, targets_l.
    + done.
  - apply Nat.eqb_neq in E.
    split; [split; [done|by intros ?%Hbound]|]. split; [|split].
    + split; [|done]. intros _. split; [done|].
      exists ids, targets. repeat (split; [done|]). right; right.
      by exists ids_l, targets_l.
    + split; [done|].
      intros (_ & ids' & targets' & ids_l' & targets_l' & Hi' & Ht' & ? & ? & ?).
      assert (ids' = ids) as -> by congruence.
      assert (targets' = targets) as -> by congruence.
      congruence.
    + intros e [= <-]. by right.
Qed.

(** ** __len__ (lines 44-45) *)

(** the instance that a call returns *)
Lemma call_returns (base_attrs : gset string) (h : gmap loc obj)
    (args : list val) (kwds : list (string * val)) (self : gmap string val) :
  BaseDataset_call base_attrs h args kwds = Ok self →
  ∃ ids targets ids_l targets_l,
    parameter args kwds 0 "ids" = Some ids
    ∧ parameter args kwds 1 "targets" = Some targets
    ∧ as_list h ids = Some ids_l ∧ as_list h targets = Some targets_l
    ∧ length ids_l = length targets_l
    ∧ self !! "ids" = Some ids ∧ self !! "targets" = Some targets
    ∧ self !! "transforms"
      = Some (let transforms :=
                default VNone (parameter args kwds 2 "transforms") in
              match transforms with
              | VNone => VCallable IdentitiyTransforms
              | _ => transforms
              end).
Proof.
  unfold BaseDataset_call.
  destruct (bind_arguments_cases args kwds)
    as [[-> _]|(ids & targets & -> & _ & _ & Hi & Ht)]; [done|].
  unfold init_body.
  destruct (as_list h ids) as [ids_l|] eqn:Eids; [|done].
  destruct (as_list h targets) as [targets_l|] eqn:Etargets; [|done].
  destruct (length ids_l =? length targets_l) eqn:E; simpl; [|done].
  apply Nat.eqb_eq in E. intros [= <-]. exists ids, targets, ids_l, targets_l.
  repeat (split; [done|]).
  split; [by apply foldl_set_kwarg_keeps|].
  split; [by apply foldl_set_kwarg_keeps|].
  apply foldl_set_kwarg_keeps. unfold init_fields, setattr.
  by rewrite lookup_insert_eq.
Qed.

Lemma init_returns (base_attrs : gset string) (h : gmap loc obj)
    (ids targets transforms : val) (kwargs : list (string * val))
    (self : gmap string val) :
  __init__ base_attrs h ids targets transforms kwargs = Ok self →
  ∃ ids_l targets_l,
    as_list h ids = Some ids_l ∧ as_list h targets = Some targets_l
    ∧ length ids_l = length targets_l
    ∧ self !! "ids" = Some ids ∧ self !! "targets" = Some targets
    ∧ self !! "transforms"
      = Some (match transforms with
              | VNone => VCallable IdentitiyTransforms
              | _ => transforms
              end).
Proof.
  unfold __init__. intros Hcall.
  destruct (call_returns _ _ _ _ _ Hcall)
    as (ids' & targets' & ids_l & targets_l & [= <-] & [= <-] & H).
  unfold parameter in H. simpl in H. by exists ids_l, targets_l.
Qed.

(** X8.  On the instance that a call of [BaseDataset] returns, [__len__]
    is the number of entries of the list that the parameter [ids] is
    bound to, by position or by keyword, and that is the number of
    targets: no other keyword changes it. *)
Theorem len_counts_ids (base_attrs : gset string) (h : gmap loc obj)
    (args : list val) (kwds : list (string * val)) (self : gmap string val) :
  BaseDataset_call base_attrs h args kwds = Ok self →
  ∃ ids targets ids_l targets_l,
    parameter args kwds 0 "ids" = Some ids
    ∧ parameter args kwds 1 "targets" = Some targets
    ∧ as_list h ids = Some ids_l ∧ as_list h targets = Some targets_l
    ∧ __len__ self h = Ok (Z.of_nat (length ids_l))
    ∧ length targets_l = length ids_l.
Proof.
  intros Hcall.
  destruct (call_returns _ _ _ _ _ Hcall)
    as (ids & targets & ids_l & targets_l & Hi & Ht & Hids & Htargets & Hlen
        & Hself & _).
  exists ids, targets, ids_l, targets_l. repeat (split; [done|]).
  split; [|done].
  unfold __len__, getattr. rewrite Hself. simpl. by rewrite Hids.
Qed.

Lemma len_counts_ids_witness :
  ∃ ids targets ids_l targets_l,
    parameter [VRef 0] example_keywords 0 "ids" = Some ids
    ∧ parameter [VRef 0] example_keywords 1 "targets" = Some targets
    ∧ as_list example_heap ids = Some ids_l
    ∧ as_list example_heap targets = Some targets_l
    ∧ __len__
        (foldl (set_kwarg {["__class__"]})
           (init_fields (VRef 0) (VRef 1) VNone)
           [("phase", VStr "train"); ("__len__", VInt 0)])
        example_heap
      = Ok (Z.of_nat (length ids_l))
    ∧ length targets_l = length ids_l.
Proof.
  apply (len_counts_ids {["__class__"]} example_heap [VRef 0]
           example_keywords).
  reflexivity.
Defined.

(** ** __getitem__: the index (lines 36-37) *)

Section IndexFacts.

Variable float_to_uint8 : float → Z.
Variable imread : string → result ndarray.
Variable user_call : string → val → val → stateful (val * val).

(** an index outside the list of ids: the first statement raises *)
Lemma getitem_out_of_range (self : gmap string val) (idx : Z)
    (h : gmap loc obj) (ids : val) (ids_l : list val) :
  self !! "ids" = Some ids → as_list h ids = Some ids_l →
  (idx < - Z.of_nat (length ids_l) ∨ Z.of_nat (length ids_l) ≤ idx)%Z →
  __getitem__ float_to_uint8 imread user_call self idx h
  = (Raise IndexError, h).
Proof.
  intros Hi Hids Hidx. unfold __getitem__, load_item, attr_item, getattr.
  rewrite Hi. simpl. rewrite Hids. by rewrite py_index_out_of_range.
Qed.

(** X9.  For an index outside [-len, len), [__getitem__] raises
    [IndexError] at [self.ids[idx]]: no image is read, nothing is copied
    and the heap is as before. *)
Theorem getitem_index_error (self : gmap string val) (idx : Z)
    (h : gmap loc obj) (ids : val) (ids_l : list val) :
  self !! "ids" = Some ids → as_list h ids = Some ids_l →
  (idx < - Z.of_nat (length ids_l) ∨ Z.of_nat (length ids_l) ≤ idx)%Z →
  __getitem__ float_to_uint8 imread user_call self idx h
  = (Raise IndexError, h).
Proof.
  intros Hi Hids Hidx.
  assert (attr_item self "ids" idx h = Raise IndexError) as Hitem.
  { unfold attr_item, getattr. rewrite Hi. simpl. rewrite Hids.
    by apply py_index_out_of_range. }
  unfold __getitem__, load_item. by rewrite Hitem.
Qed.

(** X10.  A negative index counts from the end: when ids and targets
    have the same length [len], [__getitem__(idx)] for
    [-len <= idx < 0] is [__getitem__(idx + len)], result and heap. *)
Theorem getitem_negative_index (self : gmap string val) (idx : Z)
    (h : gmap loc obj) (ids targets : val) (ids_l targets_l : list val) :
  self !! "ids" = Some ids → as_list h ids = Some ids_l →
  self !! "targets" = Some targets → as_list h targets = Some targets_l →
  length targets_l = length ids_l →
  (- Z.of_nat (length ids_l) ≤ idx < 0)%Z →
  __getitem__ float_to_uint8 imread user_call self idx h
  = __getitem__ float_to_uint8 imread user_call self
      (idx + Z.of_nat (length ids_l)) h.
Proof.
  intros Hi Hids Ht Htargets Hlen Hidx.
  assert (load_item float_to_uint8 imread self idx h
          = load_item float_to_uint8 imread self
              (idx + Z.of_nat (length ids_l)) h) as Hload.
  { unfold load_item, attr_item, getattr. rewrite Hi. simpl. rewrite Hids.
    by rewrite (py_index_negative ids_l idx). }
  unfold __getitem__. rewrite <- Hload.
  destruct (load_item float_to_uint8 imread self idx h) as [arr|e]; [|done].
  cbv zeta. rewrite !attr_item_alloc_array by apply fresh_loc_None.
  assert (attr_item self "targets" idx h
          = attr_item self "targets" (idx + Z.of_nat (length ids_l)) h) as ->;
    [|done].
  unfold attr_item, getattr. rewrite Ht. simpl. rewrite Htargets.
  rewrite <- Hlen. apply py_index_negative. lia.
Qed.

End IndexFacts.

Lemma getitem_index_error_witness :
  __getitem__ (λ _, 0%Z) example_imread clearing_transform example_self 1
    example_heap
  = (Raise IndexError, example_heap).
Proof.
  apply (getitem_index_error (λ _, 0%Z) example_imread clearing_transform
           example_self 1 example_heap (VRef 0) [VStr "a.jpg"]).
  - reflexivity.
  - reflexivity.
  - simpl. lia.
Defined.

Lemma getitem_negative_index_witness :
  __getitem__ (λ _, 0%Z) example_imread clearing_transform example_self (-1)
    example_heap
  = __getitem__ (λ _, 0%Z) example_imread clearing_transform example_self
      (-1 + Z.of_nat (length [VStr "a.jpg"])) example_heap.
Proof.
  apply (getitem_negative_index (λ _, 0%Z) example_imread clearing_transform
           example_self (-1) example_heap (VRef 0) (VRef 1) [VStr "a.jpg"]
           [VRef 2]).
  - reflexivity.
  - reflexivity.
  - reflexivity.
  - reflexivity.
  - reflexivity.
  - simpl. lia.
Defined.

(** ** __getitem__ with the default transforms (lines 12-15, 26) *)

(** a check of [heap_closed] that computes *)
Lemma heap_closed_check (h : gmap loc obj) :
  bool_decide
    (map_Forall (λ _ o, Forall (λ r, is_Some (h !! r)) (obj_refs o)) h) = true →
  heap_closed h.
Proof.
  intros H%bool_decide_eq_true_1 l o r Hl Hr.
  specialize (H l o Hl). simpl in H. rewrite Forall_forall in H. by apply H.
Qed.

Lemma example_heap_closed : heap_closed example_heap.
Proof. apply heap_closed_check. vm_compute. reflexivity. Qed.

(** X11.  A dataset built without transforms uses
    [_IdentitiyTransforms]: [__getitem__] returns the pair of a new array
    object, which holds what [_load_image] returned, and the deep copy of
    the stored target; the copy reaches no object that was there before,
    and every object that was there is unchanged. *)
Theorem getitem_default_transforms (base_attrs : gset string)
    (float_to_uint8 : float → Z) (imread : string → result ndarray)
    (user_call : string → val → val → stateful (val * val))
    (h : gmap loc obj) (ids targets : val) (kwargs : list (string * val))
    (self : gmap string val) (idx : Z) (arr : ndarray) (stored : val) :
  heap_closed h →
  __init__ base_attrs h ids targets VNone kwargs = Ok self →
  load_item float_to_uint8 imread self idx h = Ok arr →
  attr_item self "targets" idx h = Ok stored →
  ∃ copy h',
    __getitem__ float_to_uint8 imread user_call self idx h
    = (Ok (VRef (fresh (dom h)), copy), h')
    ∧ h' !! fresh (dom h) = Some (OArray arr)
    ∧ is_deep_copy (<[fresh (dom h):=OArray arr]> h) stored h' copy
    ∧ (∀ l, reach h' copy l → h !! l = None)
    ∧ (∀ l o, h !! l = Some o → h' !! l = Some o).
Proof.
  intros Hclosed Hinit Hload Hstored.
  destruct (init_returns _ _ _ _ _ _ _ Hinit) as (_ & _ & _ & _ & _ & _ & _ & Htr).
  destruct (getitem_copy float_to_uint8 imread user_call self idx h arr stored
              (VCallable IdentitiyTransforms) Hclosed Hload)
    as (copy & h2 & Ecopy & Eget & Hnew & Hold & Hdeep).
  { by rewrite attr_item_alloc_array by apply fresh_loc_None. }
  { unfold getattr. by rewrite Htr. }
  exists copy, h2. split; [by rewrite Eget|].
  split; [|done].
  destruct (deepcopy_fresh _ _ _ _ Ecopy) as [Hkeep _].
  apply Hkeep, lookup_insert_eq.
Qed.

Lemma getitem_default_transforms_witness :
  ∃ copy h',
    __getitem__ (λ _, 0%Z) example_imread clearing_transform
      (foldl (set_kwarg {["__class__"]})
         (init_fields (VRef 0) (VRef 1) VNone) example_kwargs)
      0 example_heap
    = (Ok (VRef (fresh (dom example_heap)), copy), h')
    ∧ h' !! fresh (dom example_heap)
      = Some (OArray (NdArray UInt8 [1; 1; 3] true [SInt 1; SInt 2; SInt 3]))
    ∧ is_deep_copy
        (<[fresh (dom example_heap):=
             OArray (NdArray UInt8 [1; 1; 3] true [SInt 1; SInt 2; SInt 3])]>
           example_heap)
        (VRef 2) h' copy
    ∧ (∀ l, reach h' copy l → example_heap !! l = None)
    ∧ (∀ l o, example_heap !! l = Some o → h' !! l = Some o).
Proof.
  apply (getitem_default_transforms {["__class__"]} (λ _, 0%Z) example_imread
           clearing_transform example_heap (VRef 0) (VRef 1) example_kwargs).
  - apply example_heap_closed.
  - reflexivity.
  - reflexivity.
  - reflexivity.
Defined.

(** ** _load_image: the branch for four axes (lines 62-64) *)

Lemma chunks_lookup {A} (n rows : nat) (l : list A) (r : nat) :
  r < rows → Tiny.chunks n rows l !! r = Some (take n (drop (r * n) l)).
Proof.
  revert l r. induction rows as [|k IH]; intros l r Hr; [lia|].
  destruct r as [|r]; simpl; [done|].
  rewrite IH by lia. by rewrite drop_drop, (Nat.add_comm n).
Qed.

Lemma length_chunk {A} (n rows : nat) (l : list A) (r : nat) :
  length l = rows * n → r < rows → length (take n (drop (r * n) l)) = n.
Proof. intros Hl Hr. rewrite length_take, length_drop. nia. Qed.

(** the kept entries of [img[:, :, :3]] in a 4-d array *)
Lemma slice_lookup (a b c d : nat) (data : list scalar) (i j k l : nat) :
  length data = a * b * c * d → i < a → j < b → k < Nat.min c 3 → l < d →
  concat (map (take (Nat.min c 3 * (d * 1)))
            (Tiny.chunks (c * (d * 1)) (a * b) data))
    !! ravel [a; b; Nat.min c 3; d] [i; j; k; l]
  = data !! ravel [a; b; c; d] [i; j; k; l].
Proof.
  intros Hlen Hi Hj Hk Hl. simpl.
  set (m := Nat.min c 3) in *.
  assert (i * b + j < a * b) as Hr by nia.
  assert (length data = a * b * (c * (d * 1))) as Hlen' by lia.
  replace (i * (b * (m * (d * 1))) + (j * (m * (d * 1)) + (k * (d * 1) + (l * 1 + 0))))
    with ((i * b + j) * (m * (d * 1)) + (k * d + l)) by lia.
  rewrite (TinyFacts.lookup_concat_uniform (m * (d * 1))).
  - rewrite list_lookup_fmap, chunks_lookup by done. simpl.
    rewrite lookup_take_lt by nia. rewrite lookup_take_lt by nia.
    rewrite lookup_drop. f_equal. lia.
  - apply Forall_forall. intros row Hrow.
    apply list_elem_of_fmap in Hrow as (chunk & -> & Hchunk).
    apply list_elem_of_lookup in Hchunk as (r & Hchunk).
    assert (r < a * b) as Hlt.
    { apply lookup_lt_Some in Hchunk.
      by rewrite TinyFacts.length_chunks in Hchunk. }
    rewrite chunks_lookup in Hchunk by done. injection Hchunk as <-.
    rewrite length_take, length_take, length_drop. nia.
  - nia.
Qed.

(** X12.  For an array with four axes, [_load_image] keeps the first three
    indices of the third axis: (a, b, c, d) becomes (a, b, min(c, 3), d),
    and the entry at [i, j, k, l] of the result is the entry at
    [i, j, k, l] of the input, converted to uint8. *)
Theorem load_image_four_axes (float_to_uint8 : float → Z)
    (imread : string → result ndarray) (path : string) (img : ndarray)
    (a b c d : nat) :
  imread path = Ok img → nd_shape img = [a; b; c; d] →
  length (nd_data img) = a * b * c * d →
  ∃ out,
    _load_image float_to_uint8 imread path = Ok out
    ∧ nd_shape out = [a; b; Nat.min c 3; d]
    ∧ length (nd_data out) = a * b * Nat.min c 3 * d
    ∧ ∀ i j k l, i < a → j < b → k < Nat.min c 3 → l < d →
        nd_item out [i; j; k; l]
        = to_uint8 float_to_uint8 <$> nd_item img [i; j; k; l].
Proof.
  intros Hread Hshape Hlen. unfold _load_image. rewrite Hread. simpl.
  eexists. split; [done|].
  assert (nd_shape (if negb (nd_c_contiguous img)
                    then ascontiguousarray img else img) = nd_shape img) as Hs
    by (by destruct (nd_c_contiguous img)).
  assert (nd_data (if negb (nd_c_contiguous img)
                   then ascontiguousarray img else img) = nd_data img) as Hd
    by (by destruct (nd_c_contiguous img)).
  rewrite Hs, Hshape. simpl. unfold slice_axis2_3. rewrite Hs, Hd, Hshape.
  simpl nd_shape. simpl nd_data. split; [done|]. split.
  - rewrite length_map.
    rewrite (TinyFacts.length_concat_uniform (Nat.min c 3 * (d * 1))).
    + rewrite length_map, TinyFacts.length_chunks. lia.
    + apply Forall_forall. intros row Hrow.
      apply list_elem_of_fmap in Hrow as (chunk & -> & Hchunk).
      apply list_elem_of_lookup in Hchunk as (r & Hchunk).
      assert (r < a * b) as Hlt.
      { apply lookup_lt_Some in Hchunk. by rewrite TinyFacts.length_chunks in Hchunk. }
      rewrite chunks_lookup in Hchunk by done. injection Hchunk as <-.
      rewrite length_take, length_take, length_drop. nia.
  - intros i j k l Hi Hj Hk Hl. unfold nd_item. simpl nd_shape. simpl nd_data.
    rewrite Hshape.
    rewrite !decide_True by (repeat constructor; lia).
    rewrite list_lookup_fmap. f_equal. by apply slice_lookup.
Qed.

Lemma load_image_four_axes_witness :
  ∃ out,
    _load_image (λ _, 0%Z)
      (λ _, Ok (NdArray UInt8 [1; 1; 4; 2] true
                  (SInt <$> [1; 2; 3; 4; 5; 6; 7; 8]%Z))) "a.gif"
    = Ok out
    ∧ nd_shape out = [1; 1; Nat.min 4 3; 2]
    ∧ length (nd_data out) = 1 * 1 * Nat.min 4 3 * 2
    ∧ ∀ i j k l, i < 1 → j < 1 → k < Nat.min 4 3 → l < 2 →
        nd_item out [i; j; k; l]
        = to_uint8 (λ _, 0%Z)
            <$> nd_item (NdArray UInt8 [1; 1; 4; 2] true
                           (SInt <$> [1; 2; 3; 4; 5; 6; 7; 8]%Z))
                  [i; j; k; l].
Proof.
  apply (load_image_four_axes (λ _, 0%Z)
           (λ _, Ok (NdArray UInt8 [1; 1; 4; 2] true
                       (SInt <$> [1; 2; 3; 4; 5; 6; 7; 8]%Z))) "a.gif"
           _ 1 1 4 2).
  - reflexivity.
  - reflexivity.
  - reflexivity.
Defined.

(** the six entries that are kept of a (1, 1, 4, 2) array *)
Example load_four_axes :
  nd_data <$> raised_value
    (_load_image (λ _, 0%Z)
       (λ _, Ok (NdArray UInt8 [1; 1; 4; 2] true
                   (SInt <$> [1; 2; 3; 4; 5; 6; 7; 8]%Z))) "a.gif")
  = Some (SInt <$> [1; 2; 3; 4; 5; 6]%Z).
Proof. reflexivity. Qed.

(** ** _load_image on an image that is uint8 already (line 69) *)

Lemma to_uint8_fits (c : float → Z) (data : list scalar) :
  Forall (λ x, ∃ z, x = SInt z ∧ (0 ≤ z < 256)%Z) data →
  map (to_uint8 c) data = data.
Proof.
  induction 1 as [|x data (z & -> & Hz) _ IH]; simpl; [done|].
  rewrite IH. by rewrite Z.mod_small.
Qed.

(** X13.  An array with three axes whose entries are integers from 0 to
    255 is returned with its shape and its entries as they are, as a
    C-contiguous uint8 array. *)
Theorem load_image_uint8_unchanged (float_to_uint8 : float → Z)
    (imread : string → result ndarray) (path : string) (img : ndarray) :
  imread path = Ok img → length (nd_shape img) = 3 → uint8_valued img →
  _load_image float_to_uint8 imread path
  = Ok (NdArray UInt8 (nd_shape img) true (nd_data img)).
Proof.
  intros Hread Hlen Hfit. unfold _load_image. rewrite Hread. simpl.
  assert (nd_shape (if negb (nd_c_contiguous img)
                    then ascontiguousarray img else img) = nd_shape img) as Hs
    by (by destruct (nd_c_contiguous img)).
  assert (nd_data (if negb (nd_c_contiguous img)
                   then ascontiguousarray img else img) = nd_data img) as Hd
    by (by destruct (nd_c_contiguous img)).
  rewrite Hs, Hlen. simpl. unfold array_uint8. rewrite Hs, Hd.
  by rewrite to_uint8_fits.
Qed.

Lemma load_image_uint8_unchanged_witness :
  _load_image (λ _, 0%Z) example_imread "a.jpg"
  = Ok (NdArray UInt8 [1; 1; 3] true [SInt 1; SInt 2; SInt 3]).
Proof.
  apply (load_image_uint8_unchanged (λ _, 0%Z) example_imread "a.jpg"
           (NdArray UInt8 [1; 1; 3] true [SInt 1; SInt 2; SInt 3])).
  - reflexivity.
  - reflexivity.
  - repeat constructor; eexists; (split; [reflexivity|lia]).
Defined.

(** ** get_mean_std (lines 79-96) *)

Section MeanStdFacts.

Variable float_to_uint8 : float → Z.
Variable imread : string → result ndarray.
Variable user_call : string → val → val → stateful (val * val).
Variables channel_mean channel_sq_mean : list scalar → float.

Local Abbreviation loop :=
  (mean_std_loop float_to_uint8 imread user_call channel_mean channel_sq_mean).
Local Abbreviation mean_std :=
  (get_mean_std float_to_uint8 imread user_call channel_mean channel_sq_mean).
Local Abbreviation getitem := (__getitem__ float_to_uint8 imread user_call).

(** X14.  On a dataset without ids, [get_mean_std] reads no image and
    returns without an error; the three means and the three deviations
    are NaN, from the division of the zero sums by [len(self) = 0]. *)
Theorem mean_std_of_no_image (self : gmap string val) (h : gmap loc obj)
    (ids : val) (fuel : nat) :
  self !! "ids" = Some ids → as_list h ids = Some [] →
  mean_std (S fuel) self h
  = Some (Ok ([nan; nan; nan]%float, [nan; nan; nan]%float), h).
Proof.
  intros Hi Hids. unfold get_mean_std, __len__, getattr. rewrite Hi. simpl.
  rewrite Hids.
  rewrite (getitem_out_of_range float_to_uint8 imread user_call self 0 h ids [])
    by (done || (simpl; lia)).
  simpl. rewrite ?Hi. simpl. rewrite ?Hids. reflexivity.
Qed.

Hypothesis user_call_local : transform_local user_call.

(** the loop ends at the latest when the index leaves the list of ids:
    the list is on the heap before the first round and no round changes
    an object that was there *)
Lemma mean_std_loop_returns (self : gmap string val) (ids : val)
    (ids_l : list val) (h0 : gmap loc obj) (k : nat) :
  self !! "ids" = Some ids → as_list h0 ids = Some ids_l →
  ∀ (idx : Z) (acc : list float * list float) (h : gmap loc obj),
    (0 ≤ idx)%Z → (Z.of_nat (length ids_l) ≤ idx + Z.of_nat k)%Z →
    (∀ l o, h0 !! l = Some o → h !! l = Some o) →
    ∃ r h',
      loop (S k) self idx acc h = Some (r, h')
      ∧ ∀ l o, h0 !! l = Some o → h' !! l = Some o.
Proof.
  intros Hi Hids.
  assert (∀ h : gmap loc obj, (∀ l o, h0 !! l = Some o → h !! l = Some o) →
          as_list h ids = Some ids_l) as Hsame.
  { intros h Hext. destruct ids as [| | | |l]; try done. simpl in *.
    destruct (h0 !! l) as [o|] eqn:E; [|done].
    by rewrite (Hext l o E). }
  induction k as [|k IH]; intros idx acc h Hidx Hk Hext.
  - simpl.
    rewrite (getitem_out_of_range float_to_uint8 imread user_call self idx h
               ids ids_l Hi (Hsame h Hext)) by lia.
    simpl. by exists (Ok acc), h.
  - cbn [mean_std_loop].
    destruct (getitem self idx h) as [[[img t]|e] h1] eqn:E.
    + assert (∀ l o, h0 !! l = Some o → h1 !! l = Some o) as Hext1.
      { intros l o Hl.
        pose proof (getitem_frame float_to_uint8 imread user_call
                      user_call_local self idx h l o (Hext l o Hl)) as Hf.
        by rewrite E in Hf. }
      destruct (accumulate channel_mean channel_sq_mean img acc h1) as [acc'|e].
      * apply IH; [lia|lia|done].
      * by exists (Raise e), h1.
    + assert (∀ l o, h0 !! l = Some o → h1 !! l = Some o) as Hext1.
      { intros l o Hl.
        pose proof (getitem_frame float_to_uint8 imread user_call
                      user_call_local self idx h l o (Hext l o Hl)) as Hf.
        by rewrite E in Hf. }
      destruct (decide (e = IndexError)); by eexists _, h1.
Qed.

(** X15.  For transforms that change only what their arguments reach,
    the loop of [get_mean_std] ends after at most [len(self.ids) + 1]
    calls of [__getitem__], with a value or an exception, and every
    object that was on the heap before is unchanged. *)
Theorem mean_std_returns (self : gmap string val) (ids : val)
    (ids_l : list val) (h : gmap loc obj) (fuel : nat) :
  self !! "ids" = Some ids → as_list h ids = Some ids_l →
  length ids_l < fuel →
  ∃ r h',
    mean_std fuel self h = Some (r, h')
    ∧ ∀ l o, h !! l = Some o → h' !! l = Some o.
Proof.
  intros Hi Hids Hfuel. destruct fuel as [|k]; [lia|].
  assert (∀ h' : gmap loc obj, (∀ l o, h !! l = Some o → h' !! l = Some o) →
          __len__ self h' = Ok (Z.of_nat (length ids_l))) as Hlen.
  { intros h' Hext. unfold __len__, getattr. rewrite Hi. simpl.
    destruct ids as [| | | |l]; try done. simpl in *.
    destruct (h !! l) as [o|] eqn:E; [|done]. rewrite (Hext l o E).
    by destruct o; simplify_eq. }
  unfold get_mean_std. rewrite (Hlen h) by done.
  destruct (mean_std_loop_returns self ids ids_l h k Hi Hids 0
              ([0; 0; 0]%float, [0; 0; 0]%float) h)
    as (r & h' & -> & Hext); [lia|lia|done|].
  destruct r as [sums|e]; [|by eexists _, h'].
  rewrite (Hlen h') by done. by eexists _, h'.
Qed.

End MeanStdFacts.

Lemma mean_std_of_no_image_witness :
  get_mean_std (λ _, 0%Z) example_imread clearing_transform (λ _, 0%float)
    (λ _, 0%float) 1 example_self (<[0:=OList []]> example_heap)
  = Some (Ok ([nan; nan; nan]%float, [nan; nan; nan]%float),
          <[0:=OList []]> example_heap).
Proof.
  apply (mean_std_of_no_image (λ _, 0%Z) example_imread clearing_transform
           (λ _, 0%float) (λ _, 0%float) example_self
           (<[0:=OList []]> example_heap) (VRef 0) 0).
  - reflexivity.
  - reflexivity.
Defined.


(** ** get_mean_std with the default transforms *)

Lemma copy_inv_alloc_array (h0 h : gmap loc obj) (arr : ndarray) :
  copy_inv h0 (∅, h) → copy_inv h0 (∅, <[fresh (dom h):=OArray arr]> h).
Proof.
  intros (I1 & I2 & I3). simpl in *.
  assert (h !! fresh (dom h) = None) as Hf by apply fresh_loc_None.
  split; [|split]; simpl.
  - intros l o Hl. rewrite lookup_insert_ne; [by apply I1|].
    intros Heq. rewrite Heq in Hf. rewrite (I1 l o Hl) in Hf. done.
  - intros l l'. by rewrite lookup_empty.
  - intros l' o r Hn. destruct (decide (fresh (dom h) = l')) as [<-|Hne].
    + rewrite lookup_insert_eq. intros [= <-] Hr. by apply elem_of_nil in Hr.
    + rewrite lookup_insert_ne by done. by apply I3.
Qed.

Lemma copy_inv_forget (h0 : gmap loc obj) (st : gmap loc loc * gmap loc obj) :
  copy_inv h0 st → copy_inv h0 (∅, st.2).
Proof.
  intros (I1 & I2 & I3). split; [done|]. split; [|done].
  intros l l'. simpl. by rewrite lookup_empty.
Qed.

Lemma copy_inv_as_list (h0 h : gmap loc obj) (x : val) (elems : list val) :
  copy_inv h0 (∅, h) → as_list h0 x = Some elems → as_list h x = Some elems.
Proof.
  intros (I1 & _) Hx. destruct x as [| | | |l]; try done. simpl in *.
  destruct (h0 !! l) as [o|] eqn:E; [|done]. by rewrite (I1 l o E).
Qed.

Lemma copy_inv_size (h0 h : gmap loc obj) :
  copy_inv h0 (∅, h) → size h0 ≤ size h.
Proof.
  intros (I1 & _). rewrite <- !size_dom. apply subseteq_size.
  intros l [o Ho]%elem_of_dom. apply elem_of_dom. exists o. by apply I1.
Qed.

Section DefaultTransforms.

Variable float_to_uint8 : float → Z.
Variable imread : string → result ndarray.
Variable user_call : string → val → val → stateful (val * val).
Variables channel_mean channel_sq_mean : list scalar → float.

Variable h0 : gmap loc obj.
Hypothesis h0_closed : heap_closed h0.

Variable self : gmap string val.
Variables ids targets : val.
Variables (ids_l targets_l : list val).
Hypothesis self_ids : self !! "ids" = Some ids.
Hypothesis self_targets : self !! "targets" = Some targets.
Hypothesis self_transforms :
  self !! "transforms" = Some (VCallable IdentitiyTransforms).
Hypothesis ids_list : as_list h0 ids = Some ids_l.
Hypothesis targets_list : as_list h0 targets = Some targets_l.

(** one call of [__getitem__] in a heap that the earlier calls have
    extended *)
Lemma getitem_default_step (h : gmap loc obj) (i : nat) (path : string)
    (arr : ndarray) (stored : val) :
  copy_inv h0 (∅, h) →
  ids_l !! i = Some (VStr path) → targets_l !! i = Some stored →
  _load_image float_to_uint8 imread path = Ok arr →
  ∃ copy h',
    __getitem__ float_to_uint8 imread user_call self (Z.of_nat i) h
    = (Ok (VRef (fresh (dom h)), copy), h')
    ∧ h' !! fresh (dom h) = Some (OArray arr)
    ∧ copy_inv h0 (∅, h').
Proof.
  intros Hinv Hid Hst Hload.
  assert (∀ (l : list val) x, l !! i = Some x →
          py_index l (Z.of_nat i) = Ok x) as Hindex.
  { intros l x Hx.
    destruct (py_index_in_range l (Z.of_nat i)) as (y & Hy & ->).
    - apply lookup_lt_Some in Hx. lia.
    - rewrite Nat2Z.id in Hy. congruence. }
  assert (val_in h0 stored) as Hin.
  { intros r Hr. destruct targets as [| | | |lt]; try done. simpl in *.
    destruct (h0 !! lt) as [[| elems |]|] eqn:Elt; try done.
    injection targets_list as ->.
    apply (h0_closed lt (OList targets_l) r Elt). simpl.
    apply list_elem_of_In, in_flat_map. exists stored.
    split; apply list_elem_of_In; [by eapply list_elem_of_lookup_2|done]. }
  unfold __getitem__, load_item.
  assert (attr_item self "ids" (Z.of_nat i) h = Ok (VStr path)) as ->.
  { unfold attr_item, getattr. rewrite self_ids. simpl.
    rewrite (copy_inv_as_list h0 h ids ids_l) by done. by apply Hindex. }
  simpl. rewrite Hload. cbv zeta.
  rewrite attr_item_alloc_array by apply fresh_loc_None.
  assert (attr_item self "targets" (Z.of_nat i) h = Ok stored) as ->.
  { unfold attr_item, getattr. rewrite self_targets. simpl.
    rewrite (copy_inv_as_list h0 h targets targets_l) by done.
    by apply Hindex. }
  set (h1 := <[fresh (dom h):=OArray arr]> h).
  assert (copy_inv h0 (∅, h1)) as Hinv1 by by apply copy_inv_alloc_array.
  unfold deepcopy.
  destruct (deepcopy_fuel_total h0 h0_closed (S (size h1)) stored ∅ h1)
    as (y & st' & E & _); [done|done| |].
  { rewrite dom_empty_L, difference_empty_L, size_dom.
    pose proof (copy_inv_size h0 h1 Hinv1). lia. }
  rewrite E. unfold getattr. rewrite self_transforms. simpl.
  exists y, st'.2. split; [done|].
  destruct (deepcopy_fuel_inv h0 _ _ _ _ _ Hinv1 E) as [Hinv' _].
  split; [|by apply copy_inv_forget].
  assert (deepcopy stored h1 = Some (y, st'.2)) as Hcopy
    by (unfold deepcopy; by rewrite E).
  destruct (deepcopy_fresh _ _ _ _ Hcopy) as [Hkeep _].
  apply Hkeep. subst h1. apply lookup_insert_eq.
Qed.

Local Abbreviation loop :=
  (mean_std_loop float_to_uint8 imread user_call channel_mean channel_sq_mean).

Variable paths : list string.
Variable stats : list (list float * list float).
Hypothesis ids_paths : ids_l = VStr <$> paths.
Hypothesis targets_length : length targets_l = length ids_l.
Hypothesis images_load :
  Forall2 (λ path st,
             ∃ arr, _load_image float_to_uint8 imread path = Ok arr
                    ∧ image_stats channel_mean channel_sq_mean arr = Ok st)
    paths stats.

Lemma mean_std_loop_default (rest : list (list float * list float)) :
  ∀ (i : nat) (acc : list float * list float) (h : gmap loc obj),
    drop i stats = rest → copy_inv h0 (∅, h) →
    ∃ h',
      loop (S (length rest)) self (Z.of_nat i) acc h
      = Some (Ok (foldl add_stats acc rest), h')
      ∧ copy_inv h0 (∅, h').
Proof.
  pose proof (Forall2_length _ _ _ images_load) as Hlen.
  induction rest as [|st rest IH]; intros i acc h Hdrop Hinv.
  - assert (length stats ≤ i) as Hge.
    { destruct (decide (length stats ≤ i)); [done|].
      apply (f_equal length) in Hdrop. rewrite length_drop in Hdrop.
      simpl in Hdrop. lia. }
    simpl.
    rewrite (getitem_out_of_range float_to_uint8 imread user_call self
               (Z.of_nat i) h ids ids_l self_ids
               (copy_inv_as_list h0 h ids ids_l Hinv ids_list)).
    + simpl. by exists h.
    + right. rewrite ids_paths, length_fmap. lia.
  - assert (stats !! i = Some st) as Hst.
    { rewrite <- (Nat.add_0_r i), <- lookup_drop, Hdrop. done. }
    destruct (Forall2_lookup_r _ _ _ _ _ images_load Hst)
      as (path & Hpath & arr & Hload & Hstats).
    assert (ids_l !! i = Some (VStr path)) as Hid
      by (by rewrite ids_paths, list_lookup_fmap, Hpath).
    destruct (lookup_lt_is_Some_2 targets_l i) as [stored Hstored].
    { rewrite targets_length. by eapply lookup_lt_Some. }
    destruct (getitem_default_step h i path arr stored Hinv Hid Hstored Hload)
      as (copy & h1 & Eget & Himg & Hinv1).
    cbn [mean_std_loop length]. rewrite Eget.
    unfold accumulate. rewrite Himg, Hstats. simpl.
    replace (Z.of_nat i + 1)%Z with (Z.of_nat (S i)) by lia.
    apply IH; [|done].
    replace (S i) with (i + 1) by lia. by rewrite <- drop_drop, Hdrop.
Qed.

End DefaultTransforms.

(** X16.  On a dataset built without transforms, all of whose images
    load with three channels or more, [get_mean_std] visits every index from
    0 to [len - 1] once, in order, and stops at the [IndexError] of index
    [len]: the result is computed from the sums of the per-image channel
    means over all images and from [len], and no object that was on the
    heap before is changed. *)
Theorem mean_std_default_transforms (base_attrs : gset string)
    (float_to_uint8 : float → Z) (imread : string → result ndarray)
    (user_call : string → val → val → stateful (val * val))
    (channel_mean channel_sq_mean : list scalar → float)
    (h : gmap loc obj) (ids targets : val) (kwargs : list (string * val))
    (self : gmap string val) (paths : list string)
    (stats : list (list float * list float)) :
  heap_closed h →
  __init__ base_attrs h ids targets VNone kwargs = Ok self →
  as_list h ids = Some (VStr <$> paths) →
  Forall2 (λ path st,
             ∃ arr, _load_image float_to_uint8 imread path = Ok arr
                    ∧ image_stats channel_mean channel_sq_mean arr = Ok st)
    paths stats →
  ∃ h',
    get_mean_std float_to_uint8 imread user_call channel_mean channel_sq_mean
      (S (length paths)) self h
    = Some (Ok (mean_std_of
                  (foldl add_stats ([0; 0; 0]%float, [0; 0; 0]%float) stats)
                  (Z.of_nat (length paths))),
            h')
    ∧ ∀ l o, h !! l = Some o → h' !! l = Some o.
Proof.
  intros Hclosed Hinit Hpaths Himages.
  destruct (init_returns _ _ _ _ _ _ _ Hinit)
    as (ids_l & targets_l & Hids & Htargets & Hlen & Hi & Ht & Htr).
  rewrite Hpaths in Hids. injection Hids as <-.
  assert (∀ h' : gmap loc obj, copy_inv h (∅, h') →
          __len__ self h' = Ok (Z.of_nat (length paths))) as Hlength.
  { intros h' Hinv. unfold __len__, getattr. rewrite Hi. simpl.
    rewrite (copy_inv_as_list h h' ids (VStr <$> paths)) by done.
    by rewrite length_fmap. }
  unfold get_mean_std. rewrite (Hlength h) by apply copy_inv_start.
  destruct (mean_std_loop_default float_to_uint8 imread user_call channel_mean
              channel_sq_mean h Hclosed self ids targets (VStr <$> paths)
              targets_l Hi Ht Htr Hpaths Htargets paths stats eq_refl
              (eq_sym Hlen) Himages stats 0
              ([0; 0; 0]%float, [0; 0; 0]%float) h eq_refl (copy_inv_start h))
    as (h' & Eloop & Hinv).
  rewrite <- (Forall2_length _ _ _ Himages) in Eloop.
  change (Z.of_nat 0) with 0%Z in Eloop.
  rewrite Eloop, (Hlength h') by done.
  exists h'. split; [done|]. apply Hinv.
Qed.

Lemma mean_std_returns_witness :
  ∃ r h',
    get_mean_std (λ _, 0%Z) example_imread clearing_transform (λ _, 0%float)
      (λ _, 0%float) 2 example_self example_heap = Some (r, h')
    ∧ ∀ l o, example_heap !! l = Some o → h' !! l = Some o.
Proof.
  apply (mean_std_returns (λ _, 0%Z) example_imread clearing_transform
           (λ _, 0%float) (λ _, 0%float) clearing_transform_local
           example_self (VRef 0) [VStr "a.jpg"] example_heap 2).
  - reflexivity.
  - reflexivity.
  - simpl. lia.
Defined.

(** one image of one pixel: the means are the channel means and the
    deviations are 0 *)
Example mean_std_example :
  (λ out, out.1) <$>
    get_mean_std (λ _, 0%Z) example_imread clearing_transform
      (λ c, match c with [SInt z] => (PrimFloat.of_uint63 (Uint63.of_Z z) / 4)%float | _ => nan end)
      (λ c, match c with [SInt z] => (PrimFloat.of_uint63 (Uint63.of_Z (z * z)) / 16)%float | _ => nan end)
      2 example_self example_heap
  = Some (Ok ([0.25; 0.5; 0.75]%float, [0; 0; 0]%float)).
Proof. vm_compute. reflexivity. Qed.

Lemma mean_std_default_transforms_witness :
  ∃ h',
    get_mean_std (λ _, 0%Z) example_imread clearing_transform
      (λ _, 0.5%float) (λ _, 0.25%float) (S (length ["a.jpg"]))
      (foldl (set_kwarg {["__class__"]})
         (init_fields (VRef 0) (VRef 1) VNone) example_kwargs)
      example_heap
    = Some (Ok (mean_std_of
                  (foldl add_stats ([0; 0; 0]%float, [0; 0; 0]%float)
                     [([0.5; 0.5; 0.5]%float, [0.25; 0.25; 0.25]%float)])
                  (Z.of_nat (length ["a.jpg"]))),
            h')
    ∧ ∀ l o, example_heap !! l = Some o → h' !! l = Some o.
Proof.
  apply (mean_std_default_transforms {["__class__"]} (λ _, 0%Z) example_imread
           clearing_transform (λ _, 0.5%float) (λ _, 0.25%float) example_heap
           (VRef 0) (VRef 1) example_kwargs).
  - apply example_heap_closed.
  - reflexivity.
  - reflexivity.
  - constructor; [|constructor]. eexists. split; reflexivity.
Defined.

End DatasetFacts.


(** * Facts about mypackage/utils/cache.py *)

Module CacheFacts.

Import Cache.

(** ** Paths *)

Lemma removelast_snoc (p : path) (t : string) : removelast (p ++ [t]) = p.
Proof. apply removelast_last. Qed.

Lemma path_snoc (p : path) :
  p ≠ [] → ∃ t, p = removelast p ++ [t].
Proof.
  intros Hne. destruct (exists_last Hne) as (q & t & ->).
  exists t. by rewrite removelast_last.
Qed.

Lemma prefix_removelast (q p : path) :
  q `prefix_of` p → q ≠ p → q `prefix_of` removelast p.
Proof.
  intros [k ->] Hne. destruct k as [|x k] using rev_ind.
  - by rewrite app_nil_r in Hne.
  - rewrite app_assoc, removelast_last. by exists k.
Qed.

Lemma prefix_snoc_inv (q p : path) (t : string) :
  q `prefix_of` p ++ [t] → q = p ++ [t] ∨ q `prefix_of` p.
Proof.
  intros Hq. destruct (decide (q = p ++ [t])) as [|Hne]; [by left|].
  right. rewrite <- (removelast_last p t). by apply prefix_removelast.
Qed.

(** ** Well-formed file systems *)

Lemma fs_ok_prefix (s : fs) (p q : path) (n : node) :
  fs_ok s → s !! p = Some n → q `prefix_of` p → q ≠ p → s !! q = Some Dir.
Proof.
  intros [Hroot Hup] Hp [k ->]. revert n Hp.
  induction k as [|x k IH] using rev_ind; intros n Hp Hne.
  - by rewrite app_nil_r in Hne.
  - apply Hup in Hp. rewrite app_assoc, removelast_last in Hp.
    destruct k as [|y k]; [by rewrite app_nil_r in Hp|].
    apply (IH Dir Hp). intros Heq.
    apply (f_equal length) in Heq. rewrite length_app in Heq. simpl in Heq. lia.
Qed.

Lemma fs_ok_insert_dir (s : fs) (p : path) :
  fs_ok s → s !! removelast p = Some Dir → fs_ok (<[p:=Dir]> s).
Proof.
  intros [Hroot Hup] Hparent. split.
  - destruct (decide (p = [])) as [->|Hne]; [apply lookup_insert_eq|].
    by rewrite lookup_insert_ne.
  - intros q n. destruct (decide (p = q)) as [<-|Hne].
    + intros _. destruct (decide (p = removelast p)) as [<-|Hne'].
      * apply lookup_insert_eq.
      * by rewrite lookup_insert_ne.
    + rewrite lookup_insert_ne by done. intros Hq%Hup.
      destruct (decide (p = removelast q)) as [<-|Hne'].
      * apply lookup_insert_eq.
      * by rewrite lookup_insert_ne.
Qed.

(** ** mkdir *)

Lemma walk_dirs (s : fs) (names : list string) :
  ∀ cur,
    (∀ k, k < length names → s !! (cur ++ take k names) = Some Dir) →
    walk s cur names = None.
Proof.
  induction names as [|n names IH]; intros cur H; simpl; [done|].
  pose proof (H 0 ltac:(simpl; lia)) as H0. simpl in H0.
  rewrite app_nil_r in H0. rewrite H0. apply IH.
  intros k Hk. rewrite <- app_assoc. simpl.
  apply (H (S k)). simpl. lia.
Qed.

Lemma walk_file (s : fs) (names : list string) :
  ∀ cur k,
    k < length names →
    (∀ j, j < k → s !! (cur ++ take j names) = Some Dir) →
    s !! (cur ++ take k names) = Some File →
    walk s cur names = Some NotADirectoryError.
Proof.
  induction names as [|n names IH]; intros cur k Hk Hdirs Hfile; simpl in *;
    [lia|].
  destruct k as [|k].
  - simpl in Hfile. rewrite app_nil_r in Hfile. by rewrite Hfile.
  - pose proof (Hdirs 0 ltac:(lia)) as H0. simpl in H0.
    rewrite app_nil_r in H0. rewrite H0.
    apply (IH (cur ++ [n]) k); [lia| |].
    + intros j Hj. rewrite <- app_assoc. apply (Hdirs (S j)). lia.
    + by rewrite <- app_assoc.
Qed.

Lemma mkdir_new (s : fs) (p : path) :
  fs_ok s → s !! removelast p = Some Dir → s !! p = None →
  mkdir p s = (None, <[p:=Dir]> s).
Proof.
  intros Hok Hparent Hp. unfold mkdir.
  rewrite walk_dirs.
  - unfold exists_. rewrite bool_decide_eq_false_2; [done|].
    rewrite Hp. by intros [? ?].
  - intros k Hk. simpl.
    destruct (decide (p = [])) as [->|Hne]; [simpl in Hk; lia|].
    destruct (path_snoc p Hne) as [t Ht].
    destruct (decide (take k p = removelast p)) as [->|Hne']; [done|].
    apply (fs_ok_prefix s (removelast p) _ Dir Hok Hparent); [|done].
    rewrite Ht at 1. rewrite take_app_le.
    + apply prefix_take.
    + rewrite Ht, length_app in Hk. simpl in Hk. lia.
Qed.

Lemma mkdir_there (s : fs) (p : path) :
  fs_ok s → s !! p = Some Dir → mkdir p s = (Some FileExistsError, s).
Proof.
  intros Hok Hp. unfold mkdir.
  rewrite walk_dirs.
  - unfold exists_. rewrite bool_decide_eq_true_2; [done|]. by eexists.
  - intros k Hk. simpl.
    apply (fs_ok_prefix s p _ Dir Hok Hp); [apply prefix_take|].
    intros Heq. apply (f_equal length) in Heq. rewrite length_take in Heq. lia.
Qed.

Lemma mkdir_below_file (s : fs) (p q : path) :
  fs_ok s → q `prefix_of` p → q ≠ p → s !! q = Some File →
  mkdir p s = (Some NotADirectoryError, s).
Proof.
  intros Hok [k ->] Hne Hq. unfold mkdir.
  rewrite (walk_file s (q ++ k) [] (length q)).
  - done.
  - rewrite length_app. destruct k; [by rewrite app_nil_r in Hne|simpl; lia].
  - intros j Hj. simpl.
    apply (fs_ok_prefix s q _ File Hok Hq).
    + rewrite take_app_le by lia. apply prefix_take.
    + intros Heq. apply (f_equal length) in Heq.
      rewrite length_take, length_app in Heq. lia.
  - simpl. by rewrite take_app_length.
Qed.

(** ** makedirs *)

Lemma with_dirs_refl (p : path) (s : fs) :
  (∀ q, q `prefix_of` p → s !! q = Some Dir) → with_dirs p s s.
Proof. intros H q. case_decide; [by apply H|done]. Qed.

Lemma makedirs_from_makes (n : nat) :
  ∀ (p : path) (s : fs),
    length p = n → fs_ok s → "." ∉ p → no_file_on p s →
    ∃ s', makedirs_from n p s = (None, s') ∧ fs_ok s' ∧ with_dirs p s s'.
Proof.
  induction n as [|n IH]; intros p s Hlen Hok Hdot Hfile.
  - destruct p; [|done]. simpl.
    rewrite mkdir_there by apply Hok.
    unfold isdir. rewrite bool_decide_eq_true_2 by apply Hok.
    exists s. split; [done|]. split; [done|].
    apply with_dirs_refl. intros q Hq%prefix_nil_inv. subst. apply Hok.
  - assert (p ≠ []) as Hne by (by destruct p).
    destruct (path_snoc p Hne) as [t Ht].
    set (head := removelast p) in *.
    assert (length head = n) as Hhead.
    { rewrite Ht, length_app in Hlen. simpl in Hlen. lia. }
    assert (t ≠ ".") as Ht_dot.
    { intros ->. apply Hdot. rewrite Ht. apply elem_of_app. right.
      apply list_elem_of_here. }
    assert (no_file_on head s) as Hfile_head.
    { intros q Hq. apply Hfile. rewrite Ht. by apply prefix_app_r. }
    assert ("." ∉ head) as Hdot_head.
    { intros Hin. apply Hdot. rewrite Ht. apply elem_of_app. by left. }
    (* the file system once the head is there *)
    assert (∃ s1,
      (let '(err, s1, done) :=
         if bool_decide (p ≠ []) && negb (exists_ head s)
         then
           let '(err, s1) := makedirs_from n head s in
           let err :=
             match err with Some FileExistsError => None | _ => err end in
           (err, s1, bool_decide (last p = Some "."))
         else (None, s, false) in
       (err, s1, done)) = (None, s1, false)
      ∧ fs_ok s1 ∧ with_dirs head s s1) as (s1 & E & Hok1 & Hdirs1).
    { rewrite bool_decide_eq_true_2 by done. simpl.
      destruct (exists_ head s) eqn:Eex; simpl.
      - exists s. split; [done|]. split; [done|].
        apply with_dirs_refl. intros q Hq.
        apply bool_decide_eq_true_1 in Eex as [nd Hnd].
        destruct (decide (q = head)) as [->|Hneq].
        + destruct nd; [|done]. by apply Hfile_head in Hnd.
        + by apply (fs_ok_prefix s head q nd).
      - destruct (IH head s Hhead Hok Hdot_head Hfile_head)
          as (s1 & -> & Hok1 & Hdirs1).
        exists s1. split; [|done].
        rewrite bool_decide_eq_false_2; [done|].
        rewrite Ht, last_snoc. congruence. }
    cbn [makedirs_from]. fold head.
    destruct (if bool_decide (p ≠ []) && negb (exists_ head s)
              then _ else _) as [[err s1'] done'].
    injection E as -> -> ->.
    assert (s1 !! head = Some Dir) as Hhead_dir.
    { rewrite (Hdirs1 head). by rewrite decide_True. }
    assert (s1 !! p = s !! p) as Hp_same.
    { rewrite (Hdirs1 p). rewrite decide_False; [done|].
      intros Hpre. apply prefix_length in Hpre. lia. }
    destruct (s !! p) as [nd|] eqn:Ep.
    + (* the directory is there *)
      assert (nd = Dir) as ->.
      { destruct nd; [|done]. by apply (Hfile p) in Ep. }
      rewrite mkdir_there by (done || congruence).
      unfold isdir. rewrite bool_decide_eq_true_2 by congruence.
      exists s1. split; [done|]. split; [done|].
      intros q. rewrite (Hdirs1 q).
      destruct (decide (q `prefix_of` head)) as [Hq|Hq].
      * rewrite decide_True; [done|]. rewrite Ht. by apply prefix_app_r.
      * case_decide as Hq'; [|done].
        rewrite Ht in Hq'. apply prefix_snoc_inv in Hq' as [->|?]; [|done].
        by rewrite <- Ht.
    + rewrite mkdir_new by (done || congruence).
      exists (<[p:=Dir]> s1). split; [done|].
      split; [by apply fs_ok_insert_dir|].
      intros q. destruct (decide (p = q)) as [<-|Hneq].
      * rewrite lookup_insert_eq. by rewrite decide_True.
      * rewrite lookup_insert_ne by done. rewrite (Hdirs1 q).
        destruct (decide (q `prefix_of` head)) as [Hq|Hq].
        -- rewrite decide_True; [done|]. rewrite Ht. by apply prefix_app_r.
        -- rewrite decide_False; [done|].
           intros Hq'. rewrite Ht in Hq'.
           apply prefix_snoc_inv in Hq' as [->|?]; [|done].
           by rewrite <- Ht in Hneq.
Qed.

Lemma makedirs_from_below_file (n : nat) :
  ∀ (p q : path) (s : fs),
    length p = n → fs_ok s → q `prefix_of` p → q ≠ p → s !! q = Some File →
    makedirs_from n p s = (Some NotADirectoryError, s).
Proof.
  induction n as [|n IH]; intros p q s Hlen Hok Hpre Hne Hq.
  - destruct p; [|done]. apply prefix_nil_inv in Hpre. done.
  - assert (p ≠ []) as Hnil by (by destruct p).
    destruct (path_snoc p Hnil) as [t Ht].
    set (head := removelast p) in *.
    assert (length head = n) as Hhead.
    { rewrite Ht, length_app in Hlen. simpl in Hlen. lia. }
    assert (q `prefix_of` head) as Hqh by by apply prefix_removelast.
    assert (s !! p = None) as Hp.
    { destruct (s !! p) as [nd|] eqn:Ep; [|done].
      pose proof (fs_ok_prefix s p q nd Hok Ep Hpre Hne). congruence. }
    cbn [makedirs_from]. fold head.
    rewrite bool_decide_eq_true_2 by done. simpl.
    destruct (decide (q = head)) as [->|Hneq].
    + unfold exists_ at 1. rewrite bool_decide_eq_true_2 by by eexists.
      simpl. rewrite (mkdir_below_file s p head) by done.
      unfold isdir. by rewrite bool_decide_eq_false_2 by congruence.
    + assert (s !! head = None) as Hh.
      { destruct (s !! head) as [nd|] eqn:Eh; [|done].
        pose proof (fs_ok_prefix s head q nd Hok Eh Hqh Hneq). congruence. }
      unfold exists_ at 1. rewrite bool_decide_eq_false_2
        by (rewrite Hh; by intros [? ?]).
      simpl. by rewrite (IH head q s Hhead Hok Hqh Hneq Hq).
Qed.

(** ** ensure_path *)

Lemma plain_no_dot (p : path) : plain p → "." ∉ p.
Proof.
  intros Hplain Hin. unfold plain in Hplain. rewrite Forall_forall in Hplain.
  by destruct (Hplain "." Hin) as (_ & ? & _).
Qed.

Lemma ensure_path_makes (fun_ : path_function) (s s1 : fs) (p : path) :
  fun_ s = (Ok p, s1) → fs_ok s1 → "." ∉ p → no_file_on p s1 →
  ∃ s2, ensure_path fun_ s = (Ok p, s2) ∧ fs_ok s2 ∧ with_dirs p s1 s2.
Proof.
  intros Hfun Hok Hdot Hfile. unfold ensure_path. rewrite Hfun.
  unfold isfile. rewrite bool_decide_eq_false_2 by by apply Hfile.
  destruct (exists_ p s1) eqn:Eex; simpl.
  - exists s1. split; [done|]. split; [done|].
    apply with_dirs_refl. intros q Hq.
    apply bool_decide_eq_true_1 in Eex as [nd Hnd].
    destruct (decide (q = p)) as [->|Hneq].
    + destruct nd; [|done]. by apply Hfile in Hnd.
    + by apply (fs_ok_prefix s1 p q nd).
  - unfold makedirs.
    destruct (makedirs_from_makes (length p) p s1 eq_refl Hok Hdot Hfile)
      as (s2 & -> & Hok2 & Hdirs). by exists s2.
Qed.

(** X17.  When the returned path is made of names of entries (no [.],
    no [..]) and no name on the way to it is a file, the decorated
    function returns the path and afterwards the path and everything on
    the way to it is a directory; nothing else is changed, and the file
    system is well-formed again. *)
Theorem ensure_path_makes_directories (fun_ : path_function) (s s1 : fs)
    (p : path) :
  fun_ s = (Ok p, s1) → fs_ok s1 → plain p → no_file_on p s1 →
  ∃ s2,
    ensure_path fun_ s = (Ok p, s2) ∧ fs_ok s2
    ∧ (∀ q, q `prefix_of` p → s2 !! q = Some Dir)
    ∧ (∀ q, ¬ q `prefix_of` p → s2 !! q = s1 !! q).
Proof.
  intros Hfun Hok Hplain%plain_no_dot Hfile.
  destruct (ensure_path_makes fun_ s s1 p Hfun Hok Hplain Hfile)
    as (s2 & E & Hok2 & Hdirs).
  exists s2. split; [done|]. split; [done|]. split.
  - intros q Hq. rewrite (Hdirs q). by rewrite decide_True.
  - intros q Hq. rewrite (Hdirs q). by rewrite decide_False.
Qed.

Lemma ensure_path_file_or_blocked (fun_ : path_function) (s s1 : fs)
    (p q : path) :
  fun_ s = (Ok p, s1) → fs_ok s1 → q `prefix_of` p → s1 !! q = Some File →
  ensure_path fun_ s = (if decide (q = p) then Ok p else Raise OSError, s1).
Proof.
  intros Hfun Hok Hpre Hq. unfold ensure_path. rewrite Hfun.
  case_decide as Hqp.
  - subst q. unfold isfile. by rewrite bool_decide_eq_true_2.
  - assert (s1 !! p = None) as Hp.
    { destruct (s1 !! p) as [nd|] eqn:Ep; [|done].
      pose proof (fs_ok_prefix s1 p q nd Hok Ep Hpre Hqp). congruence. }
    unfold isfile, exists_.
    rewrite bool_decide_eq_false_2 by congruence.
    rewrite bool_decide_eq_false_2 by (rewrite Hp; by intros [? ?]).
    simpl. unfold makedirs.
    by rewrite (makedirs_from_below_file (length p) p q s1).
Qed.

(** X18.  When the returned path is a file, the decorated function
    returns it and changes nothing; when a name on the way to it is a
    file, the decorated function raises [OSError] and changes nothing. *)
Theorem ensure_path_stops_at_a_file (fun_ : path_function) (s s1 : fs)
    (p q : path) :
  fun_ s = (Ok p, s1) → fs_ok s1 → q `prefix_of` p → s1 !! q = Some File →
  ensure_path fun_ s = (if decide (q = p) then Ok p else Raise OSError, s1).
Proof.
  intros Hfun Hok Hpre Hq. unfold ensure_path. rewrite Hfun.
  destruct (decide (q = p)) as [->|Hqp].
  - unfold isfile. by rewrite bool_decide_eq_true_2.
  - assert (s1 !! p = None) as Hp.
    { destruct (s1 !! p) as [nd|] eqn:Ep; [|done].
      pose proof (fs_ok_prefix s1 p q nd Hok Ep Hpre Hqp). congruence. }
    unfold isfile, exists_.
    rewrite bool_decide_eq_false_2 by congruence.
    rewrite bool_decide_eq_false_2 by (rewrite Hp; by intros [? ?]).
    simpl. unfold makedirs.
    by rewrite (makedirs_from_below_file (length p) p q s1).
Qed.

(** a path with a file on the way, or none *)
Lemma file_on_dec (p : path) (s : fs) :
  no_file_on p s ∨ ∃ q, q `prefix_of` p ∧ s !! q = Some File.
Proof.
  induction p as [|t p IH] using rev_ind.
  - destruct (s !! []) as [[]|] eqn:E.
    + right. by exists [].
    + left. intros q ->%prefix_nil_inv. congruence.
    + left. intros q ->%prefix_nil_inv. congruence.
  - destruct IH as [Hno|(q & Hq & Hf)].
    + destruct (s !! (p ++ [t])) as [[]|] eqn:E.
      * right. by exists (p ++ [t]).
      * left. intros q [->|Hq]%prefix_snoc_inv; [congruence|by apply Hno].
      * left. intros q [->|Hq]%prefix_snoc_inv; [congruence|by apply Hno].
    + right. exists q. split; [by apply prefix_app_r|done].
Qed.

(** X19.  For a path made of names of entries (no [.], no [..]),
    [ensure_path] never removes or changes an entry of the file system,
    returns the path or raises [OSError], and a second call in the file
    system the first one left gives the same result and changes
    nothing. *)
Theorem ensure_path_settles (p : path) (s : fs) :
  fs_ok s → plain p →
  let f : path_function := λ s, (Ok p, s) in
  let out := ensure_path f s in
  (∀ q n, s !! q = Some n → out.2 !! q = Some n)
  ∧ fs_ok out.2
  ∧ (out.1 = Ok p ∨ out.1 = Raise OSError)
  ∧ ensure_path f out.2 = out.
Proof.
  intros Hok Hdot%plain_no_dot f out. subst out.
  destruct (file_on_dec p s) as [Hno|(q & Hq & Hf)].
  - destruct (ensure_path_makes f s s p eq_refl Hok Hdot Hno)
      as (s2 & E & Hok2 & Hdirs).
    rewrite E. simpl. split; [|split; [done|split; [by left|]]].
    + intros q n Hq. rewrite (Hdirs q). case_decide as Hpre; [|done].
      destruct n; [by apply Hno in Hq|done].
    + unfold ensure_path. simpl.
      assert (s2 !! p = Some Dir) as Hp
        by (by rewrite (Hdirs p), decide_True).
      unfold isfile, exists_.
      rewrite bool_decide_eq_false_2 by congruence.
      rewrite bool_decide_eq_true_2 by by eexists. done.
  - rewrite (ensure_path_file_or_blocked f s s p q eq_refl Hok Hq Hf). simpl.
    split; [done|]. split; [done|].
    split; [case_decide; [by left|by right]|].
    by rewrite (ensure_path_file_or_blocked f s s p q eq_refl Hok Hq Hf).
Qed.

(** ** The cache directories *)

Section PathFacts.

Variable home : path.

Lemma get_cache_path_makes (s : fs) :
  fs_ok s → "." ∉ home →
  no_file_on (join (join home ".cache") "mypackage") s →
  ∃ s1,
    get_cache_path home s = (Ok (join (join home ".cache") "mypackage"), s1)
    ∧ fs_ok s1
    ∧ with_dirs (join (join home ".cache") "mypackage") s s1.
Proof.
  intros Hok Hdot Hfile. apply ensure_path_makes; [done..| |done].
  unfold join. rewrite !elem_of_app, !list_elem_of_singleton.
  intros [[?|?]|?]; done.
Qed.

Lemma below_cache_made (s : fs) (name : string) :
  fs_ok s → "." ∉ home → name ≠ "." →
  let cache := join (join home ".cache") "mypackage" in
  no_file_on (join cache name) s →
  ∃ s2,
    ensure_path (below_cache_path home name) s = (Ok (join cache name), s2)
    ∧ fs_ok s2
    ∧ s2 !! cache = Some Dir ∧ s2 !! join cache name = Some Dir
    ∧ (∀ q, q `prefix_of` join cache name → s2 !! q = Some Dir)
    ∧ (∀ q, ¬ q `prefix_of` join cache name → s2 !! q = s !! q).
Proof.
  intros Hok Hdot Hname cache Hfile.
  destruct (get_cache_path_makes s Hok Hdot) as (s1 & E1 & Hok1 & Hdirs1).
  { intros q Hq. apply Hfile. unfold join. by apply prefix_app_r. }
  assert (no_file_on (join cache name) s1) as Hfile1.
  { intros q Hq. rewrite (Hdirs1 q). case_decide; [done|by apply Hfile]. }
  destruct (ensure_path_makes (below_cache_path home name) s s1
              (join cache name)) as (s2 & E2 & Hok2 & Hdirs2);
    [unfold below_cache_path; by rewrite E1|done| |done|].
  { unfold cache, join. rewrite !elem_of_app, !list_elem_of_singleton.
    intros [[[?|?]|?]|?]; done. }
  exists s2. split; [done|]. split; [done|].
  assert (∀ q, q `prefix_of` join cache name → s2 !! q = Some Dir) as Hall.
  { intros q Hq. rewrite (Hdirs2 q). by rewrite decide_True. }
  split; [apply Hall; unfold join; by apply prefix_app_r|].
  split; [by apply Hall|]. split; [done|].
  intros q Hq. rewrite (Hdirs2 q), decide_False by done.
  rewrite (Hdirs1 q), decide_False; [done|].
  intros Hq'. apply Hq. unfold join. by apply prefix_app_r.
Qed.

(** X20.  [get_model_cache_path] and [get_data_cache_path] first make the
    cache directory [~/.cache/mypackage] and then the directory below
    it: when the home directory is a path of names of entries (no [.],
    no [..]) and no name on the way is a file, the call returns
    [~/.cache/mypackage/models] or [~/.cache/mypackage/data], both
    directories and everything on the way to them are there afterwards,
    and nothing else is changed. *)
Theorem cache_directories_made (s : fs) :
  fs_ok s → plain home →
  let cache := join (join home ".cache") "mypackage" in
  no_file_on (join cache "models") s → no_file_on (join cache "data") s →
  (∃ s2,
     get_model_cache_path home s = (Ok (join cache "models"), s2)
     ∧ fs_ok s2
     ∧ s2 !! cache = Some Dir ∧ s2 !! join cache "models" = Some Dir
     ∧ (∀ q, q `prefix_of` join cache "models" → s2 !! q = Some Dir)
     ∧ (∀ q, ¬ q `prefix_of` join cache "models" → s2 !! q = s !! q))
  ∧ (∃ s2,
       get_data_cache_path home s = (Ok (join cache "data"), s2)
       ∧ fs_ok s2
       ∧ s2 !! cache = Some Dir ∧ s2 !! join cache "data" = Some Dir
       ∧ (∀ q, q `prefix_of` join cache "data" → s2 !! q = Some Dir)
       ∧ (∀ q, ¬ q `prefix_of` join cache "data" → s2 !! q = s !! q)).
Proof.
  intros Hok Hdot%plain_no_dot cache Hmodels Hdata. split.
  - by apply (below_cache_made s "models").
  - by apply (below_cache_made s "data").
Qed.

End PathFacts.

(** ** The example file system *)

(** checks of [fs_ok] and [no_file_on] that compute *)
Lemma fs_ok_check (s : fs) :
  bool_decide
    (s !! [] = Some Dir
     ∧ map_Forall (λ p _, s !! removelast p = Some Dir) s) = true →
  fs_ok s.
Proof.
  intros [Hroot Hall]%bool_decide_eq_true_1. split; [done|].
  intros p n Hp. by apply (Hall p n).
Qed.

Lemma no_file_on_check (p : path) (s : fs) :
  bool_decide
    (Forall (λ k, s !! take k p ≠ Some File) (seq 0 (S (length p)))) = true →
  no_file_on p s.
Proof.
  intros H%bool_decide_eq_true_1 q [k ->].
  rewrite Forall_forall in H.
  specialize (H (length q)). rewrite take_app_length in H. apply H.
  apply elem_of_seq. rewrite length_app. lia.
Qed.

Lemma example_fs_ok : fs_ok example_fs.
Proof. apply fs_ok_check. vm_compute. reflexivity. Qed.

Lemma ensure_path_makes_directories_witness :
  ∃ s2,
    ensure_path (λ s, (Ok ["home"; "u"; "data"; "raw"], s)) example_fs
    = (Ok ["home"; "u"; "data"; "raw"], s2)
    ∧ fs_ok s2
    ∧ (∀ q, q `prefix_of` ["home"; "u"; "data"; "raw"] → s2 !! q = Some Dir)
    ∧ (∀ q, ¬ q `prefix_of` ["home"; "u"; "data"; "raw"]
            → s2 !! q = example_fs !! q).
Proof.
  apply (ensure_path_makes_directories
           (λ s, (Ok ["home"; "u"; "data"; "raw"], s)) example_fs example_fs).
  - reflexivity.
  - apply example_fs_ok.
  - by apply (bool_decide_unpack _).
  - apply no_file_on_check. vm_compute. reflexivity.
Defined.

Lemma ensure_path_stops_at_a_file_witness :
  ensure_path (λ s, (Ok ["home"; "u"; "notes"; "cache"], s)) example_fs
  = (if decide (["home"; "u"; "notes"] = ["home"; "u"; "notes"; "cache"])
     then Ok ["home"; "u"; "notes"; "cache"] else Raise OSError,
     example_fs).
Proof.
  apply (ensure_path_stops_at_a_file
           (λ s, (Ok ["home"; "u"; "notes"; "cache"], s)) example_fs example_fs
           ["home"; "u"; "notes"; "cache"] ["home"; "u"; "notes"]).
  - reflexivity.
  - apply example_fs_ok.
  - by exists ["cache"].
  - reflexivity.
Defined.

Lemma ensure_path_settles_witness :
  let f : path_function := λ s, (Ok ["home"; "u"; "data"], s) in
  let out := ensure_path f example_fs in
  (∀ q n, example_fs !! q = Some n → out.2 !! q = Some n)
  ∧ fs_ok out.2
  ∧ (out.1 = Ok ["home"; "u"; "data"] ∨ out.1 = Raise OSError)
  ∧ ensure_path f out.2 = out.
Proof.
  apply (ensure_path_settles ["home"; "u"; "data"] example_fs).
  - apply example_fs_ok.
  - by apply (bool_decide_unpack _).
Defined.

Lemma cache_directories_made_witness :
  let cache := join (join ["home"; "u"] ".cache") "mypackage" in
  (∃ s2,
     get_model_cache_path ["home"; "u"] example_fs
     = (Ok (join cache "models"), s2)
     ∧ fs_ok s2
     ∧ s2 !! cache = Some Dir ∧ s2 !! join cache "models" = Some Dir
     ∧ (∀ q, q `prefix_of` join cache "models" → s2 !! q = Some Dir)
     ∧ (∀ q, ¬ q `prefix_of` join cache "models"
             → s2 !! q = example_fs !! q))
  ∧ (∃ s2,
       get_data_cache_path ["home"; "u"] example_fs
       = (Ok (join cache "data"), s2)
       ∧ fs_ok s2
       ∧ s2 !! cache = Some Dir ∧ s2 !! join cache "data" = Some Dir
       ∧ (∀ q, q `prefix_of` join cache "data" → s2 !! q = Some Dir)
       ∧ (∀ q, ¬ q `prefix_of` join cache "data"
               → s2 !! q = example_fs !! q)).
Proof.
  apply (cache_directories_made ["home"; "u"] example_fs).
  - apply example_fs_ok.
  - by apply (bool_decide_unpack _).
  - apply no_file_on_check. vm_compute. reflexivity.
  - apply no_file_on_check. vm_compute. reflexivity.
Defined.

(** the directories that [get_model_cache_path] makes below the example
    home directory, and a home directory that is a file *)
Example model_cache_example :
  (get_model_cache_path ["home"; "u"] example_fs).1
  = Ok ["home"; "u"; ".cache"; "mypackage"; "models"]
  ∧ (λ s : gmap (list string) node,
       (s !! ["home"; "u"; ".cache"], s !! ["home"; "u"; ".cache"; "mypackage"],
        s !! ["home"; "u"; ".cache"; "mypackage"; "models"],
        s !! ["home"; "u"; "notes"], s !! ["home"; "u"; ".cache"; "data"]))
      (get_model_cache_path ["home"; "u"] example_fs).2
    = (Some Dir, Some Dir, Some Dir, Some File, None)
  ∧ (get_model_cache_path ["home"; "u"; "notes"] example_fs).1
    = Raise OSError.
Proof. split; [|split]; vm_compute; reflexivity. Qed.

End CacheFacts.
